(** * VapourSynth: property map, audio filters and the AVI v2 muxer

    A shallow embedding of three source files of the repository:

    - [src/core/vsapi.cpp]        (module [VSApi]):  the typed property map
      accessors and the frame request entry points;
    - [src/core/audiofilters.cpp] (module [Audio]):  the audio filters;
    - [src/avfs/avfsavi2.cpp]     (module [Avi]):    the AVI v2 file layout
      built by [AvfsAvi2File::Init] and served by [AvfsAvi2File::ReadMedia].

    Conventions.  C integers are [Z]; where the source computes in a
    fixed-width unsigned type the wrap-around is written out ([wrap32],
    [wrap64]).  [assert]/[ASSERT] are debugging aids compiled out of release
    builds and are not executed by the model; they are quoted in comments
    where they document a precondition.  Reference counting ([add_ref],
    [release]) and logging ([vsWarning]) have no influence on the values the
    theorems speak about and are left out.  [vsFatal] aborts the process and
    is the outcome [Fatal]; behaviour the C++ standard leaves undefined
    (out-of-bounds element access, reading an array through a pointer of
    another element type) is the outcome [Undefined]. *)

From Stdlib Require Import ZArith Lia Bool Ascii.
From stdpp Require Import base option list strings gmap fin_maps.

#[local] Open Scope Z_scope.

(** ** Outcomes of API calls *)

Inductive Outcome (A : Type) : Type :=
| Ret (a : A)
| Fatal
| Undefined.
Arguments Ret {A} a.
Arguments Fatal {A}.
Arguments Undefined {A}.

#[global] Instance Outcome_ret : MRet Outcome := fun A a => Ret a.
#[global] Instance Outcome_bind : MBind Outcome := fun A B f m =>
  match m with
  | Ret a => f a
  | Fatal => Fatal
  | Undefined => Undefined
  end.

Definition wrap32 (z : Z) : Z := z mod 2 ^ 32.
Definition wrap64 (z : Z) : Z := z mod 2 ^ 64.

(** ** Regular expressions over bytes (used to state key validity) *)

Module Regex.

Inductive regex : Type :=
| Empty
| Eps
| Rng (lo hi : ascii)
| Alt (r1 r2 : regex)
| Seq (r1 r2 : regex)
| Star (r : regex).

Definition code (c : ascii) : Z := Z.of_N (N_of_ascii c).

Fixpoint nullable (r : regex) : bool :=
  match r with
  | Empty => false
  | Eps => true
  | Rng _ _ => false
  | Alt r1 r2 => nullable r1 || nullable r2
  | Seq r1 r2 => nullable r1 && nullable r2
  | Star _ => true
  end.

Definition mkAlt (r1 r2 : regex) : regex :=
  match r1, r2 with
  | Empty, _ => r2
  | _, Empty => r1
  | _, _ => Alt r1 r2
  end.

Definition mkSeq (r1 r2 : regex) : regex :=
  match r1 with
  | Empty => Empty
  | Eps => r2
  | _ => match r2 with Empty => Empty | _ => Seq r1 r2 end
  end.

(** Brzozowski derivative. *)
Fixpoint deriv (c : ascii) (r : regex) : regex :=
  match r with
  | Empty => Empty
  | Eps => Empty
  | Rng lo hi => if (code lo <=? code c) && (code c <=? code hi) then Eps else Empty
  | Alt r1 r2 => mkAlt (deriv c r1) (deriv c r2)
  | Seq r1 r2 =>
      mkAlt (mkSeq (deriv c r1) r2) (if nullable r1 then deriv c r2 else Empty)
  | Star r1 => mkSeq (deriv c r1) (Star r1)
  end.

Fixpoint regex_match (r : regex) (s : string) : bool :=
  match s with
  | EmptyString => nullable r
  | String c s' => regex_match (deriv c r) s'
  end.

(** [[A-Za-z_]] and [[A-Za-z0-9_]] *)
Definition alpha_underscore : regex :=
  Alt (Rng "A" "Z") (Alt (Rng "a" "z") (Rng "_" "_")).
Definition alnum_underscore : regex :=
  Alt (Rng "A" "Z") (Alt (Rng "a" "z") (Alt (Rng "0" "9") (Rng "_" "_"))).

(** [[A-Za-z_][A-Za-z0-9_]*] *)
Definition key_regex : regex := Seq alpha_underscore (Star alnum_underscore).

End Regex.

(** ** The property map API of [vsapi.cpp] *)

Module VSApi.

(** Enumerations of [VapourSynth4.h]. *)
Inductive VSPropType : Set :=
| ptUnset | ptInt | ptFloat | ptData | ptFunction
| ptVideoNode | ptAudioNode | ptVideoFrame | ptAudioFrame.

#[global] Instance VSPropType_eq_dec : EqDecision VSPropType.
Proof. solve_decision. Defined.

(** The values written through the [int *error] out-parameter;
    [peSuccess] is the [0] stored by [*error = 0]. *)
Inductive VSPropError : Set :=
| peSuccess | peUnset | peType | peIndex | peError.

Inductive VSMediaType : Set := mtVideo | mtAudio.

#[global] Instance VSMediaType_eq_dec : EqDecision VSMediaType.
Proof. solve_decision. Defined.

Inductive VSDataType : Set := dtUnknown | dtBinary | dtUtf8.

(** The [append] argument of the setters: [paReplace], [paAppend],
    [vs3::paTouch], or any other integer. *)
Inductive VSPropAppendMode : Set :=
| paReplace | paAppend | paTouch | paOther (n : Z).

(** A [double], kept as its 64-bit pattern: the map only stores and
    returns it. *)
Record double : Set := mkDouble { double_bits : Z }.

(** What a non-null [VSNodeRef *], [VSFrameRef *], [VSFuncRef *] points to:
    an identity, and for nodes and frames the media type answered by
    [getNodeType] / [getFrameType]. *)
Record VSNodeRef : Set := mkNodeRef { nodeId : nat; nodeType : VSMediaType }.
Record VSFrameRef : Set := mkFrameRef { frameId : nat; frameType : VSMediaType }.
Record VSFuncRef : Set := mkFuncRef { funcId : nat }.

(** Pointers: [None] is [nullptr]. *)
Definition PVSNodeRef := option VSNodeRef.
Definition PVSFrameRef := option VSFrameRef.
Definition PVSFuncRef := option VSFuncRef.

Record VSMapData : Set := mkMapData { typeHint : VSDataType; data : string }.

(** [VSArrayBase] with its eight instantiations [VSArray<T, propType>]. *)
Inductive VSArrayBase : Type :=
| VSIntArray (l : list Z)
| VSFloatArray (l : list double)
| VSDataArray (l : list VSMapData)
| VSVideoNodeArray (l : list PVSNodeRef)
| VSAudioNodeArray (l : list PVSNodeRef)
| VSVideoFrameArray (l : list PVSFrameRef)
| VSAudioFrameArray (l : list PVSFrameRef)
| VSFunctionArray (l : list PVSFuncRef).

Definition type (arr : VSArrayBase) : VSPropType :=
  match arr with
  | VSIntArray _ => ptInt
  | VSFloatArray _ => ptFloat
  | VSDataArray _ => ptData
  | VSVideoNodeArray _ => ptVideoNode
  | VSAudioNodeArray _ => ptAudioNode
  | VSVideoFrameArray _ => ptVideoFrame
  | VSAudioFrameArray _ => ptAudioFrame
  | VSFunctionArray _ => ptFunction
  end.

Definition size (arr : VSArrayBase) : Z :=
  match arr with
  | VSIntArray l => Z.of_nat (length l)
  | VSFloatArray l => Z.of_nat (length l)
  | VSDataArray l => Z.of_nat (length l)
  | VSVideoNodeArray l => Z.of_nat (length l)
  | VSAudioNodeArray l => Z.of_nat (length l)
  | VSVideoFrameArray l => Z.of_nat (length l)
  | VSAudioFrameArray l => Z.of_nat (length l)
  | VSFunctionArray l => Z.of_nat (length l)
  end.

(** One template instantiation [VSArray<T, propType>]: its type tag, its
    constructor, and the view [reinterpret_cast<VSArray<T, propType> *>]
    gives of an array (defined only when the array really is of that
    instantiation). *)
Record ArrayKind (T : Type) : Type := mkKind {
  kindType : VSPropType;
  wrap : list T -> VSArrayBase;
  unwrap : VSArrayBase -> option (list T)
}.
Arguments kindType {T}.
Arguments wrap {T}.
Arguments unwrap {T}.

Definition IntKind : ArrayKind Z :=
  mkKind Z ptInt VSIntArray
         (fun a => match a with VSIntArray l => Some l | _ => None end).
Definition FloatKind : ArrayKind double :=
  mkKind double ptFloat VSFloatArray
         (fun a => match a with VSFloatArray l => Some l | _ => None end).
Definition DataKind : ArrayKind VSMapData :=
  mkKind VSMapData ptData VSDataArray
         (fun a => match a with VSDataArray l => Some l | _ => None end).
Definition VideoNodeKind : ArrayKind PVSNodeRef :=
  mkKind PVSNodeRef ptVideoNode VSVideoNodeArray
         (fun a => match a with VSVideoNodeArray l => Some l | _ => None end).
Definition AudioNodeKind : ArrayKind PVSNodeRef :=
  mkKind PVSNodeRef ptAudioNode VSAudioNodeArray
         (fun a => match a with VSAudioNodeArray l => Some l | _ => None end).
Definition VideoFrameKind : ArrayKind PVSFrameRef :=
  mkKind PVSFrameRef ptVideoFrame VSVideoFrameArray
         (fun a => match a with VSVideoFrameArray l => Some l | _ => None end).
Definition AudioFrameKind : ArrayKind PVSFrameRef :=
  mkKind PVSFrameRef ptAudioFrame VSAudioFrameArray
         (fun a => match a with VSAudioFrameArray l => Some l | _ => None end).
Definition FunctionKind : ArrayKind PVSFuncRef :=
  mkKind PVSFuncRef ptFunction VSFunctionArray
         (fun a => match a with VSFunctionArray l => Some l | _ => None end).

(** [reinterpret_cast<VSArray<T, propType> *>(arr)->at(index)].  Reading an
    array of another instantiation, or past its end, is undefined. *)
Definition at_ {T} (K : ArrayKind T) (arr : VSArrayBase) (index : Z) : Outcome T :=
  match unwrap K arr with
  | Some l =>
      if (0 <=? index) then
        match l !! Z.to_nat index with
        | Some v => Ret v
        | None => Undefined
        end
      else Undefined
  | None => Undefined
  end.

(** Modelled from the spec: the class [VSMap] of [vscore.h], which is not
    among the sources.  "An ordered mapping from string key to a typed
    Array.  A Map additionally carries an optional error string; once set,
    the Map is considered error-bearing."  Keys are unique. *)
Record VSMap : Type := mkMap {
  storage : gmap string VSArrayBase;
  errorMsg : option string
}.

Definition createMap : VSMap := mkMap ∅ None.
Definition find (map : VSMap) (key : string) : option VSArrayBase :=
  storage map !! key.
Definition insert (map : VSMap) (key : string) (val : VSArrayBase) : VSMap :=
  mkMap (<[key := val]> (storage map)) (errorMsg map).
Definition erase (map : VSMap) (key : string) : VSMap :=
  mkMap (delete key (storage map)) (errorMsg map).
Definition hasError (map : VSMap) : bool :=
  match errorMsg map with Some _ => true | None => false end.
Definition setError (map : VSMap) (errorMessage : string) : VSMap :=
  mkMap (storage map) (Some errorMessage).

(** *** Getters *)

(** The failure exit shared by the four checks of [propGetShared]:
<<
    if (error) *error = code;
    else vsFatal("Property read unsuccessful but no error output: %s", key);
    return nullptr;
>>
    [error] says whether the out-parameter is non-null; the second
    component of the result is what [*error] holds afterwards. *)
Definition propFail (error : bool) (code : VSPropError)
  : Outcome (option VSArrayBase * option VSPropError) :=
  if error then Ret (None, Some code) else Fatal.

Definition propGetShared (map : VSMap) (key : string) (index : Z) (error : bool)
    (propType : VSPropType) : Outcome (option VSArrayBase * option VSPropError) :=
  if hasError map then propFail error peError
  else
    match find map key with
    | None => propFail error peUnset
    | Some arr =>
        if (index <? 0) || (index >? size arr) then propFail error peIndex
        else if negb (bool_decide (type arr = propType)) then propFail error peType
        else Ret (Some arr, if error then Some peSuccess else None)
    end.

Definition propGetInt (map : VSMap) (key : string) (index : Z) (error : bool)
  : Outcome (Z * option VSPropError) :=
  '(arr, e) ← propGetShared map key index error ptInt;
  match arr with
  | Some arr => v ← at_ IntKind arr index; Ret (v, e)
  | None => Ret (0, e)
  end.

(** [int64ToIntS] of [VSHelper4.h]: saturate to the range of [int]. *)
Definition int64ToIntS (i : Z) : Z :=
  if i >? 2147483647 then 2147483647
  else if i <? -2147483648 then -2147483648
  else i.

Definition propGetSaturatedInt (map : VSMap) (key : string) (index : Z) (error : bool)
  : Outcome (Z * option VSPropError) :=
  '(v, e) ← propGetInt map key index error; Ret (int64ToIntS v, e).

Definition propGetFloat (map : VSMap) (key : string) (index : Z) (error : bool)
  : Outcome (double * option VSPropError) :=
  '(arr, e) ← propGetShared map key index error ptFloat;
  match arr with
  | Some arr => v ← at_ FloatKind arr index; Ret (v, e)
  | None => Ret (mkDouble 0, e)
  end.

(** [propGetData] returns [data.c_str()]: the stored bytes, [None] for
    [nullptr]. *)
Definition propGetData (map : VSMap) (key : string) (index : Z) (error : bool)
  : Outcome (option string * option VSPropError) :=
  '(arr, e) ← propGetShared map key index error ptData;
  match arr with
  | Some arr => v ← at_ DataKind arr index; Ret (Some (data v), e)
  | None => Ret (None, e)
  end.

Definition propGetDataSize (map : VSMap) (key : string) (index : Z) (error : bool)
  : Outcome (Z * option VSPropError) :=
  '(arr, e) ← propGetShared map key index error ptData;
  match arr with
  | Some arr => v ← at_ DataKind arr index; Ret (Z.of_nat (String.length (data v)), e)
  | None => Ret (-1, e)
  end.

Definition propGetDataType (map : VSMap) (key : string) (index : Z) (error : bool)
  : Outcome (VSDataType * option VSPropError) :=
  '(arr, e) ← propGetShared map key index error ptData;
  match arr with
  | Some arr => v ← at_ DataKind arr index; Ret (typeHint v, e)
  | None => Ret (dtUnknown, e)
  end.

Definition propGetNode (map : VSMap) (key : string) (index : Z) (error : bool)
  : Outcome (PVSNodeRef * option VSPropError) :=
  '(arr, e) ← propGetShared map key index error ptVideoNode;
  match arr with
  | Some arr => ref ← at_ VideoNodeKind arr index; Ret (ref, e)
  | None =>
      '(arr, e) ← propGetShared map key index error ptAudioNode;
      match arr with
      | Some arr => ref ← at_ AudioNodeKind arr index; Ret (ref, e)
      | None => Ret (None, e)
      end
  end.

(** Both probes ask for [ptData], as the source does. *)
Definition propGetFrame (map : VSMap) (key : string) (index : Z) (error : bool)
  : Outcome (PVSFrameRef * option VSPropError) :=
  '(arr, e) ← propGetShared map key index error ptData;
  match arr with
  | Some arr => ref ← at_ VideoFrameKind arr index; Ret (ref, e)
  | None =>
      '(arr, e) ← propGetShared map key index error ptData;
      match arr with
      | Some arr => ref ← at_ AudioFrameKind arr index; Ret (ref, e)
      | None => Ret (None, e)
      end
  end.

Definition propGetFunc (map : VSMap) (key : string) (index : Z) (error : bool)
  : Outcome (PVSFuncRef * option VSPropError) :=
  '(arr, e) ← propGetShared map key index error ptData;
  match arr with
  | Some arr => ref ← at_ FunctionKind arr index; Ret (ref, e)
  | None => Ret (None, e)
  end.

(** [propGetIntArray] / [propGetFloatArray] return [getDataPointer()]: the
    whole vector. *)
Definition propGetIntArray (map : VSMap) (key : string) (error : bool)
  : Outcome (option (list Z) * option VSPropError) :=
  '(arr, e) ← propGetShared map key 0 error ptInt;
  match arr with
  | Some arr => match unwrap IntKind arr with
                | Some l => Ret (Some l, e)
                | None => Undefined
                end
  | None => Ret (None, e)
  end.

Definition propGetFloatArray (map : VSMap) (key : string) (error : bool)
  : Outcome (option (list double) * option VSPropError) :=
  '(arr, e) ← propGetShared map key 0 error ptFloat;
  match arr with
  | Some arr => match unwrap FloatKind arr with
                | Some l => Ret (Some l, e)
                | None => Undefined
                end
  | None => Ret (None, e)
  end.

Definition propNumElements (map : VSMap) (key : string) : Z :=
  match find map key with
  | Some val => size val
  | None => -1
  end.

Definition propGetType (map : VSMap) (key : string) : VSPropType :=
  match find map key with
  | Some val => type val
  | None => ptUnset
  end.

(** *** Key validation *)

(** The value of a [char] in a comparison ([char] is signed on the
    platforms VapourSynth builds for). *)
Definition char_val (c : ascii) : Z :=
  let n := Z.of_N (N_of_ascii c) in if n <? 128 then n else n - 256.

Definition isAlphaUnderscore (c : ascii) : bool :=
  ((char_val c >=? char_val "a") && (char_val c <=? char_val "z"))
  || ((char_val c >=? char_val "A") && (char_val c <=? char_val "Z"))
  || (char_val c =? char_val "_").

Definition isAlphaNumUnderscore (c : ascii) : bool :=
  ((char_val c >=? char_val "a") && (char_val c <=? char_val "z"))
  || ((char_val c >=? char_val "A") && (char_val c <=? char_val "Z"))
  || ((char_val c >=? char_val "0") && (char_val c <=? char_val "9"))
  || (char_val c =? char_val "_").

(** The [while] loop of [isValidVSMapKey]; the end of the [string] is the
    terminating NUL the loop stops at. *)
Fixpoint isValidVSMapKey_rest (s : string) : bool :=
  match s with
  | EmptyString => true
  | String c s' => if negb (isAlphaNumUnderscore c) then false else isValidVSMapKey_rest s'
  end.

(** [s] is [None] for a null pointer.  For the empty string the first
    character read is the NUL, which is not in [[A-Za-z_]]. *)
Definition isValidVSMapKey (s : option string) : bool :=
  match s with
  | None => false
  | Some EmptyString => false
  | Some (String c s') =>
      if negb (isAlphaUnderscore c) then false else isValidVSMapKey_rest s'
  end.

(** *** Setters *)

Definition propSetShared {T} (K : ArrayKind T) (map : VSMap) (key : string) (val : T)
    (append : VSPropAppendMode) : Outcome (bool * VSMap) :=
  match append with
  | paOther _ => Fatal
  | _ =>
    if negb (isValidVSMapKey (Some key)) then Ret (false, map)
    else
      match append with
      | paReplace => Ret (true, insert map key (wrap K [val]))
      | _ =>
        match find map key with
        | Some arr =>
            if bool_decide (type arr = kindType K) then
              match append with
              | paTouch => Ret (true, map)
              | _ =>
                  match unwrap K arr with
                  | Some l => Ret (true, insert map key (wrap K (l ++ [val])))
                  | None => Undefined
                  end
              end
            else Ret (false, map)
        | None =>
            Ret (true, insert map key
                         (wrap K (match append with paTouch => [] | _ => [val] end)))
        end
      end
  end.

(** The public setters return [!propSetShared(...)]: [0] on success. *)
Definition not_ (r : Outcome (bool * VSMap)) : Outcome (Z * VSMap) :=
  '(ok, m) ← r; Ret (if ok : bool then 0 else 1, m).

Definition propSetInt (map : VSMap) (key : string) (i : Z) (append : VSPropAppendMode) :=
  not_ (propSetShared IntKind map key i append).

Definition propSetFloat (map : VSMap) (key : string) (d : double)
    (append : VSPropAppendMode) :=
  not_ (propSetShared FloatKind map key d append).

(** [d] holds the [length] bytes the call passes. *)
Definition propSetData (map : VSMap) (key : string) (d : string) (type : VSDataType)
    (append : VSPropAppendMode) :=
  not_ (propSetShared DataKind map key (mkMapData type d) append).

Definition propSetNode (map : VSMap) (key : string) (node : PVSNodeRef)
    (append : VSPropAppendMode) :=
  match node with
  | None => not_ (propSetShared VideoNodeKind map key node append)
  | Some n =>
      if bool_decide (nodeType n = mtVideo)
      then not_ (propSetShared VideoNodeKind map key node append)
      else not_ (propSetShared AudioNodeKind map key node append)
  end.

Definition propSetFrame (map : VSMap) (key : string) (frame : PVSFrameRef)
    (append : VSPropAppendMode) :=
  match frame with
  | None => not_ (propSetShared VideoFrameKind map key frame append)
  | Some f =>
      if bool_decide (frameType f = mtVideo)
      then not_ (propSetShared VideoFrameKind map key frame append)
      else not_ (propSetShared AudioFrameKind map key frame append)
  end.

Definition propSetFunc (map : VSMap) (key : string) (func : PVSFuncRef)
    (append : VSPropAppendMode) :=
  not_ (propSetShared FunctionKind map key func append).

(** The bulk setters; [i] holds the [size] elements the call passes, so
    [size >= 0] and the [size < 0] exit is never taken. *)
Definition propSetIntArray (map : VSMap) (key : string) (i : list Z) : Z * VSMap :=
  if negb (isValidVSMapKey (Some key)) then (1, map)
  else (0, insert map key (VSIntArray i)).

Definition propSetFloatArray (map : VSMap) (key : string) (d : list double) : Z * VSMap :=
  if negb (isValidVSMapKey (Some key)) then (1, map)
  else (0, insert map key (VSFloatArray d)).

(** *** Frame requests *)

(** A [FrameContext]: the frame number it was created for, the node, and
    the error slot ([setError]).  The one message [vsapi.cpp] stores is
    "Invalid frame number <n> requested, clip only has <numFrames> frames". *)
Inductive CtxError : Set := InvalidFrameNumber (n numFrames : Z).

Record FrameContext : Set := mkFrameContext {
  ctxN : Z;
  ctxNode : VSNodeRef;
  ctxError : option CtxError
}.

(** The filter-side [VSFrameContext]: the child contexts handed to
    [frameCtx->requestFrame], oldest first. *)
Record VSFrameContext : Set := mkVSFrameContext { reqList : list FrameContext }.

(** [numFrames] is what the source reads from the clip's [VSVideoInfo] or
    [VSAudioInfo]. *)
Definition requestFrameFilter (n : Z) (numFrames : Z) (clip : VSNodeRef)
    (frameCtx : VSFrameContext) : VSFrameContext :=
  let n := if n >=? numFrames then numFrames - 1 else n in
  mkVSFrameContext (reqList frameCtx ++ [mkFrameContext n clip None]).

(** [getFrameAsync] always passes a context to [clip->clip->getFrame];
    the result is that context. *)
Definition getFrameAsync (n : Z) (numFrames : Z) (clip : VSNodeRef) : FrameContext :=
  if (n <? 0) || (negb (numFrames =? 0) && (n >=? numFrames))
  then mkFrameContext n clip (Some (InvalidFrameNumber n numFrames))
  else mkFrameContext n clip None.

(** The clamp of [getFrameFilter] before its lookup in [availableFrames]. *)
Definition getFrameFilter_index (n : Z) (numFrames : Z) : Z :=
  if negb (numFrames =? 0) && (n >=? numFrames) then numFrames - 1 else n.

End VSApi.

(** ** The audio filters of [audiofilters.cpp]

    Embedded: the constructors [testAudioCreate], [blankAudioCreate],
    [audioReverseCreate], [audioSpliceCreate], [audioTrimCreate],
    [audioLoopCreate] and the frame callbacks [testAudioGetframe],
    [blankAudioGetframe], [audioReverseGetFrame], [audioSpliceGetframe]. *)

Module Audio.
Import VSApi.

(** Constants of [VapourSynth4.h]. *)
Definition VS_AUDIO_FRAME_SAMPLES : Z := 3072.
Definition acFrontLeft : Z := 0.
Definition acFrontRight : Z := 1.
Definition nfNoCache : Z := 1.
Definition INT_MAX : Z := 2147483647.

Inductive VSSampleType : Set := stInteger | stFloat.
Inductive VSFilterMode : Set := fmParallel | fmParallelRequests | fmUnordered | fmSerial.
Inductive VSActivationReason : Set := arInitial | arAllFramesReady | arError.

#[global] Instance VSSampleType_eq_dec : EqDecision VSSampleType.
Proof. solve_decision. Defined.
#[global] Instance VSNodeRef_eq_dec : EqDecision VSNodeRef.
Proof. solve_decision. Defined.

Record VSAudioFormat : Set := mkAudioFormat {
  sampleType : VSSampleType;
  bitsPerSample : Z;
  bytesPerSample : Z;
  numChannels : Z;
  channelLayout : Z
}.

Record VSAudioInfo : Set := mkAudioInfo {
  format : VSAudioFormat;
  sampleRate : Z;
  numSamples : Z;
  numFrames : Z
}.

(** An audio frame: its format, its length in samples ([getFrameLength])
    and one buffer per channel.  A buffer is the sequence of its samples;
    a sample is the value of the [bytesPerSample]-byte element, read as an
    unsigned number. *)
Record AudioFrame : Set := mkAudioFrame {
  frameFormat : VSAudioFormat;
  frameLength : Z;
  channels : list (list Z)
}.

(** The instance data a constructor hands to [createAudioFilter]; for
    [AudioReverse], [sizeofT] is the size of the template argument of the
    callback the constructor picks. *)
Inductive FilterData : Set :=
| BlankAudioData (f : option AudioFrame) (ai : VSAudioInfo) (keep : bool)
| TestAudioData (ai : VSAudioInfo)
| AudioTrimData (node : PVSNodeRef) (ai : VSAudioInfo) (first : Z)
| AudioSpliceData (node : list PVSNodeRef) (ai : VSAudioInfo)
                  (numSamplesV cumSamples numFramesV : list Z)
| AudioLoopData (node : PVSNodeRef) (ai : VSAudioInfo) (srcSamples srcFrames : Z)
| AudioReverseData (node : PVSNodeRef) (ai : VSAudioInfo) (sizeofT : Z).

(** Modelled from the spec: the node table of the core ([vscore.cpp] is
    not among the sources).  "A Node is a (filter-instance, output-index)
    pair; exposes either a VideoInfo or an AudioInfo."  [nodeInfo] is
    [None] for a video node. *)
Record VSNode : Set := mkNode {
  filterName : string;
  nodeInfo : option VSAudioInfo;
  instanceData : option FilterData;
  filterMode : VSFilterMode;
  nodeFlags : Z
}.

Record VSCore : Set := mkCore { nodes : list VSNode }.

(** Modelled from the spec: [getAudioInfo] of a node reference.  Asking a
    video node for its audio info is fatal; a null or dangling reference
    is undefined. *)
Definition getAudioInfo (core : VSCore) (node : PVSNodeRef) : Outcome VSAudioInfo :=
  match node with
  | None => Undefined
  | Some ref =>
      match nodes core !! nodeId ref with
      | Some nd => match nodeInfo nd with Some ai => Ret ai | None => Fatal end
      | None => Undefined
      end
  end.

(** Modelled from the spec: "numFrames = ceil(numSamples /
    VS_AUDIO_FRAME_SAMPLES)". *)
Definition framesOfSamples (numSamples : Z) : Z :=
  (numSamples + VS_AUDIO_FRAME_SAMPLES - 1) / VS_AUDIO_FRAME_SAMPLES.

(** Modelled from the spec: [createAudioFilter] with one output registers
    the node with the core, its frame count derived from its sample
    count, and appends a reference to it to the "clip" key of [out]. *)
Definition createAudioFilter (out : VSMap) (name : string) (ai : VSAudioInfo)
    (mode : VSFilterMode) (flags : Z) (d : FilterData) (core : VSCore)
  : Outcome (VSMap * VSCore) :=
  let ai' := mkAudioInfo (format ai) (sampleRate ai) (numSamples ai)
                         (framesOfSamples (numSamples ai)) in
  let ref := mkNodeRef (length (nodes core)) mtAudio in
  '(_, out') ← propSetNode out "clip" (Some ref) paAppend;
  Ret (out', mkCore (nodes core ++ [mkNode name (Some ai') (Some d) mode flags])).

Fixpoint popcount_upto (k : nat) (x : Z) : Z :=
  match k with
  | O => 0
  | S k' => (if Z.testbit x (Z.of_nat k') then 1 else 0) + popcount_upto k' x
  end.

(** Modelled from the spec: [queryAudioFormat] fills in a format for a
    sample type, a bit depth and a channel layout bitmap: the bytes per
    sample are the smallest power of two that holds the bits, and there
    is one channel per bit set in the layout. *)
Definition queryAudioFormat (st : VSSampleType) (bits : Z) (layout : Z)
  : option VSAudioFormat :=
  if (bits <? 16) || (bits >? 32) then None
  else if bool_decide (st = stFloat) && negb (bits =? 32) then None
  else if layout =? 0 then None
  else Some (mkAudioFormat st bits (if bits <=? 16 then 2 else 4)
                           (popcount_upto 64 layout) layout).

(** Modelled from the spec: [isSameAudioInfo] of [VSHelper4.h]. *)
Definition isSameAudioInfo (a b : VSAudioInfo) : bool :=
  (sampleRate a =? sampleRate b)
  && (bitsPerSample (format a) =? bitsPerSample (format b))
  && bool_decide (sampleType (format a) = sampleType (format b))
  && (channelLayout (format a) =? channelLayout (format b)).

(** [RETERROR(msg)] is [vsapi->setError(out, msg); return;]. *)
Definition RETERROR (out : VSMap) (core : VSCore) (msg : string)
  : Outcome (VSMap * VSCore) :=
  Ret (setError out msg, core).

(** [if (err)] on the value left in the error out-parameter. *)
Definition is_err (e : option VSPropError) : bool :=
  match e with
  | Some peSuccess | None => false
  | Some _ => true
  end.

(** *** Buffers and loops *)

(** The content of freshly allocated memory is indeterminate; the model
    fills it with a value no sample has. *)
Definition indeterminate : Z := 2 ^ 62.

(** Modelled from the spec: "newAudioFrame(format, numSamples, propSrc)
    is per-channel planar with one buffer per present channel". *)
Definition newAudioFrame (fmt : VSAudioFormat) (numSamples : Z) : AudioFrame :=
  mkAudioFrame fmt numSamples
    (replicate (Z.to_nat (numChannels fmt))
               (replicate (Z.to_nat numSamples) indeterminate)).

(** [getFrameLength(f)], [getReadPtr(f, p)], and the buffer behind
    [getWritePtr(f, p)] written back; a null frame or a channel the frame
    does not have is undefined. *)
Definition getFrameLength (frame : option AudioFrame) : Outcome Z :=
  match frame with Some f => Ret (frameLength f) | None => Undefined end.

Definition getReadPtr (frame : option AudioFrame) (p : Z) : Outcome (list Z) :=
  match frame with
  | Some f =>
      if 0 <=? p then
        match channels f !! Z.to_nat p with Some b => Ret b | None => Undefined end
      else Undefined
  | None => Undefined
  end.

Definition setChannel (frame : AudioFrame) (p : Z) (buf : list Z) : AudioFrame :=
  mkAudioFrame (frameFormat frame) (frameLength frame)
               (<[Z.to_nat p := buf]> (channels frame)).

(** [ptr[i]] as a value and [ptr[i] = v]. *)
Definition load (buf : list Z) (i : Z) : Outcome Z :=
  if 0 <=? i then
    match buf !! Z.to_nat i with Some v => Ret v | None => Undefined end
  else Undefined.

Definition store (buf : list Z) (i : Z) (v : Z) : Outcome (list Z) :=
  if (0 <=? i) && (i <? Z.of_nat (length buf))
  then Ret (<[Z.to_nat i := v]> buf)
  else Undefined.

(** [memcpy(dst + dstOff, src + srcOff, n)] and [memset(dst + dstOff, 0,
    n)] with offsets and count in bytes, on buffers of [bps]-byte samples.
    Every byte quantity the filters pass is a sample count times [bps]. *)
Definition memcpy (bps : Z) (dst : list Z) (dstOff : Z) (src : list Z) (srcOff : Z)
    (n : Z) : Outcome (list Z) :=
  if (n <? 0) || (dstOff <? 0) || (srcOff <? 0) || (bps <=? 0) then Undefined
  else
    let d := Z.to_nat (dstOff / bps) in
    let s := Z.to_nat (srcOff / bps) in
    let k := Z.to_nat (n / bps) in
    if (s + k <=? length src)%nat && (d + k <=? length dst)%nat
    then Ret (take d dst ++ take k (drop s src) ++ drop (d + k) dst)
    else Undefined.

Definition memset0 (bps : Z) (dst : list Z) (dstOff : Z) (n : Z) : Outcome (list Z) :=
  if (n <? 0) || (dstOff <? 0) || (bps <=? 0) then Undefined
  else
    let d := Z.to_nat (dstOff / bps) in
    let k := Z.to_nat (n / bps) in
    if (d + k <=? length dst)%nat
    then Ret (take d dst ++ replicate k 0 ++ drop (d + k) dst)
    else Undefined.

(** [for (i = start; i < start + count; i++) body] over a state. *)
Fixpoint for_loop {St : Type} (count : nat) (i : Z) (body : Z -> St -> Outcome St)
    (s : St) : Outcome St :=
  match count with
  | O => Ret s
  | S k => s' ← body i s; for_loop k (i + 1) body s'
  end.

Definition forZ {St : Type} (n : Z) (body : Z -> St -> Outcome St) (s : St)
  : Outcome St :=
  for_loop (Z.to_nat n) 0 body s.

(** [vec[i]] on a [std::vector]. *)
Definition vec {A} (v : list A) (i : Z) : Outcome A :=
  if 0 <=? i then
    match v !! Z.to_nat i with Some x => Ret x | None => Undefined end
  else Undefined.

(** *** The frame context seen by a filter *)

(** The requests issued so far ([requestFrameFilter]) and the frames the
    scheduler has made available ([availableFrames], keyed by node and
    frame number). *)
Record FilterFrameCtx : Set := mkFilterCtx {
  requests : VSFrameContext;
  availableFrames : list (VSNodeRef * Z * AudioFrame)
}.

Definition clipNumFrames (core : VSCore) (clip : PVSNodeRef) : Outcome Z :=
  ai ← getAudioInfo core clip; Ret (numFrames ai).

Definition requestFrame (core : VSCore) (n : Z) (clip : PVSNodeRef)
    (frameCtx : FilterFrameCtx) : Outcome FilterFrameCtx :=
  nf ← clipNumFrames core clip;
  match clip with
  | Some c =>
      Ret (mkFilterCtx (requestFrameFilter n nf c (requests frameCtx))
                       (availableFrames frameCtx))
  | None => Undefined
  end.

Fixpoint lookupFrame (key : VSNodeRef * Z) (l : list (VSNodeRef * Z * AudioFrame))
  : option AudioFrame :=
  match l with
  | [] => None
  | (k, f) :: l' => if bool_decide (k = key) then Some f else lookupFrame key l'
  end.

Definition getFrameFilter (core : VSCore) (n : Z) (clip : PVSNodeRef)
    (frameCtx : FilterFrameCtx) : Outcome (option AudioFrame) :=
  nf ← clipNumFrames core clip;
  match clip with
  | Some c =>
      Ret (lookupFrame (c, getFrameFilter_index n nf) (availableFrames frameCtx))
  | None => Undefined
  end.

(** *** TestAudio *)

Definition testAudioGetframe (n : Z) (activationReason : VSActivationReason)
    (ai : VSAudioInfo) : Outcome (option AudioFrame) :=
  match activationReason with
  | arInitial =>
      let startSample := n * VS_AUDIO_FRAME_SAMPLES in
      let samples := Z.min VS_AUDIO_FRAME_SAMPLES (numSamples ai - startSample) in
      let frame := newAudioFrame (format ai) samples in
      frame ← forZ (numChannels (format ai)) (fun channel frame =>
        w ← getReadPtr (Some frame) channel;
        w ← forZ samples (fun i w =>
               store w i (Z.rem (startSample + i) 65535 mod 2 ^ 16)) w;
        Ret (setChannel frame channel w)) frame;
      Ret (Some frame)
  | _ => Ret None
  end.

Definition testAudioCreate (in_ out : VSMap) (core : VSCore)
  : Outcome (VSMap * VSCore) :=
  '(channels, err) ← propGetInt in_ "channels" 0 true;
  let channels :=
    if is_err err then Z.lor (Z.shiftl 1 acFrontLeft) (Z.shiftl 1 acFrontRight)
    else channels in
  '(bits, err) ← propGetSaturatedInt in_ "bits" 0 true;
  let bits := if is_err err then 16 else bits in
  if negb (bits =? 16) then RETERROR out core "TestAudio: bits must be 16!" else
  '(isfloat, err) ← propGetInt in_ "isfloat" 0 true;
  let isfloat := negb (isfloat =? 0) in
  '(rate, err) ← propGetSaturatedInt in_ "samplerate" 0 true;
  let rate := if is_err err then 44100 else rate in
  '(len, err) ← propGetInt in_ "length" 0 true;
  let len := if is_err err then rate * 60 * 60 else len in
  if rate <=? 0 then RETERROR out core "TestAudio: invalid sample rate" else
  if len <=? 0 then RETERROR out core "TestAudio: invalid length" else
  match queryAudioFormat (if isfloat then stFloat else stInteger) bits (wrap64 channels) with
  | None => RETERROR out core "TestAudio: invalid format"
  | Some fmt =>
      let ai := mkAudioInfo fmt rate len 0 in
      createAudioFilter out "TestAudio" ai fmParallel nfNoCache (TestAudioData ai) core
  end.

(** *** BlankAudio *)

(** The result carries the frame returned and the new value of [d->f]. *)
Definition blankAudioGetframe (n : Z) (activationReason : VSActivationReason)
    (f : option AudioFrame) (ai : VSAudioInfo) (keep : bool)
  : Outcome (option AudioFrame * option AudioFrame) :=
  match activationReason with
  | arInitial =>
      frame ← match f with
               | None =>
                   let samples :=
                     Z.min VS_AUDIO_FRAME_SAMPLES
                           (numSamples ai - n * VS_AUDIO_FRAME_SAMPLES) in
                   let frame := newAudioFrame (format ai) samples in
                   frame ← forZ (numChannels (format ai)) (fun channel frame =>
                     w ← getReadPtr (Some frame) channel;
                     w ← memset0 (bytesPerSample (format ai)) w 0
                                 (samples * bytesPerSample (format ai));
                     Ret (setChannel frame channel w)) frame;
                   Ret (Some frame)
               | Some _ => Ret None
               end;
      if keep : bool then
        let f' := match frame with Some _ => frame | None => f end in
        Ret (f', f')
      else Ret (frame, f)
  | _ => Ret (None, f)
  end.

Definition blankAudioCreate (in_ out : VSMap) (core : VSCore)
  : Outcome (VSMap * VSCore) :=
  '(channels, err) ← propGetInt in_ "channels" 0 true;
  let channels :=
    if is_err err then Z.lor (Z.shiftl 1 acFrontLeft) (Z.shiftl 1 acFrontRight)
    else channels in
  '(bits, err) ← propGetSaturatedInt in_ "bits" 0 true;
  let bits := if is_err err then 16 else bits in
  '(isfloat, err) ← propGetInt in_ "isfloat" 0 true;
  let isfloat := negb (isfloat =? 0) in
  '(keep, err) ← propGetInt in_ "keep" 0 true;
  let keep := negb (keep =? 0) in
  '(rate, err) ← propGetSaturatedInt in_ "samplerate" 0 true;
  let rate := if is_err err then 44100 else rate in
  '(len, err) ← propGetInt in_ "length" 0 true;
  let len := if is_err err then rate * 60 * 60 else len in
  if rate <=? 0 then RETERROR out core "BlankAudio: invalid sample rate" else
  if len <=? 0 then RETERROR out core "BlankAudio: invalid length" else
  match queryAudioFormat (if isfloat then stFloat else stInteger) bits (wrap64 channels) with
  | None => RETERROR out core "BlankAudio: invalid format"
  | Some fmt =>
      let ai := mkAudioInfo fmt rate len 0 in
      createAudioFilter out "BlankAudio" ai (if keep then fmUnordered else fmParallel)
                        nfNoCache (BlankAudioData None ai keep) core
  end.

(** *** AudioReverse *)

Definition audioReverseGetFrame (core : VSCore) (n : Z)
    (activationReason : VSActivationReason) (node : PVSNodeRef) (ai : VSAudioInfo)
    (frameCtx : FilterFrameCtx) : Outcome (option AudioFrame * FilterFrameCtx) :=
  let n1 := numFrames ai - 1 - n in
  let n2 := Z.max (numFrames ai - 2 - n) 0 in
  match activationReason with
  | arInitial =>
      frameCtx ← requestFrame core n1 node frameCtx;
      frameCtx ← (if negb (Z.rem (numSamples ai) VS_AUDIO_FRAME_SAMPLES =? 0)
                   then requestFrame core n2 node frameCtx
                   else Ret frameCtx);
      Ret (None, frameCtx)
  | arAllFramesReady =>
      let dstLength :=
        Z.min VS_AUDIO_FRAME_SAMPLES (numSamples ai - n * VS_AUDIO_FRAME_SAMPLES) in
      src1 ← getFrameFilter core n1 node frameCtx;
      l1 ← getFrameLength src1;
      let s1offset := wrap64 (l1 - Z.rem (numSamples ai) VS_AUDIO_FRAME_SAMPLES) in
      let s1offset := if s1offset =? VS_AUDIO_FRAME_SAMPLES then 0 else s1offset in
      let s1samples := wrap64 (l1 - s1offset) in
      let dst := newAudioFrame (format ai) dstLength in
      dst ← forZ (numChannels (format ai)) (fun p dst =>
        src1Ptr ← getReadPtr src1 p;
        dstPtr ← getReadPtr (Some dst) p;
        dstPtr ← forZ s1samples (fun i dstPtr =>
                    v ← load src1Ptr (wrap64 (l1 - i - 1 - s1offset));
                    store dstPtr i v) dstPtr;
        Ret (setChannel dst p dstPtr)) dst;
      let remaining := wrap64 (dstLength - s1samples) in
      dst ← (if remaining >? 0 then
               src2 ← getFrameFilter core n2 node frameCtx;
               l2 ← getFrameLength src2;
               forZ (numChannels (format ai)) (fun p dst =>
                 src2Ptr ← getReadPtr src2 p;
                 dstPtr ← getReadPtr (Some dst) p;
                 dstPtr ← forZ remaining (fun i dstPtr =>
                             v ← load src2Ptr (wrap64 (l2 - i - 1));
                             store dstPtr (s1samples + i) v) dstPtr;
                 Ret (setChannel dst p dstPtr)) dst
             else Ret dst);
      Ret (Some dst, frameCtx)
  | _ => Ret (None, frameCtx)
  end.

Definition audioReverseCreate (in_ out : VSMap) (core : VSCore)
  : Outcome (VSMap * VSCore) :=
  '(node, _) ← propGetNode in_ "clip" 0 false;
  ai ← getAudioInfo core node;
  if bytesPerSample (format ai) =? 2
  then createAudioFilter out "AudioReverse" ai fmParallel 0
                         (AudioReverseData node ai 2) core
  else createAudioFilter out "AudioReverse" ai fmParallel 0
                         (AudioReverseData node ai 4) core.

(** *** AudioSplice *)

(** The index the [for] loop stops at: the first [i] with
    [cumSamples[i] > sampleStart]. *)
Fixpoint firstAbove (cumSamples : list Z) (sampleStart : Z) (i : Z) : option Z :=
  match cumSamples with
  | [] => None
  | c :: rest => if c >? sampleStart then Some i else firstAbove rest sampleStart (i + 1)
  end.

(** The outcome of a [do ... while] that has not ended after [fuel]
    iterations is left undefined by the model; the callers give it one
    iteration per sample still to deliver. *)
Fixpoint spliceRequestLoop (fuel : nat) (core : VSCore) (node : list PVSNodeRef)
    (numSamplesV numFramesV : list Z) (i reqFrame reqStartOffset remainingSamples : Z)
    (frameCtx : FilterFrameCtx) : Outcome FilterFrameCtx :=
  match fuel with
  | O => Undefined
  | S fuel' =>
      ns ← vec numSamplesV i;
      nd ← vec node i;
      let reqStart := reqFrame * VS_AUDIO_FRAME_SAMPLES in
      let reqSamples := Z.min (VS_AUDIO_FRAME_SAMPLES - reqStartOffset) (ns - reqStart) in
      frameCtx ← requestFrame core reqFrame nd frameCtx;
      let remainingSamples := remainingSamples - reqSamples in
      let reqFrame := reqFrame + 1 in
      nf ← vec numFramesV i;
      let '(reqFrame, i) := if reqFrame >? nf - 1 then (0, i + 1) else (reqFrame, i) in
      if remainingSamples >? 0
      then spliceRequestLoop fuel' core node numSamplesV numFramesV
                             i reqFrame 0 remainingSamples frameCtx
      else Ret frameCtx
  end.

Fixpoint spliceCopyLoop (fuel : nat) (core : VSCore) (node : list PVSNodeRef)
    (ai : VSAudioInfo) (numFramesV : list Z)
    (i reqFrame reqStartOffset remainingSamples : Z)
    (dst : option AudioFrame) (dstOffset : Z) (frameCtx : FilterFrameCtx)
  : Outcome (option AudioFrame) :=
  match fuel with
  | O => Undefined
  | S fuel' =>
      let bps := bytesPerSample (format ai) in
      nd ← vec node i;
      src ← getFrameFilter core reqFrame nd frameCtx;
      let reqFrame := reqFrame + 1 in
      len ← getFrameLength src;
      let length := len - reqStartOffset in
      let dst := match dst with
                 | Some d => d
                 | None => newAudioFrame (format ai) remainingSamples
                 end in
      dst ← forZ (numChannels (format ai)) (fun p dst =>
        srcPtr ← getReadPtr src p;
        dstPtr ← getReadPtr (Some dst) p;
        dstPtr ← memcpy bps dstPtr dstOffset srcPtr (reqStartOffset * bps)
                        (Z.min length remainingSamples * bps);
        Ret (setChannel dst p dstPtr)) dst;
      let dstOffset := dstOffset + length * bps in
      let remainingSamples := remainingSamples - length in
      nf ← vec numFramesV i;
      let '(reqFrame, i) := if reqFrame >? nf - 1 then (0, i + 1) else (reqFrame, i) in
      if remainingSamples >? 0
      then spliceCopyLoop fuel' core node ai numFramesV
                          i reqFrame 0 remainingSamples (Some dst) dstOffset frameCtx
      else Ret (Some dst)
  end.

Definition audioSpliceGetframe (core : VSCore) (n : Z)
    (activationReason : VSActivationReason) (node : list PVSNodeRef) (ai : VSAudioInfo)
    (numSamplesV cumSamples numFramesV : list Z) (frameCtx : FilterFrameCtx)
  : Outcome (option AudioFrame * FilterFrameCtx) :=
  let sampleStart := n * VS_AUDIO_FRAME_SAMPLES in
  let remainingSamples := Z.min VS_AUDIO_FRAME_SAMPLES (numSamples ai - sampleStart) in
  match activationReason with
  | arInitial =>
      match firstAbove cumSamples sampleStart 0 with
      | Some i =>
          prev ← (if i >? 0 then vec cumSamples (i - 1) else Ret 0);
          let currentStartSample := sampleStart - prev in
          let reqStartOffset := Z.rem currentStartSample VS_AUDIO_FRAME_SAMPLES in
          let reqFrame := Z.quot currentStartSample VS_AUDIO_FRAME_SAMPLES in
          frameCtx ← spliceRequestLoop (S (Z.to_nat remainingSamples)) core node
                       numSamplesV numFramesV i reqFrame reqStartOffset
                       remainingSamples frameCtx;
          Ret (None, frameCtx)
      | None => Ret (None, frameCtx)
      end
  | arAllFramesReady =>
      match firstAbove cumSamples sampleStart 0 with
      | Some i =>
          prev ← (if i >? 0 then vec cumSamples (i - 1) else Ret 0);
          let currentStartSample := sampleStart - prev in
          let reqStartOffset := Z.rem currentStartSample VS_AUDIO_FRAME_SAMPLES in
          let reqFrame := Z.quot currentStartSample VS_AUDIO_FRAME_SAMPLES in
          dst ← spliceCopyLoop (S (Z.to_nat remainingSamples)) core node ai numFramesV
                  i reqFrame reqStartOffset remainingSamples None 0 frameCtx;
          Ret (dst, frameCtx)
      | None => Ret (None, frameCtx)
      end
  | _ => Ret (None, frameCtx)
  end.

(** [for (i = from; i < numNodes; i++)] collecting one value per node. *)
Fixpoint collect {A} (count : nat) (i : Z) (f : Z -> Outcome A) : Outcome (list A) :=
  match count with
  | O => Ret []
  | S k => x ← f i; xs ← collect k (i + 1) f; Ret (x :: xs)
  end.

(** [for (i = 1; i < numNodes; i++) if (!isSameAudioInfo(...)) RETERROR]:
    whether the loop leaves through [RETERROR]. *)
Fixpoint anyMismatch (count : nat) (i : Z) (core : VSCore) (node : list PVSNodeRef)
    (ai : VSAudioInfo) : Outcome bool :=
  match count with
  | O => Ret false
  | S k =>
      nd ← vec node i;
      ai_i ← getAudioInfo core nd;
      if negb (isSameAudioInfo ai ai_i) then Ret true
      else anyMismatch k (i + 1) core node ai
  end.

(** [cumSamples]: running sums of [numSamples]. *)
Fixpoint runningSums (acc : Z) (l : list Z) : list Z :=
  match l with
  | [] => []
  | x :: l' => (acc + x) :: runningSums (acc + x) l'
  end.

Definition audioSpliceCreate (in_ out : VSMap) (core : VSCore)
  : Outcome (VSMap * VSCore) :=
  let numNodes := propNumElements in_ "clips" in
  out ← (if numNodes =? 1 then
           '(node, _) ← propGetNode in_ "clips" 0 false;
           '(_, out) ← propSetNode out "clip" node paAppend;
           Ret out
         else Ret out);
  node ← collect (Z.to_nat numNodes) 0
          (fun i => '(nd, _) ← propGetNode in_ "clips" i false; Ret nd);
  first ← vec node 0;
  ai ← getAudioInfo core first;
  mismatch ← anyMismatch (Z.to_nat (numNodes - 1)) 1 core node ai;
  if mismatch : bool
  then RETERROR out core "AudioSplice: format mismatch"
  else
    infos ← collect (Z.to_nat numNodes) 0
               (fun i => nd ← vec node i; getAudioInfo core nd);
    let numSamplesV := map numSamples infos in
    let numFramesV := map numFrames infos in
    let total := fold_left Z.add numSamplesV 0 in
    let ai := mkAudioInfo (format ai) (sampleRate ai) total (numFrames ai) in
    let cumSamples := runningSums 0 numSamplesV in
    createAudioFilter out "AudioSplice" ai fmParallel nfNoCache
      (AudioSpliceData node ai numSamplesV cumSamples numFramesV) core.

(** *** AudioTrim *)

Definition audioTrimCreate (in_ out : VSMap) (core : VSCore)
  : Outcome (VSMap * VSCore) :=
  '(first, err) ← propGetSaturatedInt in_ "first" 0 true;
  let firstset := negb (is_err err) in
  '(last, err) ← propGetSaturatedInt in_ "last" 0 true;
  let lastset := negb (is_err err) in
  '(length, err) ← propGetSaturatedInt in_ "length" 0 true;
  let lengthset := negb (is_err err) in
  if lastset && lengthset
  then RETERROR out core "AudioTrim: both last sample and length specified" else
  if lastset && (last <? first)
  then RETERROR out core
         "AudioTrim: invalid last sample specified (last is less than first)" else
  if lengthset && (length <? 1)
  then RETERROR out core "AudioTrim: invalid length specified (less than 1)" else
  if first <? 0
  then RETERROR out core "Trim: invalid first frame specified (less than 0)" else
  '(node, _) ← propGetNode in_ "clip" 0 false;
  ai ← getAudioInfo core node;
  if (lastset && (last >=? numSamples ai))
     || (lengthset && (first + length >? numSamples ai))
     || (numSamples ai <=? first)
  then RETERROR out core "AudioTrim: last sample beyond clip end" else
  let trimlen :=
    if lastset then last - first + 1
    else if lengthset then length
    else numSamples ai - first in
  if (negb firstset && negb lastset && negb lengthset)
     || (negb (trimlen =? 0) && (trimlen =? numSamples ai))
  then '(_, out) ← propSetNode out "clip" node paReplace; Ret (out, core)
  else
    let ai := mkAudioInfo (format ai) (sampleRate ai) trimlen (numFrames ai) in
    createAudioFilter out "AudioTrim" ai fmParallel nfNoCache
                      (AudioTrimData node ai first) core.

(** *** AudioLoop *)

Definition audioLoopCreate (in_ out : VSMap) (core : VSCore)
  : Outcome (VSMap * VSCore) :=
  '(times, _) ← propGetInt in_ "times" 0 true;
  if times <? 0
  then RETERROR out core "AudioLoop: cannot repeat clip a negative number of times" else
  '(node, _) ← propGetNode in_ "clip" 0 false;
  ai ← getAudioInfo core node;
  let srcSamples := numSamples ai in
  let srcFrames := numFrames ai in
  if times =? 1
  then '(_, out) ← propSetNode out "clip" node paReplace; Ret (out, core)
  else
    if (times >? 0)
       && (numSamples ai >? Z.quot (INT_MAX * VS_AUDIO_FRAME_SAMPLES) times)
    then RETERROR out core "AudioLoop: resulting clip is too long"
    else
      let ai := mkAudioInfo (format ai) (sampleRate ai)
                  (if times >? 0 then numSamples ai * times
                   else INT_MAX * VS_AUDIO_FRAME_SAMPLES)
                  (numFrames ai) in
      createAudioFilter out "AudioLoop" ai fmParallel 0
                        (AudioLoopData node ai srcSamples srcFrames) core.

End Audio.

(** ** The clips of the audio scenarios *)

Module AudioScenarios.
Import VSApi Audio.

Definition stereo16 : VSAudioFormat := mkAudioFormat stInteger 16 2 2 3.
Definition node0 : VSNodeRef := mkNodeRef 0 mtAudio.
Definition node1 : VSNodeRef := mkNodeRef 1 mtAudio.
Definition noRequests : FilterFrameCtx := mkFilterCtx (mkVSFrameContext []) [].

(** [TestAudio(length=3072)]: the arguments, and the core the constructor
    leaves, with the clip as node 0. *)
Definition testAudioArgs : VSMap := insert createMap "length" (VSIntArray [3072]).
Definition testAudioInfo : VSAudioInfo := mkAudioInfo stereo16 44100 3072 1.
Definition testAudioCore : VSCore :=
  mkCore [mkNode "TestAudio" (Some testAudioInfo)
                 (Some (TestAudioData (mkAudioInfo stereo16 44100 3072 0)))
                 fmParallel nfNoCache].

(** The samples [x[0], ..., x[n-1]] with [x[i] = i mod 0xFFFF], and the
    same in reverse order. *)
Definition ramp (n : Z) : list Z := (fun i => i mod 65535) <$> seqZ 0 n.
Definition reversed_ramp (n : Z) : list Z := (fun i => (n - 1 - i) mod 65535) <$> seqZ 0 n.

(** [BlankAudio(length=100)] and [BlankAudio(length=200)]: nodes 0 and 1. *)
Definition blankArgs (len : Z) : VSMap := insert createMap "length" (VSIntArray [len]).
Definition blankInfo (len : Z) : VSAudioInfo := mkAudioInfo stereo16 44100 len 1.
Definition blankNode (len : Z) : VSNode :=
  mkNode "BlankAudio" (Some (blankInfo len))
         (Some (BlankAudioData None (mkAudioInfo stereo16 44100 len 0) false))
         fmParallel nfNoCache.
Definition blankCore1 : VSCore := mkCore [blankNode 100].
Definition blankCore2 : VSCore := mkCore [blankNode 100; blankNode 200].

(** The instance data [audioSpliceCreate] computes for these two clips
    once it holds their nodes. *)
Definition spliceInfo : VSAudioInfo := mkAudioInfo stereo16 44100 300 1.

(** Two source frames with recognisable samples, in place of the silent
    ones: 1000.. in the first clip, 2000.. in the second. *)
Definition markedFrame (base len : Z) : AudioFrame :=
  mkAudioFrame stereo16 len
    [(fun i => base + i) <$> seqZ 0 len; (fun i => base + 500 + i) <$> seqZ 0 len].

End AudioScenarios.


(** ** The AVI v2 file of [avfsavi2.cpp]

    [AvfsAvi2File::Init] lays the file out as a sequence of RIFF segments
    and [AvfsAvi2File::ReadMedia] serves byte ranges of it.  [unsigned] is
    32 bits wide, [size_t] and [uint64_t] 64 bits; memory is little-endian
    and the structs have no padding (all their fields are naturally
    aligned).  [malloc] is taken to succeed. *)

Module Avi.

(** *** Bytes *)

Definition wrap16 (z : Z) : Z := z mod 2 ^ 16.

(** The value an [unsigned] has after conversion to [int]. *)
Definition sint32 (z : Z) : Z :=
  let w := wrap32 z in if w <? 2 ^ 31 then w else w - 2 ^ 32.

Definition le16 (x : Z) : list Z := [x mod 256; (x / 2 ^ 8) mod 256].
Definition le32 (x : Z) : list Z :=
  [x mod 256; (x / 2 ^ 8) mod 256; (x / 2 ^ 16) mod 256; (x / 2 ^ 24) mod 256].
Definition zeros (n : Z) : list Z := replicate (Z.to_nat n) 0.

Definition cc (c : ascii) : Z := Z.of_N (N_of_ascii c).

(** [MAKETAGUINT32(a, b, c, d)]: the 32-bit value whose bytes in memory
    are [a b c d]. *)
Definition MAKETAGUINT32 (a b c d : ascii) : Z :=
  cc a + cc b * 2 ^ 8 + cc c * 2 ^ 16 + cc d * 2 ^ 24.

(** [RiffAlignUp]: [(size+(2-1))&~(2-1)] on [unsigned]. *)
Definition RiffAlignUp (size : Z) : Z :=
  Z.land (wrap32 (size + (2 - 1))) (wrap32 (Z.lnot (2 - 1))).

(** *** Constants and struct sizes *)

Definition AVI_INDEX_OF_INDEXES : Z := 0.
Definition AVI_INDEX_OF_CHUNKS : Z := 1.
Definition AVI_INDEX_SUB_DEFAULT : Z := 0.
Definition AVIF_HASINDEX : Z := 16.
Definition AVIF_ISINTERLEAVED : Z := 256.
Definition AVIIF_KEYFRAME : Z := 16.
Definition UINT_MAX : Z := 2 ^ 32 - 1.

Definition riffFcc := MAKETAGUINT32 "R" "I" "F" "F".
Definition riffLstFcc := MAKETAGUINT32 "L" "I" "S" "T".
Definition riffJunkFcc := MAKETAGUINT32 "J" "U" "N" "K".
Definition avi2MaxSegSize : Z := 1073741822.
Definition avi2Max4GbSegSize : Z := 4294967294.
Definition avi2FileFcc := MAKETAGUINT32 "A" "V" "I" " ".
Definition avi2SegLstFcc := MAKETAGUINT32 "A" "V" "I" "X".
Definition avi2HdrLstFcc := MAKETAGUINT32 "h" "d" "r" "l".
Definition avi2DataLstFcc := MAKETAGUINT32 "m" "o" "v" "i".
Definition avi2MainHdrFcc := MAKETAGUINT32 "a" "v" "i" "h".
Definition avi2StrHdrFcc := MAKETAGUINT32 "s" "t" "r" "h".
Definition avi2VidFrmtFcc := MAKETAGUINT32 "s" "t" "r" "f".
Definition avi2VidHdrLstFcc := MAKETAGUINT32 "s" "t" "r" "l".
Definition avi2VidStrTypeFcc := MAKETAGUINT32 "v" "i" "d" "s".
Definition avi2AudFrmtFcc := MAKETAGUINT32 "s" "t" "r" "f".
Definition avi2AudHdrLstFcc := MAKETAGUINT32 "s" "t" "r" "l".
Definition avi2AudStrTypeFcc := MAKETAGUINT32 "a" "u" "d" "s".
Definition avi2IndxFcc := MAKETAGUINT32 "i" "n" "d" "x".
Definition avi2ExtHdrFcc := MAKETAGUINT32 "d" "m" "l" "h".
Definition avi2ExtHdrLstFcc := MAKETAGUINT32 "o" "d" "m" "l".
Definition avi2OldIndxFcc := MAKETAGUINT32 "i" "d" "x" "1".
Definition avfsAvi2VidRgbFcc := MAKETAGUINT32 "0" "0" "d" "b".
Definition avfsAvi2VidCompFcc := MAKETAGUINT32 "0" "0" "d" "c".
Definition avfsAvi2AudFcc := MAKETAGUINT32 "0" "1" "w" "b".
Definition avfsAvi2VidIndxFcc := MAKETAGUINT32 "i" "x" "0" "0".
Definition avfsAvi2AudIndxFcc := MAKETAGUINT32 "i" "x" "0" "1".
Definition dibFcc := MAKETAGUINT32 "D" "I" "B" " ".
Definition avfsAvi2MaxSuperIndxEntryCount : Z := 5000.

Definition sizeof_RiffTag : Z := 8.
Definition sizeof_RiffLst : Z := 12.
Definition sizeof_Avi2MainHdr : Z := 64.
Definition sizeof_Avi2StrHdr : Z := 64.
Definition sizeof_Avi2VidFrmt : Z := 48.
Definition sizeof_Avi2IndxHdr : Z := 32.
Definition sizeof_Avi2SuperIndxEntry : Z := 16.
Definition sizeof_AvfsAvi2SuperIndx : Z :=
  sizeof_Avi2IndxHdr + avfsAvi2MaxSuperIndxEntryCount * sizeof_Avi2SuperIndxEntry.
Definition sizeof_Avi2IndxEntry : Z := 8.
Definition sizeof_Avi2OldIndxEntry : Z := 16.
(** [WaveFormatExtensible] is declared outside the sources; it is the 40
    bytes of the Windows [WAVEFORMATEXTENSIBLE]. *)
Definition sizeof_WaveFormatExtensible : Z := 40.
Definition sizeof_Avi2AudFrmt : Z := sizeof_RiffTag + sizeof_WaveFormatExtensible.
Definition sizeof_Avi2ExtHdr : Z := sizeof_RiffTag + 4 + 244.
Definition sizeof_Avi2ExtHdrLst : Z := sizeof_RiffLst + sizeof_Avi2ExtHdr.
Definition sizeof_AvfsAvi2VidHdrLst : Z :=
  sizeof_RiffLst + sizeof_Avi2StrHdr + sizeof_Avi2VidFrmt + sizeof_AvfsAvi2SuperIndx.
Definition sizeof_AvfsAvi2AudHdrLst : Z :=
  sizeof_RiffLst + sizeof_Avi2StrHdr + sizeof_Avi2AudFrmt + sizeof_AvfsAvi2SuperIndx.
Definition sizeof_AvfsAvi2HdrJunk : Z := sizeof_Avi2IndxHdr + 10 * 1024.
Definition sizeof_AvfsAvi2HdrLst : Z :=
  sizeof_RiffLst + sizeof_Avi2MainHdr + sizeof_AvfsAvi2VidHdrLst
  + sizeof_AvfsAvi2AudHdrLst + sizeof_Avi2ExtHdrLst + sizeof_AvfsAvi2HdrJunk.
Definition offsetof_Seg0_dataLst : Z := sizeof_RiffLst + sizeof_AvfsAvi2HdrLst.
Definition offsetof_Seg0_dataLst_data : Z := offsetof_Seg0_dataLst + sizeof_RiffLst.
Definition offsetof_SegN_dataLst : Z := sizeof_RiffLst.
Definition offsetof_SegN_dataLst_data : Z := offsetof_SegN_dataLst + sizeof_RiffLst.
Definition offsetof_AvfsAvi2Indx_ents : Z := sizeof_Avi2IndxHdr.
Definition offsetof_AvfsAvi2OldIndx_ents : Z := sizeof_RiffTag.

Definition avfsAvi2MaxDataLstSize : Z :=
  wrap32 (avi2MaxSegSize - offsetof_Seg0_dataLst_data - offsetof_AvfsAvi2OldIndx_ents).
Definition avfsAvi2Max4GbDataLstSize : Z :=
  wrap32 (avi2Max4GbSegSize - offsetof_Seg0_dataLst_data - offsetof_AvfsAvi2OldIndx_ents).

Definition indxPrePadSize : Z := 131072.
Definition indxPostPadSize : Z := 131072.

(** *** What [Init] reads *)

(** The [VideoInfoAdapter] ([vi]) and the [Synther_] ([avs]) are declared
    outside the sources; these are the values and methods [Init] and
    [ReadMedia] use.  [GetFourCC] and [GetBiCompression] are [None] when
    the call fails; [wfx] is what [CreateWaveFormatExtensible] writes;
    [AVFS_AVI_VidFcc] is the script variable, empty when unset.
    [GetAudio start count] and [GetFrameData n offset size] give the call's
    success and the bytes it leaves in the buffer passed to it
    ([count * sampleSize] and [size] of them). *)
Record Synther : Type := mkSynther {
  num_frames : Z;
  width : Z;
  height : Z;
  fps_numerator : Z;
  fps_denominator : Z;
  HasVideo : bool;
  BMPSize : Z;
  BitsPerPixel : Z;
  GetFourCC : option Z;
  GetBiCompression : option Z;
  HasAudio : bool;
  AudioIsFloat : bool;
  BitsPerChannelSample : Z;
  AudioChannels : Z;
  num_audio_samples : Z;
  SamplesPerSecond : Z;
  AudioSamplesFromFrames : Z -> Z;
  FramesFromAudioSamples : Z -> Z;
  wfx : list Z;
  AVFS_AVI_VidFcc : string;
  AVFS_AVI_NoInterleave : bool;
  AVFS_AVI_SmallSegments : bool;
  GetAudio : Z -> Z -> bool * list Z;
  GetFrameData : Z -> Z -> Z -> bool * list Z
}.

(** *** The file object *)

Record Avi2IndxEntry : Set := mkIndxEntry { dwOffset : Z; dwSize : Z }.
Record Avi2OldIndxEntry : Set := mkOldIndxEntry {
  old_dwChunkId : Z; old_dwFlags : Z; old_dwOffset : Z; old_dwSize : Z
}.
Record Avi2SuperIndxEntry : Set := mkSuperIndxEntry {
  qwOffsetLow : Z; qwOffsetHigh : Z; super_dwSize : Z; dwDuration : Z
}.
Record Avi2IndxHdr : Set := mkIndxHdr {
  tag_fcc : Z; tag_cb : Z;
  wLongsPerEntry : Z; bIndxSubType : Z; bIndxType : Z;
  nEntriesInUse : Z; dwChunkId : Z;
  qwBaseOffsetLow : Z; qwBaseOffsetHigh : Z
}.
Record AvfsAvi2Indx : Set := mkIndx { hdr : Avi2IndxHdr; ents : list Avi2IndxEntry }.

(** [Seg]: the numbers, the frame index, the three index chunks, and
    [hdr_buf], the [hdrSize] bytes of [seg->hdr].  [audIndx] and [oldIndx]
    are [None] where [Init] leaves their bytes out ([audIndxSize] or
    [oldIndxSize] is 0). *)
Record Seg : Set := mkSeg {
  startOffset : Z;
  startFrame : Z;
  seg_vidFrameCount : Z;
  seg_audFrameCount : Z;
  frameCount : Z;
  lastAudFramePackCount : Z;
  hdrSize : Z;
  dataSize : Z;
  vidIndxSize : Z;
  audIndxSize : Z;
  oldIndxSize : Z;
  segSize : Z;
  frameIndx : list Z;
  vidIndx : AvfsAvi2Indx;
  audIndx : option AvfsAvi2Indx;
  oldIndx : option (Z * Z * list Avi2OldIndxEntry);
  hdr_buf : list Z
}.

Record AvfsAvi2File : Type := mkFile {
  avs : Synther;
  frameVidFcc : Z;
  frameAudHdrSize : Z;
  frameVidDataSize : Z;
  frameVidAlignSize : Z;
  vidFrameCount : Z;
  audFrameCount : Z;
  fileFrameCount : Z;
  durFrameCount : Z;
  sampleSize : Z;
  firstAudFramePackCount : Z;
  fileSampleCount : Z;
  fileSegCount : Z;
  fileSize : Z;
  segs : list Seg
}.

(** *** Serialisation of the structs *)

Definition RiffTag_bytes (fcc cb : Z) : list Z := le32 fcc ++ le32 cb.
Definition RiffLst_bytes (tagfcc cb fcc : Z) : list Z := RiffTag_bytes tagfcc cb ++ le32 fcc.

Definition Avi2IndxHdr_bytes (h : Avi2IndxHdr) : list Z :=
  RiffTag_bytes (tag_fcc h) (tag_cb h)
  ++ le16 (wLongsPerEntry h) ++ [bIndxSubType h] ++ [bIndxType h]
  ++ le32 (nEntriesInUse h) ++ le32 (dwChunkId h)
  ++ le32 (qwBaseOffsetLow h) ++ le32 (qwBaseOffsetHigh h) ++ zeros 4.

Definition Avi2IndxEntry_bytes (e : Avi2IndxEntry) : list Z :=
  le32 (dwOffset e) ++ le32 (dwSize e).

Definition Avi2OldIndxEntry_bytes (e : Avi2OldIndxEntry) : list Z :=
  le32 (old_dwChunkId e) ++ le32 (old_dwFlags e)
  ++ le32 (old_dwOffset e) ++ le32 (old_dwSize e).

Definition Avi2SuperIndxEntry_bytes (e : Avi2SuperIndxEntry) : list Z :=
  le32 (qwOffsetLow e) ++ le32 (qwOffsetHigh e)
  ++ le32 (super_dwSize e) ++ le32 (dwDuration e).

Definition AvfsAvi2Indx_bytes (x : AvfsAvi2Indx) : list Z :=
  Avi2IndxHdr_bytes (hdr x) ++ concat (map Avi2IndxEntry_bytes (ents x)).

Definition vidIndx_bytes (seg : Seg) : list Z := AvfsAvi2Indx_bytes (vidIndx seg).
Definition audIndx_bytes (seg : Seg) : list Z :=
  match audIndx seg with Some x => AvfsAvi2Indx_bytes x | None => [] end.
Definition oldIndx_bytes (seg : Seg) : list Z :=
  match oldIndx seg with
  | Some (fcc, cb, es) => RiffTag_bytes fcc cb ++ concat (map Avi2OldIndxEntry_bytes es)
  | None => []
  end.

(** [AvfsAvi2SuperIndx]: the header and the 5000 entry slots, those
    after [entries] still zero. *)
Definition AvfsAvi2SuperIndx_bytes (chunkId nEntries : Z)
    (entries : list Avi2SuperIndxEntry) : list Z :=
  Avi2IndxHdr_bytes
    (mkIndxHdr avi2IndxFcc (sizeof_AvfsAvi2SuperIndx - sizeof_RiffTag)
               (sizeof_Avi2SuperIndxEntry / 4) AVI_INDEX_SUB_DEFAULT AVI_INDEX_OF_INDEXES
               nEntries chunkId 0 0)
  ++ concat (map Avi2SuperIndxEntry_bytes entries)
  ++ zeros ((avfsAvi2MaxSuperIndxEntryCount - Z.of_nat (length entries))
            * sizeof_Avi2SuperIndxEntry).

Definition Avi2StrHdr_bytes (fccType fccHandler dwInitialFrames dwScale dwRate dwLength
    dwSuggestedBufferSize dwSampleSize frameRight frameBottom : Z) : list Z :=
  RiffTag_bytes avi2StrHdrFcc (sizeof_Avi2StrHdr - sizeof_RiffTag)
  ++ le32 fccType ++ le32 fccHandler ++ le32 0 ++ le16 0 ++ le16 0
  ++ le32 dwInitialFrames ++ le32 dwScale ++ le32 dwRate ++ le32 0 ++ le32 dwLength
  ++ le32 dwSuggestedBufferSize ++ le32 4294967295 ++ le32 dwSampleSize
  ++ le16 0 ++ le16 0 ++ le16 frameRight ++ le16 frameBottom.

(** The [hdrSize] bytes of segment 0: [AvfsAvi2Seg0] up to [dataLst.data],
    with the values [Init] leaves in its fields (fields it never assigns
    keep the zero of the initial [memset]). *)
Definition Seg0_hdr_bytes (f : AvfsAvi2File) (vidType vidCompress bitsPerPixel
    clippedSampleCount audSuggestedBufferSize dwMicroSecPerFrame dwMaxBytesPerSec
    segDurFrameCount riffCb moviCb : Z)
    (vidIndxEnts audIndxEnts : list Avi2SuperIndxEntry) : list Z :=
  let vi := avs f in
  RiffLst_bytes riffFcc riffCb avi2FileFcc
  (* hdrLst *)
  ++ RiffLst_bytes riffLstFcc (sizeof_AvfsAvi2HdrLst - sizeof_RiffTag) avi2HdrLstFcc
  (* hdrLst.mainHdr *)
  ++ RiffTag_bytes avi2MainHdrFcc (sizeof_Avi2MainHdr - sizeof_RiffTag)
  ++ le32 dwMicroSecPerFrame ++ le32 dwMaxBytesPerSec ++ le32 0
  ++ le32 (Z.lor AVIF_HASINDEX AVIF_ISINTERLEAVED)
  ++ le32 segDurFrameCount ++ le32 0
  ++ le32 (1 + (if fileSampleCount f =? 0 then 0 else 1)) ++ le32 0
  ++ le32 (wrap32 (width vi)) ++ le32 (wrap32 (height vi)) ++ zeros 16
  (* hdrLst.vidLst *)
  ++ RiffLst_bytes riffLstFcc (sizeof_AvfsAvi2VidHdrLst - sizeof_RiffTag) avi2VidHdrLstFcc
  ++ Avi2StrHdr_bytes avi2VidStrTypeFcc (wrap32 vidType) 0
       (wrap32 (fps_denominator vi)) (wrap32 (fps_numerator vi)) (vidFrameCount f)
       (frameVidDataSize f) 0 (wrap16 (width vi)) (wrap16 (height vi))
  ++ RiffTag_bytes avi2VidFrmtFcc (sizeof_Avi2VidFrmt - sizeof_RiffTag)
  ++ le32 (sizeof_Avi2VidFrmt - sizeof_RiffTag)
  ++ le32 (wrap32 (width vi)) ++ le32 (wrap32 (height vi))
  ++ le16 1 ++ le16 bitsPerPixel ++ le32 (wrap32 vidCompress)
  ++ le32 (frameVidDataSize f) ++ le32 0 ++ le32 0 ++ le32 0 ++ le32 0
  ++ AvfsAvi2SuperIndx_bytes (frameVidFcc f) (fileSegCount f) vidIndxEnts
  (* hdrLst.audLst *)
  ++ RiffLst_bytes (if fileSampleCount f =? 0 then riffJunkFcc else riffLstFcc)
                   (sizeof_AvfsAvi2AudHdrLst - sizeof_RiffTag) avi2AudHdrLstFcc
  ++ Avi2StrHdr_bytes avi2AudStrTypeFcc 0 1
       (sampleSize f) (wrap32 (SamplesPerSecond vi * sampleSize f)) clippedSampleCount
       audSuggestedBufferSize (sampleSize f) 0 0
  ++ RiffTag_bytes avi2AudFrmtFcc (sizeof_Avi2AudFrmt - sizeof_RiffTag)
  ++ take (Z.to_nat sizeof_WaveFormatExtensible)
          (wfx vi ++ zeros sizeof_WaveFormatExtensible)
  ++ AvfsAvi2SuperIndx_bytes avfsAvi2AudFcc (fileSegCount f) audIndxEnts
  (* hdrLst.extLst *)
  ++ RiffLst_bytes riffLstFcc (sizeof_Avi2ExtHdrLst - sizeof_RiffTag) avi2ExtHdrLstFcc
  ++ RiffTag_bytes avi2ExtHdrFcc (sizeof_Avi2ExtHdr - sizeof_RiffTag)
  ++ le32 (durFrameCount f) ++ zeros 244
  (* hdrLst.junk *)
  ++ RiffTag_bytes riffJunkFcc (sizeof_AvfsAvi2HdrJunk - sizeof_RiffTag)
  ++ zeros (sizeof_Avi2IndxHdr - sizeof_RiffTag) ++ zeros (10 * 1024)
  (* dataLst.lst *)
  ++ RiffLst_bytes riffLstFcc moviCb avi2DataLstFcc.

(** The [hdrSize] bytes of a later segment: [AvfsAvi2SegN] up to
    [dataLst.data]. *)
Definition SegN_hdr_bytes (riffCb moviCb : Z) : list Z :=
  RiffLst_bytes riffFcc riffCb avi2SegLstFcc
  ++ RiffLst_bytes riffLstFcc moviCb avi2DataLstFcc.

(** *** [LocateFrameSamples] *)

(** The starting sample of [frame] and the number of samples in
    [frameCount] frames; the result is [(start, *outSampleCount)]. *)
Definition LocateFrameSamples (f : AvfsAvi2File) (frame frameCount : Z) : Z * Z :=
  let startFrame := frame in
  let endFrame := wrap32 (frame + frameCount) in
  let startFrame :=
    if negb (startFrame =? 0) then wrap32 (startFrame + firstAudFramePackCount f)
    else startFrame in
  let endFrame :=
    if negb (endFrame =? 0) then wrap32 (endFrame + firstAudFramePackCount f)
    else endFrame in
  let clip s := if s >? fileSampleCount f then fileSampleCount f else s in
  let startSample :=
    if negb (fileSampleCount f =? 0)
    then clip (wrap64 (AudioSamplesFromFrames (avs f) (sint32 startFrame)))
    else 0 in
  let endSample :=
    if negb (fileSampleCount f =? 0)
    then clip (wrap64 (AudioSamplesFromFrames (avs f) (sint32 endFrame)))
    else 0 in
  (startSample, wrap32 (endSample - startSample)).

Definition FrameSampleCount (f : AvfsAvi2File) (frame : Z) : Z :=
  snd (LocateFrameSamples f frame 1).

(** *** [Init] *)

(** Division; by zero it is undefined. *)
Definition udiv (a b : Z) : Outcome Z := if b =? 0 then Undefined else Ret (a / b).

(** [while (audFrameCount && FrameSampleCount(audFrameCount-1) == 0)
    audFrameCount--;] *)
Fixpoint dropSilentFrames (fuel : nat) (f : AvfsAvi2File) (audFrameCount : Z) : Z :=
  match fuel with
  | O => audFrameCount
  | S fuel' =>
      if negb (audFrameCount =? 0) && (FrameSampleCount f (audFrameCount - 1) =? 0)
      then dropSilentFrames fuel' f (audFrameCount - 1)
      else audFrameCount
  end.

(** The chunk sizes of one frame of a segment, as [Init] and [ReadMedia]
    both compute them: the audio data size of segment frame [segFrame]. *)
Definition frameAudDataSize (f : AvfsAvi2File) (segStartFrame segAudFrameCount
    segLastAudFramePackCount segFrame : Z) : Z :=
  let frameSampleCount :=
    snd (LocateFrameSamples f (wrap32 (segStartFrame + segFrame))
           (if segFrame + 1 =? segAudFrameCount
            then wrap32 (segLastAudFramePackCount + 1) else 1)) in
  wrap32 (frameSampleCount * sampleSize f).

(** The per-frame loop of a segment.  The result is the frame index, the
    entries of the audio, video and legacy indexes in the order written,
    and the final [segDataSize].  [old] says whether [oldIndxEnts] is
    non-null (segment 0). *)
Fixpoint frameLoop (n : nat) (f : AvfsAvi2File) (old : bool)
    (segStartFrame segAudFrameCount segLastAudFramePackCount segVidFrameCount
     segSize : Z) (segFrame segDataSize : Z)
  : list Z * list Avi2IndxEntry * list Avi2IndxEntry * list Avi2OldIndxEntry * Z :=
  match n with
  | O => ([], [], [], [], segDataSize)
  | S n' =>
      let idx := segDataSize in
      let '(audE, oldA, segDataSize) :=
        if segFrame <? segAudFrameCount then
          let sz := frameAudDataSize f segStartFrame segAudFrameCount
                                     segLastAudFramePackCount segFrame in
          ([mkIndxEntry (wrap32 (segSize + segDataSize + sizeof_RiffTag)) sz],
           (if old then [mkOldIndxEntry avfsAvi2AudFcc AVIIF_KEYFRAME
                                         (wrap32 (segSize + segDataSize)) sz]
            else []),
           wrap32 (segDataSize + (sizeof_RiffTag + RiffAlignUp sz)))
        else ([], [], segDataSize) in
      let '(vidE, oldV, segDataSize) :=
        if segFrame <? segVidFrameCount then
          ([mkIndxEntry (wrap32 (segSize + segDataSize + sizeof_RiffTag))
                        (frameVidDataSize f)],
           (if old then [mkOldIndxEntry (frameVidFcc f) AVIIF_KEYFRAME
                                         (wrap32 (segSize + segDataSize))
                                         (frameVidDataSize f)]
            else []),
           wrap32 (segDataSize
                   + (sizeof_RiffTag + frameVidDataSize f + frameVidAlignSize f)))
        else ([], [], segDataSize) in
      let '(fi, ae, ve, oe, ds) :=
        frameLoop n' f old segStartFrame segAudFrameCount segLastAudFramePackCount
                  segVidFrameCount segSize (segFrame + 1) segDataSize in
      (idx :: fi, audE ++ ae, vidE ++ ve, oldA ++ oldV ++ oe, ds)
  end.

(** What one pass of the segment loop leaves besides the [Seg]: the RIFF
    and movi sizes it writes into the segment header, the segment's
    duration, and its entries of the two super indexes. *)
Record SegExtra : Set := mkSegExtra {
  riffCb : Z;
  moviCb : Z;
  segDurFrameCount : Z;
  vidSuper : Avi2SuperIndxEntry;
  audSuper : option Avi2SuperIndxEntry
}.

(** The body of the segment loop for segment [segi], with [fileSize] and
    [segStartFrame] as they are on entry.  [hdr_buf] is filled in once all
    segments are known. *)
Definition buildSeg (f : AvfsAvi2File) (noInterleave : bool) (maxSegFrameCount : Z)
    (segi fileSize segStartFrame : Z) : Seg * SegExtra :=
  let segFrameCount := wrap32 (fileFrameCount f - segStartFrame) in
  let segFrameCount :=
    if segFrameCount >? maxSegFrameCount then maxSegFrameCount else segFrameCount in
  let segVidFrameCount :=
    if segStartFrame <? vidFrameCount f then wrap32 (vidFrameCount f - segStartFrame)
    else 0 in
  let segVidFrameCount :=
    if segVidFrameCount >? segFrameCount then segFrameCount else segVidFrameCount in
  let segAudFrameCount :=
    if segStartFrame <? audFrameCount f then wrap32 (audFrameCount f - segStartFrame)
    else 0 in
  let segAudFrameCount :=
    if segAudFrameCount >? segFrameCount then segFrameCount else segAudFrameCount in
  let segDurFrameCount :=
    if wrap32 (segi + 1) =? fileSegCount f then wrap32 (durFrameCount f - segStartFrame)
    else segFrameCount in
  let '(segLastAudFramePackCount, segAudFrameCount) :=
    if noInterleave && negb (segAudFrameCount =? 0)
    then (wrap32 (segAudFrameCount - 1), 1)
    else (0, segAudFrameCount) in
  let segHdrSize :=
    if segi =? 0 then offsetof_Seg0_dataLst_data else offsetof_SegN_dataLst_data in
  let segVidIndxSize :=
    wrap32 (offsetof_AvfsAvi2Indx_ents + segVidFrameCount * sizeof_Avi2IndxEntry) in
  let segAudIndxSize :=
    if negb (fileSampleCount f =? 0)
    then wrap32 (offsetof_AvfsAvi2Indx_ents + segAudFrameCount * sizeof_Avi2IndxEntry)
    else 0 in
  let segOldIndxSize :=
    wrap32 ((if segi =? 0 then 1 else 0)
            * (offsetof_AvfsAvi2OldIndx_ents
               + wrap32 (segVidFrameCount + segAudFrameCount) * sizeof_Avi2OldIndxEntry)) in
  let segSize := segHdrSize in
  let '(frameIndx, audEnts, vidEnts, oldEnts, segDataSize) :=
    frameLoop (Z.to_nat segFrameCount) f (segi =? 0) segStartFrame segAudFrameCount
              segLastAudFramePackCount segVidFrameCount segSize 0 0 in
  let segSize := wrap32 (segSize + segDataSize) in
  let segSize := wrap32 (segSize + indxPrePadSize) in
  let vidIndx :=
    mkIndx (mkIndxHdr avfsAvi2VidIndxFcc (wrap32 (segVidIndxSize - sizeof_RiffTag))
                      (sizeof_Avi2IndxEntry / 4) 0 AVI_INDEX_OF_CHUNKS
                      segVidFrameCount (frameVidFcc f)
                      (wrap32 fileSize) (wrap32 (Z.shiftr fileSize 32)))
           vidEnts in
  let vidSuper :=
    mkSuperIndxEntry (wrap32 (fileSize + segSize))
                     (wrap32 (Z.shiftr (wrap64 (fileSize + segSize)) 32))
                     (wrap32 (offsetof_AvfsAvi2Indx_ents
                              + sizeof_Avi2IndxEntry * segFrameCount))
                     segVidFrameCount in
  let segSize := wrap32 (segSize + segVidIndxSize) in
  let '(audIndx, audSuper, segSize) :=
    if negb (fileSampleCount f =? 0) then
      let frameSampleCount :=
        snd (LocateFrameSamples f segStartFrame
               (wrap32 (segAudFrameCount + segLastAudFramePackCount))) in
      (Some (mkIndx (mkIndxHdr avfsAvi2AudIndxFcc
                               (wrap32 (segAudIndxSize - sizeof_RiffTag))
                               (sizeof_Avi2IndxEntry / 4) 0 AVI_INDEX_OF_CHUNKS
                               segAudFrameCount avfsAvi2AudFcc
                               (wrap32 fileSize) (wrap32 (Z.shiftr fileSize 32)))
                    audEnts),
       Some (mkSuperIndxEntry (wrap32 (fileSize + segSize))
                              (wrap32 (Z.shiftr (wrap64 (fileSize + segSize)) 32))
                              (wrap32 (offsetof_AvfsAvi2Indx_ents
                                       + sizeof_Avi2IndxEntry * segFrameCount))
                              frameSampleCount),
       wrap32 (segSize + segAudIndxSize))
    else (None, None, segSize) in
  let moviCb :=
    wrap32 (segSize
            - (if segi =? 0 then offsetof_Seg0_dataLst else offsetof_SegN_dataLst)
            - sizeof_RiffTag) in
  let '(oldIndx, segSize) :=
    if negb (segOldIndxSize =? 0)
    then (Some (avi2OldIndxFcc, wrap32 (segOldIndxSize - sizeof_RiffTag), oldEnts),
          wrap32 (segSize + segOldIndxSize))
    else (None, segSize) in
  let segSize := wrap32 (segSize + indxPostPadSize) in
  let riffCb := wrap32 (segSize - sizeof_RiffTag) in
  (mkSeg fileSize segStartFrame segVidFrameCount segAudFrameCount segFrameCount
         segLastAudFramePackCount segHdrSize segDataSize segVidIndxSize segAudIndxSize
         segOldIndxSize segSize frameIndx vidIndx audIndx oldIndx [],
   mkSegExtra riffCb moviCb segDurFrameCount vidSuper audSuper).

(** [for (segi = 0; segi < fileSegCount; segi ++)]: the segments and what
    each adds, and the final [fileSize]. *)
Fixpoint segLoop (n : nat) (f : AvfsAvi2File) (noInterleave : bool)
    (maxSegFrameCount : Z) (segi fileSize segStartFrame : Z)
  : list (Seg * SegExtra) * Z :=
  match n with
  | O => ([], fileSize)
  | S n' =>
      let '(seg, extra) :=
        buildSeg f noInterleave maxSegFrameCount segi fileSize segStartFrame in
      let fileSize := wrap64 (fileSize + segSize seg) in
      let segStartFrame := wrap32 (segStartFrame + frameCount seg) in
      let '(rest, fileSize) :=
        segLoop n' f noInterleave maxSegFrameCount (segi + 1) fileSize segStartFrame in
      ((seg, extra) :: rest, fileSize)
  end.

Definition withHdr (seg : Seg) (buf : list Z) : Seg :=
  mkSeg (startOffset seg) (startFrame seg) (seg_vidFrameCount seg) (seg_audFrameCount seg)
        (frameCount seg) (lastAudFramePackCount seg) (hdrSize seg) (dataSize seg)
        (vidIndxSize seg) (audIndxSize seg) (oldIndxSize seg) (segSize seg)
        (frameIndx seg) (vidIndx seg) (audIndx seg) (oldIndx seg) buf.

Definition withLayout (f : AvfsAvi2File) (segCount size : Z) (ss : list Seg)
  : AvfsAvi2File :=
  mkFile (avs f) (frameVidFcc f) (frameAudHdrSize f) (frameVidDataSize f)
         (frameVidAlignSize f) (vidFrameCount f) (audFrameCount f) (fileFrameCount f)
         (durFrameCount f) (sampleSize f) (firstAudFramePackCount f) (fileSampleCount f)
         segCount size ss.

(** The first four bytes of [AVFS_AVI_VidFcc] as a tag, when it has them. *)
Definition fourccOf (s : string) : option Z :=
  match s with
  | String a (String b (String c (String d _))) => Some (MAKETAGUINT32 a b c d)
  | _ => None
  end.

Definition maxSegFrames (dataLstSize firstAudFramePackCount maxFrameAudDataSize
    frameVidDataSize frameVidAlignSize : Z) : Z :=
  wrap32 (wrap32 (dataLstSize - wrap32 (firstAudFramePackCount * maxFrameAudDataSize)
                  - indxPrePadSize - indxPostPadSize)
          / wrap64 (sizeof_RiffTag + maxFrameAudDataSize + sizeof_RiffTag
                    + frameVidDataSize + frameVidAlignSize
                    + sizeof_Avi2IndxEntry * 2 + sizeof_Avi2OldIndxEntry * 2)).

(** What the first part of [Init] ("Setup video attributes" and the audio
    attributes) leaves for the layout: the file object [a_file] with its
    counts and sizes, and the locals the segment headers use. *)
Record InitAttrs : Type := mkAttrs {
  a_file : AvfsAvi2File;
  a_noInterleave : bool;
  a_vidType : Z;
  a_vidCompress : Z;
  a_bitsPerPixel : Z;
  a_clippedSampleCount : Z;
  a_maxFrameAudDataSize : Z
}.

Definition initAttrs (vi : Synther) : Outcome InitAttrs :=
  (* Setup video attributes. *)
  let vidFrameCount := wrap32 (num_frames vi) in
  let frameVidDataSize := wrap32 (BMPSize vi) in
  let bitsPerPixel := wrap16 (BitsPerPixel vi) in
  let '(vidSuccess, vidType, vidCompress) :=
    if HasVideo vi then
      match GetFourCC vi with
      | Some t => match GetBiCompression vi with
                  | Some c => (true, t, c)
                  | None => (false, t, 0)
                  end
      | None => (false, 0, 0)
      end
    else (true, 0, 0) in
  let novideo :=
    (vidType =? 0) || (vidFrameCount =? 0) || (frameVidDataSize =? 0) || negb vidSuccess in
  let vidFrameCount := if novideo then 0 else vidFrameCount in
  let frameVidDataSize := if novideo then 0 else frameVidDataSize in
  let frameVidAlignSize :=
    if novideo then 0 else wrap32 (RiffAlignUp frameVidDataSize - frameVidDataSize) in
  let '(vidType, vidCompress) :=
    if novideo then (0, vidCompress)
    else match fourccOf (AVFS_AVI_VidFcc vi) with
         | Some t => (t, t)
         | None => (vidType, vidCompress)
         end in
  let frameVidFcc :=
    if vidType =? dibFcc then avfsAvi2VidRgbFcc else avfsAvi2VidCompFcc in
  let durFrameCount := vidFrameCount in
  let fileFrameCount := vidFrameCount in
  (* Audio attributes. *)
  let sampleType := if HasAudio vi then (if AudioIsFloat vi then 2 else 1) else 0 in
  let bytesPerOutputSample := Z.quot (BitsPerChannelSample vi + 7) 8 in
  let sampleSize := wrap32 (bytesPerOutputSample * AudioChannels vi) in
  let fileSampleCount := wrap32 (num_audio_samples vi) in
  let noaudio := (sampleType =? 0) || (sampleSize =? 0) || (fileSampleCount =? 0) in
  let sampleType := if noaudio then 0 else sampleType in
  let sampleSize := if noaudio then 0 else sampleSize in
  let fileSampleCount := if noaudio then 0 else fileSampleCount in
  let noInterleave := if noaudio then false else AVFS_AVI_NoInterleave vi in
  firstAudFramePackCount ←
    (if noaudio || noInterleave then Ret 0
     else udiv (wrap32 (fps_numerator vi + fps_denominator vi - 1))
               (wrap32 (wrap32 (fps_denominator vi) * 2)));
  let f0 := mkFile vi frameVidFcc (if noaudio then 0 else sizeof_RiffTag)
                   frameVidDataSize frameVidAlignSize vidFrameCount 0 fileFrameCount
                   durFrameCount sampleSize firstAudFramePackCount fileSampleCount
                   0 0 [] in
  let maxFrameAudDataSize :=
    if noaudio then 0
    else RiffAlignUp (wrap32 (wrap32 (AudioSamplesFromFrames vi 1 + 1) * sampleSize)) in
  let audFrameCount :=
    if noaudio then 0
    else
      let a := wrap32 (FramesFromAudioSamples vi
                         (wrap64 (fileSampleCount + AudioSamplesFromFrames vi 1 - 1))) in
      if a =? 0 then 1 else a in
  let durFrameCount :=
    if durFrameCount <? audFrameCount then audFrameCount else durFrameCount in
  let audFrameCount :=
    if noaudio || noInterleave then audFrameCount
    else dropSilentFrames (Z.to_nat audFrameCount) f0 audFrameCount in
  let fileFrameCount :=
    if audFrameCount >? fileFrameCount then audFrameCount else fileFrameCount in
  let clippedSampleCount :=
    if 4294967295 >? fileSampleCount then wrap32 fileSampleCount else 4294967295 in
  Ret (mkAttrs
         (mkFile vi frameVidFcc (frameAudHdrSize f0) frameVidDataSize frameVidAlignSize
                 vidFrameCount audFrameCount fileFrameCount durFrameCount sampleSize
                 firstAudFramePackCount fileSampleCount 0 0 [])
         noInterleave vidType vidCompress bitsPerPixel clippedSampleCount
         maxFrameAudDataSize).

(** "Create header and index structures for each segment in the file",
    with the segment count and [maxSegFrameCount] settled. *)
Definition initSegments (a : InitAttrs) (maxSegFrameCount fileSegCount : Z)
  : Outcome (bool * AvfsAvi2File) :=
  let f1 := a_file a in
  let vi := avs f1 in
  let fileSegCount :=
    if fileSegCount >? avfsAvi2MaxSuperIndxEntryCount
    then avfsAvi2MaxSuperIndxEntryCount else fileSegCount in
  let f2 := withLayout f1 fileSegCount 0 [] in
  let '(built, fileSize) :=
    segLoop (Z.to_nat fileSegCount) f2 (a_noInterleave a) maxSegFrameCount 0 0 0 in
  match built with
  | [] => Ret (true, withLayout f2 fileSegCount fileSize [])
  | (seg0, extra0) :: rest =>
      dwMicroSecPerFrame ←
        udiv (wrap64 (1000000 * wrap32 (fps_denominator vi)
                      + wrap32 (fps_numerator vi) / 2))
             (wrap32 (fps_numerator vi));
      duration ←
        udiv (wrap64 (durFrameCount f1 * wrap32 (fps_denominator vi)
                      + wrap32 (fps_numerator vi) / 2))
             (wrap32 (fps_numerator vi));
      let duration := duration + (if duration =? 0 then 1 else 0) in
      let dwMaxBytesPerSec := wrap32 (fileSize / duration) in
      let audSuggested :=
        wrap32 (wrap32 (fst (LocateFrameSamples f2 1 1) + 1) * sampleSize f1) in
      let hdr0 :=
        Seg0_hdr_bytes f2 (a_vidType a) (a_vidCompress a) (a_bitsPerPixel a)
          (a_clippedSampleCount a) audSuggested (wrap32 dwMicroSecPerFrame)
          dwMaxBytesPerSec (segDurFrameCount extra0) (riffCb extra0) (moviCb extra0)
          (map (fun x => vidSuper (snd x)) built)
          (omap (fun x => audSuper (snd x)) built) in
      let ss :=
        withHdr seg0 hdr0
        :: map (fun x => withHdr (fst x) (SegN_hdr_bytes (riffCb (snd x)) (moviCb (snd x))))
               rest in
      Ret (true, withLayout f2 fileSegCount fileSize ss)
  end.

(** The rest of [Init]: "Calculate max number of frames that can go in a
    segment", the segment count, and the segments. *)
Definition initLayout (a : InitAttrs) : Outcome (bool * AvfsAvi2File) :=
  let f1 := a_file a in
  let vi := avs f1 in
  if vidFrameCount f1 =? 0 then Ret (false, f1)
  else
    let maxSegFrameCount :=
      maxSegFrames avfsAvi2Max4GbDataLstSize (firstAudFramePackCount f1)
                   (a_maxFrameAudDataSize a) (frameVidDataSize f1) (frameVidAlignSize f1) in
    fileSegCount ←
      udiv (wrap32 (fileFrameCount f1 + maxSegFrameCount - 1)) maxSegFrameCount;
    '(maxSegFrameCount, fileSegCount) ←
      (if AVFS_AVI_SmallSegments vi then
         let m := maxSegFrames avfsAvi2MaxDataLstSize (firstAudFramePackCount f1)
                               (a_maxFrameAudDataSize a) (frameVidDataSize f1)
                               (frameVidAlignSize f1) in
         c ← udiv (wrap32 (fileFrameCount f1 + m - 1)) m; Ret (m, c)
       else Ret (maxSegFrameCount, fileSegCount));
    initSegments a maxSegFrameCount fileSegCount.

(** [Init]: the success flag and the file object. *)
Definition Init (vi : Synther) : Outcome (bool * AvfsAvi2File) :=
  a ← initAttrs vi; initLayout a.

(** *** [ReadMedia] *)

(** The state of a read: the bytes written to the caller's buffer so far
    ([buffer] in the source points just behind them), the sizes still to
    serve and to skip, and the success flag. *)
Record ReadState : Set := mkRead {
  buffer : list Z;
  remainingSize : Z;
  offset : Z;
  success : bool
}.

(** Once a source call has failed [ReadMedia] returns [false] and the
    content of the buffer has no meaning; the model marks the bytes of a
    call that was not made. *)
Definition unspecified : Z := -1.

(** Exactly [n] bytes of what a source call left. *)
Definition fit (n : Z) (l : list Z) : list Z :=
  take (Z.to_nat n) (l ++ replicate (Z.to_nat n) unspecified).

(** [success = success && call]: the call is made only while [success]
    holds. *)
Definition andCall (ok : bool) (call : bool * list Z) : bool * list Z :=
  if ok then call else (false, []).

Definition slice (off n : Z) (l : list Z) : list Z :=
  take (Z.to_nat n) (drop (Z.to_nat off) l).

(** The paragraph the source repeats for each precomputed run of bytes
    (segment header, RIFF tags, the three indexes):
<<
    if (offset >= size) { offset -= size; }
    else {
      if (remainingSize) {
        size_t partSize = size-offset;
        if (partSize > remainingSize) partSize = remainingSize;
        memcpy(buffer, blob+offset, partSize);
        buffer += partSize; remainingSize -= partSize;
      }
      offset = 0;
    }
>> *)
Definition copyBlob (blob : list Z) (size : Z) (st : ReadState) : ReadState :=
  if offset st >=? size
  then mkRead (buffer st) (remainingSize st) (offset st - size) (success st)
  else
    if negb (remainingSize st =? 0) then
      let partSize := size - offset st in
      let partSize := if partSize >? remainingSize st then remainingSize st else partSize in
      mkRead (buffer st ++ slice (offset st) partSize blob)
             (remainingSize st - partSize) 0 (success st)
    else mkRead (buffer st) (remainingSize st) 0 (success st).

(** "Copy any needed frame audio data" has three steps.  The first,
    "Deal with ragged front" (the read starts inside a sample):
<<
    if (remainingSize && extraOffset) {
      partSize = sampleSize-extraOffset;
      if (partSize > remainingSize) partSize = remainingSize;
      success = success && avs->GetAudio(log, sampleScratch, offset/sampleSize, 1);
      memcpy(buffer, sampleScratch+extraOffset, partSize);
      buffer += partSize; remainingSize -= partSize; offset += partSize;
    }
>>
    The sample fetched is [offset/sampleSize], without the chunk's
    [startSample]. *)
Definition audioFront (f : AvfsAvi2File) (st : ReadState) : ReadState :=
  let ss := sampleSize f in
  let extraOffset := wrap32 (offset st mod ss) in
  if negb (remainingSize st =? 0) && negb (extraOffset =? 0) then
    let partSize := ss - extraOffset in
    let partSize := if partSize >? remainingSize st then remainingSize st else partSize in
    let '(ok, sampleScratch) :=
      andCall (success st) (GetAudio (avs f) (offset st / ss) 1) in
    mkRead (buffer st ++ fit partSize (drop (Z.to_nat extraOffset) sampleScratch))
           (remainingSize st - partSize) (offset st + partSize) ok
  else st.

(** "Do sample aligned bulk of transfer". *)
Definition audioBulk (f : AvfsAvi2File) (startSample audDataSize : Z) (st : ReadState)
  : ReadState :=
  let ss := sampleSize f in
  if (offset st <? audDataSize) && (remainingSize st >=? ss) then
    let partSize := audDataSize - offset st in
    let partSize :=
      if partSize >? remainingSize st
      then remainingSize st - remainingSize st mod ss else partSize in
    let '(ok, bytes) :=
      andCall (success st)
              (GetAudio (avs f) (startSample + offset st / ss) (sint32 (partSize / ss))) in
    mkRead (buffer st ++ fit partSize bytes)
           (remainingSize st - partSize) (offset st + partSize) ok
  else st.

(** "Deal with ragged tail". *)
Definition audioTail (f : AvfsAvi2File) (startSample audDataSize : Z) (st : ReadState)
  : ReadState :=
  let ss := sampleSize f in
  if (offset st <? audDataSize) && negb (remainingSize st =? 0) then
    let '(ok, sampleScratch) :=
      andCall (success st) (GetAudio (avs f) (startSample + offset st / ss) 1) in
    mkRead (buffer st ++ fit (remainingSize st) sampleScratch) 0 (offset st) ok
  else st.

Definition copyAudio (f : AvfsAvi2File) (startSample audDataSize : Z) (st : ReadState)
  : ReadState :=
  if offset st >=? audDataSize
  then mkRead (buffer st) (remainingSize st) (offset st - audDataSize) (success st)
  else
    let st := audioFront f st in
    let st := audioBulk f startSample audDataSize st in
    let st := audioTail f startSample audDataSize st in
    mkRead (buffer st) (remainingSize st) 0 (success st).

(** "Pad audio data / video data up to riff alignment".  The [memset]
    and the advance of [buffer] use [remainingSize], as in the source. *)
Definition copyPad (alignSize : Z) (st : ReadState) : ReadState :=
  if offset st >=? alignSize
  then mkRead (buffer st) (remainingSize st) (offset st - alignSize) (success st)
  else
    if negb (remainingSize st =? 0)
    then mkRead (buffer st ++ zeros (remainingSize st)) 0 0 (success st)
    else mkRead (buffer st) (remainingSize st) 0 (success st).

(** "Copy needed portion of frame video data". *)
Definition copyVideo (f : AvfsAvi2File) (n : Z) (st : ReadState) : ReadState :=
  if offset st >=? frameVidDataSize f
  then mkRead (buffer st) (remainingSize st) (offset st - frameVidDataSize f) (success st)
  else
    if negb (remainingSize st =? 0) then
      let partSize := frameVidDataSize f - offset st in
      let partSize := if partSize >? remainingSize st then remainingSize st else partSize in
      let '(ok, bytes) :=
        andCall (success st) (GetFrameData (avs f) n (offset st) partSize) in
      mkRead (buffer st ++ fit partSize bytes) (remainingSize st - partSize) 0 ok
    else mkRead (buffer st) (remainingSize st) 0 (success st).

(** "Copy any needed portion of pre-index pad" and of the post-index pad:
    a JUNK tag and zeros. *)
Definition copyIndexPad (padSize : Z) (st : ReadState) : ReadState :=
  if offset st >=? padSize
  then mkRead (buffer st) (remainingSize st) (offset st - padSize) (success st)
  else
    let st := copyBlob (RiffTag_bytes riffJunkFcc (padSize - sizeof_RiffTag))
                       sizeof_RiffTag st in
    if negb (remainingSize st =? 0) then
      let partSize := padSize - sizeof_RiffTag - offset st in
      let partSize := if partSize >? remainingSize st then remainingSize st else partSize in
      mkRead (buffer st ++ zeros partSize) (remainingSize st - partSize) 0 (success st)
    else mkRead (buffer st) (remainingSize st) 0 (success st).

(** The two loops of the binary searches:
<<
    b = 1; while (b < n) b <<= 1;
    i = 0; while ((b >>= 1) != 0) { i |= b; if (i >= n || key[i] > x) i &= ~b; }
>>
    [b] is an [unsigned]: for [n > 2^31] it becomes 0 and the first loop
    never ends, which is when [growBit] has no result. *)
Fixpoint growBit (fuel : nat) (b n : Z) : option Z :=
  match fuel with
  | O => None
  | S fuel' => if b <? n then growBit fuel' (wrap32 (Z.shiftl b 1)) n else Some b
  end.

Fixpoint searchBits (fuel : nat) (b i n : Z) (key : Z -> Z) (x : Z) : Z :=
  match fuel with
  | O => i
  | S fuel' =>
      let b := Z.shiftr b 1 in
      if b =? 0 then i
      else
        let i := Z.lor i b in
        let i := if (i >=? n) || (key i >? x) then Z.land i (wrap32 (Z.lnot b)) else i in
        searchBits fuel' b i n key x
  end.

Definition binarySearch (n : Z) (key : Z -> Z) (x : Z) : option Z :=
  b ← growBit 34 1 n; Some (searchBits 33 b 0 n key x).

(** [seg->frameIndx[i]] and [segs[i]->startOffset]; [Init] allocates
    [frameCount] and [fileSegCount] of them. *)
Definition frameIndxAt (seg : Seg) (i : Z) : Z := default 0 (frameIndx seg !! Z.to_nat i).
Definition startOffsetAt (f : AvfsAvi2File) (i : Z) : Z :=
  default 0 (startOffset <$> segs f !! Z.to_nat i).

(** [if (segFrame < seg->audFrameCount) { ... }]: the audio chunk of
    segment frame [segFrame], its tag, samples and padding. *)
Definition copyAudioChunk (f : AvfsAvi2File) (seg : Seg) (segFrame : Z) (st : ReadState)
  : ReadState :=
  if segFrame <? seg_audFrameCount seg then
    let '(startSample, sampleCount) :=
      LocateFrameSamples f (wrap32 (startFrame seg + segFrame))
        (if segFrame + 1 =? seg_audFrameCount seg
         then wrap32 (lastAudFramePackCount seg + 1) else 1) in
    let audDataSize := wrap32 (sampleCount * sampleSize f) in
    let audAlignSize := wrap32 (RiffAlignUp audDataSize - audDataSize) in
    let st := copyBlob (RiffTag_bytes avfsAvi2AudFcc audDataSize) sizeof_RiffTag st in
    let st := copyAudio f startSample audDataSize st in
    copyPad audAlignSize st
  else st.

(** [if (segFrame < seg->vidFrameCount) { ... }]: the video chunk. *)
Definition copyVideoChunk (f : AvfsAvi2File) (seg : Seg) (segFrame : Z) (st : ReadState)
  : ReadState :=
  if segFrame <? seg_vidFrameCount seg then
    let st := copyBlob (RiffTag_bytes (frameVidFcc f) (frameVidDataSize f))
                       sizeof_RiffTag st in
    let st := copyVideo f (wrap32 (startFrame seg + segFrame)) st in
    copyPad (frameVidAlignSize f) st
  else st.

Definition copyFrame (f : AvfsAvi2File) (seg : Seg) (segFrame : Z) (st : ReadState)
  : ReadState :=
  copyVideoChunk f seg segFrame (copyAudioChunk f seg segFrame st).

(** [while (remainingSize && segFrame < seg->frameCount) { ...; segFrame ++; }]
    with [n] bounding the frames left. *)
Fixpoint frameWalk (n : nat) (f : AvfsAvi2File) (seg : Seg) (segFrame : Z)
    (st : ReadState) : ReadState :=
  match n with
  | O => st
  | S n' =>
      if negb (remainingSize st =? 0) && (segFrame <? frameCount seg)
      then frameWalk n' f seg (segFrame + 1) (copyFrame f seg segFrame st)
      else st
  end.

(** One pass of "For each segment containing needed data", up to the
    post-index pad. *)
Definition readSeg (f : AvfsAvi2File) (seg : Seg) (st : ReadState) : Outcome ReadState :=
  (* Copy any needed segment header. *)
  let st := copyBlob (hdr_buf seg) (hdrSize seg) st in
  (* Binary search for frame containing start of needed data. *)
  found ←
    (if offset st >=? dataSize seg
     then Ret (UINT_MAX,
               mkRead (buffer st) (remainingSize st) (offset st - dataSize seg) (success st))
     else
       match binarySearch (frameCount seg) (frameIndxAt seg) (offset st) with
       | Some segFrame =>
           Ret (segFrame,
                mkRead (buffer st) (remainingSize st)
                       (offset st - frameIndxAt seg segFrame) (success st))
       | None => Undefined
       end);
  let '(segFrame, st) := found in
  let st := frameWalk (Z.to_nat (frameCount seg - segFrame)) f seg segFrame st in
  let st := copyIndexPad indxPrePadSize st in
  let st := copyBlob (vidIndx_bytes seg) (vidIndxSize seg) st in
  let st := copyBlob (audIndx_bytes seg) (audIndxSize seg) st in
  let st := copyBlob (oldIndx_bytes seg) (oldIndxSize seg) st in
  Ret (copyIndexPad indxPostPadSize st).

(** [while (success && remainingSize) { seg = segs[segi]; ...; segi++;
    offset = 0; }] over the segments from [segi] on. *)
Fixpoint readSegs (ss : list Seg) (f : AvfsAvi2File) (st : ReadState)
  : Outcome ReadState :=
  match ss with
  | [] => if success st && negb (remainingSize st =? 0) then Undefined else Ret st
  | seg :: ss' =>
      if success st && negb (remainingSize st =? 0) then
        st ← readSeg f seg st;
        readSegs ss' f (mkRead (buffer st) (remainingSize st) 0 (success st))
      else Ret st
  end.

(** [ReadMedia(log, inFileOffset, inBuffer, inRequestedSize)]: the value
    returned and the bytes left in [inBuffer]. *)
Definition ReadMedia (f : AvfsAvi2File) (inFileOffset inRequestedSize : Z)
  : Outcome (bool * list Z) :=
  match binarySearch (fileSegCount f) (startOffsetAt f) inFileOffset with
  | Some segi =>
      let offset := wrap32 (inFileOffset - startOffsetAt f segi) in
      st ← readSegs (drop (Z.to_nat segi) (segs f)) f (mkRead [] inRequestedSize offset true);
      Ret (success st, buffer st)
  | None => Undefined
  end.
End Avi.

(** ** The reference image of the file

    The byte layout as the specification words it: per segment the header
    bytes, the movi payload (per frame the audio tag, the audio samples and
    their padding, the video tag, the video data and its padding), the
    pre-index pad, the video, audio and legacy indexes, the post-index
    pad; the file is the segments end to end. *)

Module AviSpec.
Import Avi.

(** The kinds of byte runs: precomputed or fetched whole ([Static]), the
    samples of an audio chunk that starts at [startSample], and the
    padding after a chunk. *)
Inductive RegionKind : Set :=
| Static
| AudioData (startSample : Z)
| Pad.

Record Region : Set := mkRegion { kind : RegionKind; bytes : list Z }.

Definition len (l : list Z) : Z := Z.of_nat (length l).
Definition len_nat {A} (l : list A) : Z := Z.of_nat (length l).

(** Start sample and sample count of the audio chunk of segment frame [k]. *)
Definition audLocate (f : AvfsAvi2File) (seg : Seg) (k : Z) : Z * Z :=
  LocateFrameSamples f (wrap32 (startFrame seg + k))
    (if k + 1 =? seg_audFrameCount seg then wrap32 (lastAudFramePackCount seg + 1) else 1).

Definition audioRegions (f : AvfsAvi2File) (seg : Seg) (k : Z) : list Region :=
  let '(startSample, sampleCount) := audLocate f seg k in
  let size := sampleCount * sampleSize f in
  [mkRegion Static (RiffTag_bytes avfsAvi2AudFcc size);
   mkRegion (AudioData startSample) (snd (GetAudio (avs f) startSample sampleCount));
   mkRegion Pad (zeros (size mod 2))].

Definition videoRegions (f : AvfsAvi2File) (seg : Seg) (k : Z) : list Region :=
  [mkRegion Static (RiffTag_bytes (frameVidFcc f) (frameVidDataSize f));
   mkRegion Static
     (snd (GetFrameData (avs f) (wrap32 (startFrame seg + k)) 0 (frameVidDataSize f)));
   mkRegion Pad (zeros (frameVidDataSize f mod 2))].

Definition frameRegions (f : AvfsAvi2File) (seg : Seg) (k : Z) : list Region :=
  (if k <? seg_audFrameCount seg then audioRegions f seg k else [])
  ++ (if k <? seg_vidFrameCount seg then videoRegions f seg k else []).

Definition junkRegion (padSize : Z) : Region :=
  mkRegion Static (RiffTag_bytes riffJunkFcc (padSize - 8) ++ zeros (padSize - 8)).

Definition segRegions (f : AvfsAvi2File) (seg : Seg) : list Region :=
  [mkRegion Static (hdr_buf seg)]
  ++ flat_map (frameRegions f seg) (seqZ 0 (frameCount seg))
  ++ [junkRegion indxPrePadSize;
      mkRegion Static (vidIndx_bytes seg);
      mkRegion Static (audIndx_bytes seg);
      mkRegion Static (oldIndx_bytes seg);
      junkRegion indxPostPadSize].

Definition fileRegions (f : AvfsAvi2File) : list Region :=
  flat_map (segRegions f) (segs f).

Definition image (rs : list Region) : list Z := flat_map bytes rs.

(** The reference image of one segment and of the whole file. *)
Definition segImage (f : AvfsAvi2File) (seg : Seg) : list Z := image (segRegions f seg).
Definition fileImage (f : AvfsAvi2File) : list Z := image (fileRegions f).

(** *** Sizes in exact arithmetic *)

Definition audChunkSize (f : AvfsAvi2File) (seg : Seg) (k : Z) : Z :=
  snd (audLocate f seg k) * sampleSize f.

(** Tag, data and padding of the audio and of the video chunk of segment
    frame [k]. *)
Definition audPart (f : AvfsAvi2File) (seg : Seg) (k : Z) : Z :=
  if k <? seg_audFrameCount seg
  then 8 + audChunkSize f seg k + audChunkSize f seg k mod 2 else 0.

Definition vidPart (f : AvfsAvi2File) (seg : Seg) (k : Z) : Z :=
  if k <? seg_vidFrameCount seg
  then 8 + frameVidDataSize f + frameVidDataSize f mod 2 else 0.

Definition frameSize (f : AvfsAvi2File) (seg : Seg) (k : Z) : Z :=
  audPart f seg k + vidPart f seg k.

Definition sumZ (l : list Z) : Z := fold_right Z.add 0 l.

(** Where segment frame [k] starts in the movi payload, and the payload's
    size. *)
Definition moviOffset (f : AvfsAvi2File) (seg : Seg) (k : Z) : Z :=
  sumZ (frameSize f seg <$> seqZ 0 k).

Definition moviSize (f : AvfsAvi2File) (seg : Seg) : Z :=
  moviOffset f seg (frameCount seg).

(** The file offset of the first byte of the payload of the video chunk
    of segment frame [k]: behind the segment's header, the frames before
    [k], the audio chunk of [k] and the video chunk's tag. *)
Definition videoPayloadOffset (f : AvfsAvi2File) (seg : Seg) (k : Z) : Z :=
  startOffset seg + hdrSize seg + moviOffset f seg k + audPart f seg k + 8.

(** The size of a segment's layout: header, movi payload, the two pads
    and the three indexes. *)
Definition segLayoutSize (f : AvfsAvi2File) (seg : Seg) : Z :=
  hdrSize seg + moviSize f seg + indxPrePadSize
  + len (vidIndx_bytes seg) + len (audIndx_bytes seg) + len (oldIndx_bytes seg)
  + indxPostPadSize.

(** The conditions [Init] asserts or takes for granted of a file it has
    laid out: every segment's layout fits the 4 GB segment size
    ([ASSERT(segSize <= avi2Max4GbSegSize)]), a chunk's sample count fits
    the [int] that [GetAudio] takes, and the file size fits 64 bits. *)
Definition segFits (f : AvfsAvi2File) (seg : Seg) : bool :=
  (segLayoutSize f seg <=? avi2Max4GbSegSize)
  && forallb (fun k => snd (audLocate f seg k) <? 2 ^ 31)
             (seqZ 0 (seg_audFrameCount seg)).

Definition fits (f : AvfsAvi2File) : bool :=
  forallb (segFits f) (segs f) && (sumZ (segLayoutSize f <$> segs f) <? 2 ^ 64).

(** *** The reads [ReadMedia] serves from the image

    A read of [rem] bytes that starts [off] bytes before or into a
    sequence of regions passes a region when it lies behind it or is
    over, when the region is static, when it enters the samples of an
    audio chunk on a sample boundary or the chunk starts at sample 0, and
    when it ends with the padding it enters. *)
Definition regionOk (sampleSize : Z) (r : Region) (off rem : Z) : bool :=
  match kind r with
  | Static => true
  | AudioData startSample =>
      (len (bytes r) <=? off) || (rem =? 0) || (off mod sampleSize =? 0)
      || (startSample =? 0)
  | Pad => (len (bytes r) <=? off) || (rem <=? len (bytes r) - off)
  end.

Fixpoint readOk (sampleSize : Z) (rs : list Region) (off rem : Z) : bool :=
  match rs with
  | [] => true
  | r :: rs' =>
      regionOk sampleSize r off rem
      && readOk sampleSize rs' (Z.max 0 (off - len (bytes r)))
                (rem - Z.min rem (Z.max 0 (len (bytes r) - off)))
  end.

(** The sources behave: they succeed, an audio fetch is the samples it
    names, each [sampleSize] bytes, and a video fetch is the named part
    of the frame's [frameVidDataSize] bytes. *)
Record SourcesOk (f : AvfsAvi2File) (sample frame : Z -> list Z) : Prop := {
  sample_size : forall i, len (sample i) = sampleSize f;
  frame_size : forall n, len (frame n) = frameVidDataSize f;
  audio_ok : forall start count,
    GetAudio (avs f) start count = (true, flat_map sample (seqZ start count));
  video_ok : forall n off size,
    GetFrameData (avs f) n off size = (true, slice off size (frame n))
}.

(** What a paragraph of [ReadMedia] has to do with the run of bytes [R]
    it is in charge of: append the part the read asks of it, account for
    it, and leave in [offset] what is still to skip. *)
Definition served (R : list Z) (st : ReadState) : ReadState :=
  let part := slice (offset st) (remainingSize st) R in
  mkRead (buffer st ++ part) (remainingSize st - len part)
         (Z.max 0 (offset st - len R)) (success st).

(** What holds of the state between two paragraphs. *)
Definition readInv (st : ReadState) : Prop :=
  0 <= offset st /\ 0 <= remainingSize st
  /\ (remainingSize st = 0 -> offset st = 0) /\ success st = true.

(** *** What [Init] establishes and [ReadMedia] relies on *)

(** What a floor search leaves: an index below [n] whose key is at most
    [x]. *)
Definition below (n : Z) (key : Z -> Z) (x j : Z) : Prop :=
  0 <= j < n /\ key j <= x.

(** The audio chunk of frame [k]: samples of a size, a count that fits
    the [int] of [GetAudio], and a chunk below 4 GB. *)
Definition AudioChunkOk (f : AvfsAvi2File) (seg : Seg) (k : Z) : Prop :=
  0 < sampleSize f < 2 ^ 32
  /\ 0 <= snd (audLocate f seg k) < 2 ^ 31
  /\ audChunkSize f seg k <= 2 ^ 32 - 2.

(** What [ReadMedia] relies on of a segment. *)
Record SegOk (f : AvfsAvi2File) (seg : Seg) : Prop := {
  seg_hdr : hdrSize seg = len (hdr_buf seg);
  seg_frames : 0 <= frameCount seg <= 2 ^ 31;
  seg_audio : forall k, 0 <= k < seg_audFrameCount seg -> AudioChunkOk f seg k;
  seg_indx : forall k, 0 <= k < frameCount seg ->
    frameIndxAt seg k = moviOffset f seg k;
  seg_data : dataSize seg = moviSize f seg;
  seg_vidIndx : vidIndxSize seg = len (vidIndx_bytes seg);
  seg_audIndx : audIndxSize seg = len (audIndx_bytes seg);
  seg_oldIndx : oldIndxSize seg = len (oldIndx_bytes seg)
}.

(** What [ReadMedia] relies on of the file. *)
Record FileOk (f : AvfsAvi2File) : Prop := {
  file_vid : 0 <= frameVidDataSize f;
  file_align : frameVidAlignSize f = frameVidDataSize f mod 2;
  file_segs : Forall (SegOk f) (segs f);
  file_count : fileSegCount f = Z.of_nat (length (segs f));
  file_count_bounds : 1 <= fileSegCount f <= 2 ^ 31;
  file_start : forall i seg, segs f !! i = Some seg ->
    startOffset seg = len (image (flat_map (segRegions f) (take i (segs f))));
  file_seg_size : forall seg, seg ∈ segs f -> len (segImage f seg) < 2 ^ 32
}.

(** The entries the frame loop of [Init] writes for segment frame [j],
    in exact arithmetic; [hs] is the size of the segment's header. *)
Definition audEntry (f : AvfsAvi2File) (seg : Seg) (hs j : Z) : list Avi2IndxEntry :=
  if j <? seg_audFrameCount seg
  then [mkIndxEntry (hs + moviOffset f seg j + 8) (audChunkSize f seg j)] else [].

Definition vidEntry (f : AvfsAvi2File) (seg : Seg) (hs j : Z) : list Avi2IndxEntry :=
  if j <? seg_vidFrameCount seg
  then [mkIndxEntry (hs + moviOffset f seg j + audPart f seg j + 8) (frameVidDataSize f)]
  else [].

Definition oldEntry (f : AvfsAvi2File) (seg : Seg) (old : bool) (hs j : Z)
  : list Avi2OldIndxEntry :=
  (if (j <? seg_audFrameCount seg) && old
   then [mkOldIndxEntry avfsAvi2AudFcc AVIIF_KEYFRAME (hs + moviOffset f seg j)
                        (audChunkSize f seg j)]
   else [])
  ++ (if (j <? seg_vidFrameCount seg) && old
      then [mkOldIndxEntry (frameVidFcc f) AVIIF_KEYFRAME
                           (hs + moviOffset f seg j + audPart f seg j)
                           (frameVidDataSize f)]
      else []).

(** What [buildSeg] establishes of a segment, its header bytes apart. *)
Record SegCore (f : AvfsAvi2File) (S : Seg) : Prop := {
  core_frames : 0 <= frameCount S <= 2 ^ 30;
  core_vid : 0 <= seg_vidFrameCount S <= frameCount S;
  core_aud : 0 <= seg_audFrameCount S <= frameCount S;
  core_audio : forall k, 0 <= k < seg_audFrameCount S -> AudioChunkOk f S k;
  core_indx : forall k, 0 <= k < frameCount S -> frameIndxAt S k = moviOffset f S k;
  core_data : dataSize S = moviSize f S;
  core_vidIndx : vidIndxSize S = len (vidIndx_bytes S);
  core_audIndx : audIndxSize S = len (audIndx_bytes S);
  core_oldIndx : oldIndxSize S = len (oldIndx_bytes S);
  core_size : segSize S = segLayoutSize f S;
  core_hdrSize : 0 <= hdrSize S;
  core_base :
    qwBaseOffsetLow (hdr (vidIndx S)) + 2 ^ 32 * qwBaseOffsetHigh (hdr (vidIndx S))
    = startOffset S;
  core_ents : forall k, 0 <= k < seg_vidFrameCount S ->
    ents (vidIndx S) !! Z.to_nat k
    = Some (mkIndxEntry (hdrSize S + moviOffset f S k + audPart f S k + 8)
                        (frameVidDataSize f))
}.

(** The sum of the layout sizes of the entries of the segment loop. *)
Definition layoutSum (f : AvfsAvi2File) (built : list (Seg * SegExtra)) : Z :=
  sumZ ((fun x => segLayoutSize f (fst x)) <$> built).

(** A segment of the file with the entry of the segment loop it was
    made from. *)
Definition fromBuilt (x : Seg * SegExtra) (s : Seg) : Prop :=
  exists h, s = withHdr (fst x) h /\ hdrSize (fst x) = len h.

End AviSpec.

(** ** A clip to read

    A clip of [frames] frames at 1 frame per second, each [bmp] bytes of
    DIB video, with four 16-bit stereo samples of audio to the frame.
    Sample [i] is the four bytes [4i .. 4i+3]; every byte of frame [n] is
    [n + 10]. *)

Module AviScenarios.
Import Avi AviSpec.

Definition sampleOf (i : Z) : list Z :=
  [(4 * i) mod 256; (4 * i + 1) mod 256; (4 * i + 2) mod 256; (4 * i + 3) mod 256].

Definition frameOf (bmp n : Z) : list Z := replicate (Z.to_nat bmp) ((n + 10) mod 256).

Definition clip (frames bmp : Z) : Synther :=
  mkSynther frames 2 2 1 1 true bmp 24 (Some dibFcc) (Some 0)
            true false 16 2 (4 * frames) 4
            (fun n => 4 * n) (fun s => s / 4)
            [] EmptyString false false
            (fun start count => (true, flat_map sampleOf (seqZ start count)))
            (fun n off size => (true, slice off size (frameOf bmp n))).

Definition succeeded (o : Outcome (bool * AvfsAvi2File)) : bool :=
  match o with Ret (true, _) => true | _ => false end.

Definition noFile (vi : Synther) : AvfsAvi2File :=
  mkFile vi 0 0 0 0 0 0 0 0 0 0 0 0 0 [].

(** The file object [Init] leaves. *)
Definition fileOf (vi : Synther) : AvfsAvi2File :=
  match Init vi with Ret (_, f) => f | _ => noFile vi end.

Definition noSeg : Seg :=
  mkSeg 0 0 0 0 0 0 0 0 0 0 0 0 [] (mkIndx (mkIndxHdr 0 0 0 0 0 0 0 0 0) []) None None [].

(** Three frames of 24 bytes: a file of one segment, [smallSeg]. *)
Definition smallFile : AvfsAvi2File := fileOf (clip 3 24).
Definition smallSeg : Seg := hd noSeg (segs smallFile).

(** Three frames of 25 bytes: every video chunk has a padding byte. *)
Definition oddFile : AvfsAvi2File := fileOf (clip 3 25).

(** Two frames of 2 GB: a file of two segments. *)
Definition bigFile : AvfsAvi2File := fileOf (clip 2 (2 ^ 31)).

End AviScenarios.


(* ===================================================================== *)
(** * Theorems *)
(* ===================================================================== *)

(** ** Key validation against the regular expression *)

Section KeyRegex.
Import Regex VSApi.

Lemma deriv_alpha_underscore c :
  deriv c alpha_underscore = if isAlphaUnderscore c then Eps else Empty.
Proof. destruct c as [[] [] [] [] [] [] [] []]; reflexivity. Qed.

Lemma deriv_alnum_underscore c :
  deriv c alnum_underscore = if isAlphaNumUnderscore c then Eps else Empty.
Proof. destruct c as [[] [] [] [] [] [] [] []]; reflexivity. Qed.

Lemma regex_match_Empty s : regex_match Empty s = false.
Proof. induction s; simpl; auto. Qed.

Lemma regex_match_star_alnum s :
  regex_match (Star alnum_underscore) s = isValidVSMapKey_rest s.
Proof.
  induction s as [|c s IH]; [reflexivity|].
  cbn [regex_match isValidVSMapKey_rest deriv].
  rewrite deriv_alnum_underscore.
  destruct (isAlphaNumUnderscore c); cbn; [exact IH | apply regex_match_Empty].
Qed.

(** [isValidVSMapKey] decides membership in [[A-Za-z_][A-Za-z0-9_]*]. *)
Lemma isValidVSMapKey_regex s :
  isValidVSMapKey (Some s) = regex_match key_regex s.
Proof.
  destruct s as [|c s]; [reflexivity|].
  unfold key_regex. cbn [regex_match isValidVSMapKey deriv].
  rewrite deriv_alpha_underscore.
  destruct (isAlphaUnderscore c); cbn.
  - symmetry. apply regex_match_star_alnum.
  - symmetry. apply regex_match_Empty.
Qed.

End KeyRegex.

(** ** The property map *)

Section PropertyMap.
Import VSApi.

Lemma propGetShared_error_map st msg key index propType :
  propGetShared (mkMap st (Some msg)) key index true propType = Ret (None, Some peError).
Proof. reflexivity. Qed.

(** C9.  On a map whose error string is set, every type-tagged getter
    called with a non-null error out-parameter returns normally with the
    map-has-error code [peError] (which is none of the unset, wrong-type
    and index codes) and its type's null or zero value, whatever the key
    and the index. *)
Theorem getters_on_error_map (st : gmap string VSArrayBase) (msg key : string) (index : Z) :
  let map := mkMap st (Some msg) in
  hasError map = true /\
  propGetInt map key index true = Ret (0, Some peError) /\
  propGetSaturatedInt map key index true = Ret (0, Some peError) /\
  propGetFloat map key index true = Ret (mkDouble 0, Some peError) /\
  propGetData map key index true = Ret (None, Some peError) /\
  propGetNode map key index true = Ret (None, Some peError) /\
  propGetFrame map key index true = Ret (None, Some peError) /\
  propGetFunc map key index true = Ret (None, Some peError) /\
  propGetIntArray map key true = Ret (None, Some peError) /\
  propGetFloatArray map key true = Ret (None, Some peError) /\
  peError <> peUnset /\ peError <> peType /\ peError <> peIndex /\ peError <> peSuccess.
Proof. cbv zeta. repeat split; try reflexivity; discriminate. Qed.

(** [setError] makes a map error-bearing. *)
Lemma setError_hasError map msg : hasError (setError map msg) = true.
Proof. reflexivity. Qed.

Lemma not_Ret_false {m : VSMap} : not_ (Ret (false, m)) = Ret (1, m).
Proof. reflexivity. Qed.

Lemma propSetShared_invalid_key {T} (K : ArrayKind T) map key (val : T) append :
  isValidVSMapKey (Some key) = false ->
  append = paReplace \/ append = paAppend ->
  propSetShared K map key val append = Ret (false, map).
Proof.
  intros Hk [-> | ->]; unfold propSetShared; rewrite Hk; reflexivity.
Qed.

(** C8.  A key that does not match [[A-Za-z_][A-Za-z0-9_]*] (the empty
    string included) is rejected by every setter, in replace and in append
    mode and by the two bulk setters: the call returns the failure result
    and the map is unchanged. *)
Theorem setters_reject_invalid_key (s : string) (map : VSMap) (append : VSPropAppendMode) :
  Regex.regex_match Regex.key_regex s = false ->
  append = paReplace \/ append = paAppend ->
  (forall i, propSetInt map s i append = Ret (1, map)) /\
  (forall d, propSetFloat map s d append = Ret (1, map)) /\
  (forall d t, propSetData map s d t append = Ret (1, map)) /\
  (forall n, propSetNode map s n append = Ret (1, map)) /\
  (forall f, propSetFrame map s f append = Ret (1, map)) /\
  (forall f, propSetFunc map s f append = Ret (1, map)) /\
  (forall l, propSetIntArray map s l = (1, map)) /\
  (forall l, propSetFloatArray map s l = (1, map)).
Proof.
  intros Hre Happ. rewrite <- isValidVSMapKey_regex in Hre.
  repeat split; intros;
    unfold propSetInt, propSetFloat, propSetData, propSetNode, propSetFrame,
           propSetFunc, propSetIntArray, propSetFloatArray;
    repeat match goal with
           | |- context [match ?x with None => _ | Some _ => _ end] => destruct x
           | |- context [bool_decide ?P] => destruct (bool_decide P)
           end;
    rewrite ?propSetShared_invalid_key, ?Hre by assumption; reflexivity.
Qed.

Lemma setters_reject_invalid_key_witness :
  propSetInt createMap "9lives" 7 paReplace = Ret (1, createMap)
  /\ propSetIntArray createMap "" [1; 2] = (1, createMap).
Proof.
  split.
  - exact (proj1 (setters_reject_invalid_key "9lives" createMap paReplace
                    eq_refl (or_introl eq_refl)) 7).
  - pose proof (setters_reject_invalid_key "" createMap paAppend
                  eq_refl (or_intror eq_refl)) as H.
    apply H.
Defined.

(** *** Index checks *)

Lemma propGetShared_index_gt_size map key arr index propType :
  hasError map = false -> find map key = Some arr -> size arr < index ->
  propGetShared map key index true propType = Ret (None, Some peIndex).
Proof.
  intros He Hf Hi. unfold propGetShared. rewrite He, Hf.
  replace (index >? size arr) with true by (symmetry; apply Z.gtb_lt; lia).
  rewrite orb_true_r. reflexivity.
Qed.

(** The bound test is [index > arr->size()]: an index equal to the size
    passes it. *)
Lemma propGetShared_index_eq_size map key arr :
  hasError map = false -> find map key = Some arr ->
  propGetShared map key (size arr) true (type arr) = Ret (Some arr, Some peSuccess).
Proof.
  intros He Hf. unfold propGetShared. rewrite He, Hf.
  assert (0 <= size arr) by (destruct arr; simpl; lia).
  replace (size arr <? 0) with false by (symmetry; apply Z.ltb_ge; lia).
  rewrite Z.gtb_ltb, Z.ltb_irrefl. cbn [orb].
  rewrite bool_decide_eq_true_2 by reflexivity. reflexivity.
Qed.

Lemma at_IntKind_size l : at_ IntKind (VSIntArray l) (Z.of_nat (length l)) = Undefined.
Proof.
  unfold at_; cbn. destruct (0 <=? Z.of_nat (length l)); [|reflexivity].
  rewrite Nat2Z.id, (lookup_ge_None_2 l (length l)) by lia. reflexivity.
Qed.

(** With a non-empty array of [n] integers under the key, [propGetInt] at
    index [n] gets the array from [propGetShared] with the error cleared
    and reads one element past its end. *)
Lemma propGetInt_index_eq_size map key l :
  hasError map = false -> find map key = Some (VSIntArray l) ->
  propGetInt map key (Z.of_nat (length l)) true = Undefined.
Proof.
  intros He Hf. unfold propGetInt.
  pose proof (propGetShared_index_eq_size map key _ He Hf) as H. cbn in H.
  rewrite H. cbn [mbind Outcome_bind]. rewrite at_IntKind_size. reflexivity.
Qed.

(** C4 (the code does not do what the claim says).  A one-element integer
    array stored under "k" and read at index 1, which equals its size:
    [propGetShared] reports success instead of [peIndex], and [propGetInt]
    reads past the end of the array. *)
Theorem propGetInt_at_size_not_peIndex :
  exists map,
    propSetInt createMap "k" 7 paReplace = Ret (0, map) /\
    propNumElements map "k" = 1 /\
    propGetShared map "k" 1 true ptInt = Ret (Some (VSIntArray [7]), Some peSuccess) /\
    propGetInt map "k" 1 true = Undefined /\
    propGetInt map "k" 2 true = Ret (0, Some peIndex).
Proof. eexists. repeat split. Qed.

(** *** Set in replace mode, then get *)

#[local] Ltac side := first [assumption | reflexivity | cbn; discriminate].

Lemma find_insert map key val : find (insert map key val) key = Some val.
Proof. unfold find, insert; cbn. apply lookup_insert_eq. Qed.

Lemma hasError_insert map key val : hasError (insert map key val) = hasError map.
Proof. reflexivity. Qed.

Lemma propSetShared_replace {T} (K : ArrayKind T) map key (val : T) :
  isValidVSMapKey (Some key) = true ->
  propSetShared K map key val paReplace = Ret (true, insert map key (wrap K [val])).
Proof. intros Hk. unfold propSetShared. rewrite Hk. reflexivity. Qed.

Lemma propGetShared_found map key arr propType :
  hasError map = false -> size arr = 1 -> type arr = propType ->
  propGetShared (insert map key arr) key 0 true propType = Ret (Some arr, Some peSuccess).
Proof.
  intros He Hs Ht. unfold propGetShared.
  rewrite hasError_insert, He, find_insert, Hs. cbn.
  rewrite bool_decide_eq_true_2 by assumption. reflexivity.
Qed.

Lemma propGetShared_other_type map key arr propType :
  hasError map = false -> size arr = 1 -> type arr <> propType ->
  propGetShared (insert map key arr) key 0 true propType = Ret (None, Some peType).
Proof.
  intros He Hs Ht. unfold propGetShared.
  rewrite hasError_insert, He, find_insert, Hs. cbn.
  rewrite bool_decide_eq_false_2 by assumption. reflexivity.
Qed.

(** The round trip holds for the types whose getter asks [propGetShared]
    for the type its setter stored: int, float, data, video node, audio
    node. *)
Lemma set_replace_get_roundtrip (map : VSMap) (k : string) :
  Regex.regex_match Regex.key_regex k = true -> hasError map = false ->
  (forall v, exists m, propSetInt map k v paReplace = Ret (0, m)
                       /\ propGetInt m k 0 true = Ret (v, Some peSuccess)) /\
  (forall v, exists m, propSetFloat map k v paReplace = Ret (0, m)
                       /\ propGetFloat m k 0 true = Ret (v, Some peSuccess)) /\
  (forall d t, exists m, propSetData map k d t paReplace = Ret (0, m)
                       /\ propGetData m k 0 true = Ret (Some d, Some peSuccess)
                       /\ propGetDataSize m k 0 true
                          = Ret (Z.of_nat (String.length d), Some peSuccess)
                       /\ propGetDataType m k 0 true = Ret (t, Some peSuccess)) /\
  (forall v, exists m, propSetNode map k v paReplace = Ret (0, m)
                       /\ propGetNode m k 0 true = Ret (v, Some peSuccess)).
Proof.
  intros Hk He. rewrite <- isValidVSMapKey_regex in Hk.
  repeat split; intros.
  - exists (insert map k (VSIntArray [v])); split.
    + unfold propSetInt. rewrite propSetShared_replace by assumption. reflexivity.
    + unfold propGetInt. rewrite (propGetShared_found map k (VSIntArray [v])) by side.
      reflexivity.
  - exists (insert map k (VSFloatArray [v])); split.
    + unfold propSetFloat. rewrite propSetShared_replace by assumption. reflexivity.
    + unfold propGetFloat. rewrite (propGetShared_found map k (VSFloatArray [v])) by side.
      reflexivity.
  - exists (insert map k (VSDataArray [mkMapData t d])); split; [|split; [|split]].
    + unfold propSetData. rewrite propSetShared_replace by assumption. reflexivity.
    + unfold propGetData.
      rewrite (propGetShared_found map k (VSDataArray [mkMapData t d])) by side.
      reflexivity.
    + unfold propGetDataSize.
      rewrite (propGetShared_found map k (VSDataArray [mkMapData t d])) by side.
      reflexivity.
    + unfold propGetDataType.
      rewrite (propGetShared_found map k (VSDataArray [mkMapData t d])) by side.
      reflexivity.
  - assert (Hv : exists m, propSetNode map k v paReplace = Ret (0, m) /\
              (m = insert map k (VSVideoNodeArray [v])
               \/ m = insert map k (VSAudioNodeArray [v]))).
    { unfold propSetNode. destruct v as [n|]; [destruct (bool_decide _)|];
        rewrite propSetShared_replace by assumption; eexists; split;
        try reflexivity; auto. }
    destruct Hv as (m & Hset & [-> | ->]); eexists; (split; [exact Hset|]);
      unfold propGetNode.
    + rewrite (propGetShared_found map k (VSVideoNodeArray [v]) ptVideoNode) by side.
      reflexivity.
    + rewrite (propGetShared_other_type map k (VSAudioNodeArray [v]) ptVideoNode) by side.
      cbn [mbind Outcome_bind].
      rewrite (propGetShared_found map k (VSAudioNodeArray [v]) ptAudioNode) by side.
      reflexivity.
Qed.

Lemma set_replace_get_roundtrip_witness :
  exists m, propSetInt createMap "answer" 42 paReplace = Ret (0, m)
            /\ propGetInt m "answer" 0 true = Ret (42, Some peSuccess).
Proof.
  exact (proj1 (set_replace_get_roundtrip createMap "answer" eq_refl eq_refl) 42).
Defined.

(** After a frame or a function is stored in replace mode, its getter
    finds an array whose type is not the [ptData] it asks for. *)
Lemma propGetFrame_after_set map k (f : PVSFrameRef) :
  Regex.regex_match Regex.key_regex k = true -> hasError map = false ->
  exists m, propSetFrame map k f paReplace = Ret (0, m)
            /\ propGetFrame m k 0 true = Ret (None, Some peType).
Proof.
  intros Hk He. rewrite <- isValidVSMapKey_regex in Hk.
  assert (Hv : exists m, propSetFrame map k f paReplace = Ret (0, m) /\
              (m = insert map k (VSVideoFrameArray [f])
               \/ m = insert map k (VSAudioFrameArray [f]))).
  { unfold propSetFrame. destruct f as [n|]; [destruct (bool_decide _)|];
      rewrite propSetShared_replace by assumption; eexists; split;
      try reflexivity; auto. }
  destruct Hv as (m & Hset & [-> | ->]); eexists; (split; [exact Hset|]);
    unfold propGetFrame;
    rewrite !propGetShared_other_type by side;
    reflexivity.
Qed.

Lemma propGetFunc_after_set map k (f : PVSFuncRef) :
  Regex.regex_match Regex.key_regex k = true -> hasError map = false ->
  exists m, propSetFunc map k f paReplace = Ret (0, m)
            /\ propGetFunc m k 0 true = Ret (None, Some peType).
Proof.
  intros Hk He. rewrite <- isValidVSMapKey_regex in Hk.
  exists (insert map k (VSFunctionArray [f])); split.
  - unfold propSetFunc. rewrite propSetShared_replace by assumption. reflexivity.
  - unfold propGetFunc.
    rewrite (propGetShared_other_type map k (VSFunctionArray [f])) by side.
    reflexivity.
Qed.

(** C1 (the code does not do what the claim says).  A video frame, an
    audio frame and a function stored in replace mode under a valid key of
    an empty map are not returned by their getters: [propGetFrame] and
    [propGetFunc] return [nullptr] and report the wrong-type error. *)
Theorem frame_and_func_roundtrip_fails (f : VSFrameRef) (g : VSFuncRef) :
  Regex.regex_match Regex.key_regex "prop" = true /\
  (exists m, propSetFrame createMap "prop" (Some f) paReplace = Ret (0, m)
             /\ propGetFrame m "prop" 0 true = Ret (None, Some peType)) /\
  (exists m, propSetFunc createMap "prop" (Some g) paReplace = Ret (0, m)
             /\ propGetFunc m "prop" 0 true = Ret (None, Some peType)).
Proof.
  split; [reflexivity|]. split.
  - apply propGetFrame_after_set; reflexivity.
  - apply propGetFunc_after_set; reflexivity.
Qed.

End PropertyMap.

(** ** Frame requests *)

Section FrameRequests.
Import VSApi.

(** C5, counterexample.  On a clip of 10 frames, [requestFrameFilter] with
    [n = -1] adds an ordinary request for frame -1, outside [0, 9], and
    sets no error. *)
Lemma requestFrameFilter_negative_is_requested :
  let clip := mkNodeRef 0 mtVideo in
  requestFrameFilter (-1) 10 clip (mkVSFrameContext [])
  = mkVSFrameContext [mkFrameContext (-1) clip None]
  /\ ~ (0 <= -1 <= 10 - 1).
Proof. split; [reflexivity | lia]. Qed.

(** C5, amended.  [requestFrameFilter] clamps from above only: the frame
    it requests is [min n (numFrames - 1)], so [n >= numFrames] becomes
    [numFrames - 1] and every smaller [n], negative ones included, is
    requested unchanged and without an error.  The error for a negative
    frame number is raised by [getFrameAsync], which does not clamp: it
    sets "Invalid frame number" on the context when [n < 0], or when
    [numFrames] is not zero and [n >= numFrames]. *)
Theorem requestFrameFilter_clamps_above_only (n numFrames : Z) (clip : VSNodeRef)
    (frameCtx : VSFrameContext) :
  requestFrameFilter n numFrames clip frameCtx
  = mkVSFrameContext
      (reqList frameCtx ++ [mkFrameContext (Z.min n (numFrames - 1)) clip None])
  /\ getFrameAsync n numFrames clip
     = mkFrameContext n clip
         (if n <? 0 then Some (InvalidFrameNumber n numFrames)
          else if numFrames =? 0 then None
          else if numFrames <=? n then Some (InvalidFrameNumber n numFrames)
          else None).
Proof.
  split.
  - unfold requestFrameFilter. destruct (Z.geb_spec n numFrames).
    + rewrite Z.min_r by lia. reflexivity.
    + rewrite Z.min_l by lia. reflexivity.
  - unfold getFrameAsync.
    destruct (Z.ltb_spec n 0), (Z.eqb_spec numFrames 0), (Z.geb_spec n numFrames),
      (Z.leb_spec numFrames n); cbn; try reflexivity; lia.
Qed.

End FrameRequests.

(** ** Audio filters *)

Section AudioFilters.
Import VSApi Audio AudioScenarios.

(** With a null error pointer, [propGetNode] on a key that holds audio
    nodes aborts: its first probe asks [propGetShared] for [ptVideoNode],
    and every failure exit of [propGetShared] is [vsFatal] when there is no
    error output. *)
Lemma propGetNode_audio_no_error_output map key index l :
  find map key = Some (VSAudioNodeArray l) ->
  propGetNode map key index false = Fatal.
Proof.
  intros Hf. unfold propGetNode, propGetShared. rewrite Hf.
  destruct (hasError map); [reflexivity|].
  destruct ((index <? 0) || (index >? size (VSAudioNodeArray l))); reflexivity.
Qed.

(** The same call with an error output returns the audio node. *)
Lemma propGetNode_audio_error_output map key (node : PVSNodeRef) :
  hasError map = false -> find map key = Some (VSAudioNodeArray [node]) ->
  propGetNode map key 0 true = Ret (node, Some peSuccess).
Proof.
  intros He Hf. unfold propGetNode, propGetShared. rewrite He, Hf. reflexivity.
Qed.

Lemma audioReverseCreate_audio_clip in_ out core l :
  find in_ "clip" = Some (VSAudioNodeArray l) -> audioReverseCreate in_ out core = Fatal.
Proof.
  intros Hf. unfold audioReverseCreate.
  rewrite (propGetNode_audio_no_error_output _ _ _ _ Hf). reflexivity.
Qed.

Lemma testAudioCreate_3072 :
  propSetInt createMap "length" 3072 paReplace = Ret (0, testAudioArgs) /\
  exists out,
    testAudioCreate testAudioArgs createMap (mkCore []) = Ret (out, testAudioCore) /\
    propGetNode out "clip" 0 true = Ret (Some node0, Some peSuccess).
Proof. split; [reflexivity|]. eexists; split; reflexivity. Qed.

(** C6 (the code does not do what the claim says).  [TestAudio(length=3072)]
    is built and its node is stored, as the audio node it is, under "clip"
    of the argument map of [AudioReverse]; [audioReverseCreate] then
    aborts in [propGetNode(in, "clip", 0, nullptr)], so no reversed clip
    exists whose frame 0 could be read. *)
Theorem audioReverse_of_testAudio_aborts :
  exists out args,
    testAudioCreate testAudioArgs createMap (mkCore []) = Ret (out, testAudioCore) /\
    propGetNode out "clip" 0 true = Ret (Some node0, Some peSuccess) /\
    propSetNode createMap "clip" (Some node0) paReplace = Ret (0, args) /\
    audioReverseCreate args createMap testAudioCore = Fatal.
Proof. do 2 eexists. repeat split. Qed.

(** What the callbacks compute once the instance data exists: frame 0 of
    the source is the ramp, [audioReverseGetFrame<int16_t>] requests
    frame 0 of the source and, given it, returns the ramp reversed in both
    channels. *)
Lemma audioReverseGetFrame_testAudio_frame0 :
  exists src,
    testAudioGetframe 0 arInitial testAudioInfo = Ret (Some src) /\
    channels src = [ramp 3072; ramp 3072] /\
    audioReverseGetFrame testAudioCore 0 arInitial (Some node0) testAudioInfo noRequests
    = Ret (None, mkFilterCtx (mkVSFrameContext [mkFrameContext 0 node0 None]) []) /\
    audioReverseGetFrame testAudioCore 0 arAllFramesReady (Some node0) testAudioInfo
                         (mkFilterCtx (mkVSFrameContext []) [(node0, 0, src)])
    = Ret (Some (mkAudioFrame stereo16 3072 [reversed_ramp 3072; reversed_ramp 3072]),
           mkFilterCtx (mkVSFrameContext []) [(node0, 0, src)]).
Proof.
  eexists. split; [vm_compute; reflexivity|].
  split; [vm_compute; reflexivity|].
  split; vm_compute; reflexivity.
Qed.

Lemma blankAudioCreate_100_200 :
  exists out1 out2,
    blankAudioCreate (blankArgs 100) createMap (mkCore []) = Ret (out1, blankCore1) /\
    blankAudioCreate (blankArgs 200) createMap blankCore1 = Ret (out2, blankCore2) /\
    propGetNode out1 "clip" 0 true = Ret (Some node0, Some peSuccess) /\
    propGetNode out2 "clip" 0 true = Ret (Some node1, Some peSuccess).
Proof. do 2 eexists. repeat split. Qed.

Lemma audioSpliceCreate_audio_clips in_ out core l :
  find in_ "clips" = Some (VSAudioNodeArray l) -> l <> [] ->
  audioSpliceCreate in_ out core = Fatal.
Proof.
  intros Hf Hl. unfold audioSpliceCreate, propNumElements. rewrite Hf. cbn [size].
  destruct l as [|x l]; [done|]. cbn [length].
  destruct (Z.of_nat (S (length l)) =? 1).
  - rewrite (propGetNode_audio_no_error_output _ _ _ _ Hf). reflexivity.
  - cbn [mbind Outcome_bind]. rewrite Nat2Z.id. cbn [collect].
    rewrite (propGetNode_audio_no_error_output _ _ _ _ Hf). reflexivity.
Qed.

(** C7 (the code does not do what the claim says).  The two [BlankAudio]
    clips are built and stored, as the audio nodes they are, under "clips"
    of the argument map of [AudioSplice]; [audioSpliceCreate] then aborts
    in its first [propGetNode(in, "clips", i, nullptr)], before it computes
    any [AudioInfo]. *)
Theorem audioSplice_of_blankAudio_aborts :
  exists out1 out2 args1 args,
    blankAudioCreate (blankArgs 100) createMap (mkCore []) = Ret (out1, blankCore1) /\
    blankAudioCreate (blankArgs 200) createMap blankCore1 = Ret (out2, blankCore2) /\
    propSetNode createMap "clips" (Some node0) paAppend = Ret (0, args1) /\
    propSetNode args1 "clips" (Some node1) paAppend = Ret (0, args) /\
    propNumElements args "clips" = 2 /\
    audioSpliceCreate args createMap blankCore2 = Fatal.
Proof. do 4 eexists. repeat split. Qed.

(** What the callback computes once the instance data exists: the sample
    counts add up to 300, frame 0 requests frame 0 of each source, and its
    300 samples per channel are the 100 of the first source followed by
    the 200 of the second, so that output sample 100 is sample 0 of the
    second source.  Shown on the silent frames of [BlankAudio] and on
    frames with recognisable samples. *)
Lemma audioSpliceGetframe_frame0 :
  let nodes := [Some node0; Some node1] in
  let available f1 f2 := mkFilterCtx (mkVSFrameContext []) [(node0, 0, f1); (node1, 0, f2)] in
  fold_left Z.add [100; 200] 0 = numSamples spliceInfo /\
  runningSums 0 [100; 200] = [100; 300] /\
  audioSpliceGetframe blankCore2 0 arInitial nodes spliceInfo
                      [100; 200] [100; 300] [1; 1] noRequests
  = Ret (None, mkFilterCtx (mkVSFrameContext [mkFrameContext 0 node0 None;
                                              mkFrameContext 0 node1 None]) []) /\
  (exists f1 f2,
     blankAudioGetframe 0 arInitial None (blankInfo 100) false = Ret (Some f1, None) /\
     blankAudioGetframe 0 arInitial None (blankInfo 200) false = Ret (Some f2, None) /\
     audioSpliceGetframe blankCore2 0 arAllFramesReady nodes spliceInfo
                         [100; 200] [100; 300] [1; 1] (available f1 f2)
     = Ret (Some (mkAudioFrame stereo16 300 [replicate 300 0; replicate 300 0]),
            available f1 f2)) /\
  (exists dst,
     audioSpliceGetframe blankCore2 0 arAllFramesReady nodes spliceInfo
                         [100; 200] [100; 300] [1; 1]
                         (available (markedFrame 1000 100) (markedFrame 2000 200))
     = Ret (Some dst, available (markedFrame 1000 100) (markedFrame 2000 200)) /\
     channels dst
     = zip_with app (channels (markedFrame 1000 100)) (channels (markedFrame 2000 200)) /\
     frameLength dst = 300 /\
     (channels dst !! 0%nat) ≫= (fun c => c !! 100%nat) = Some 2000).
Proof.
  cbv zeta. split; [reflexivity|]. split; [reflexivity|].
  split; [vm_compute; reflexivity|]. split.
  - do 2 eexists. split; [vm_compute; reflexivity|].
    split; vm_compute; reflexivity.
  - eexists. split; [vm_compute; reflexivity|]. repeat split; vm_compute; reflexivity.
Qed.

Lemma audioTrimCreate_audio_clip in_ out core l :
  find in_ "clip" = Some (VSAudioNodeArray l) ->
  audioTrimCreate in_ out core = Fatal
  \/ audioTrimCreate in_ out core = Undefined
  \/ exists msg, audioTrimCreate in_ out core = Ret (setError out msg, core).
Proof.
  intros Hf. unfold audioTrimCreate.
  destruct (propGetSaturatedInt in_ "first" 0 true) as [[first e1]| |];
    [|left; reflexivity | right; left; reflexivity].
  cbn [mbind Outcome_bind].
  destruct (propGetSaturatedInt in_ "last" 0 true) as [[last e2]| |];
    [|left; reflexivity | right; left; reflexivity].
  cbn [mbind Outcome_bind].
  destruct (propGetSaturatedInt in_ "length" 0 true) as [[len e3]| |];
    [|left; reflexivity | right; left; reflexivity].
  cbn [mbind Outcome_bind].
  repeat match goal with
         | |- context [if ?b then RETERROR _ _ _ else _] =>
             destruct b; [right; right; eexists; reflexivity|]
         end.
  rewrite (propGetNode_audio_no_error_output _ _ _ _ Hf). left; reflexivity.
Qed.

Lemma audioLoopCreate_audio_clip in_ out core l :
  find in_ "clip" = Some (VSAudioNodeArray l) ->
  audioLoopCreate in_ out core = Fatal
  \/ audioLoopCreate in_ out core = Undefined
  \/ exists msg, audioLoopCreate in_ out core = Ret (setError out msg, core).
Proof.
  intros Hf. unfold audioLoopCreate.
  destruct (propGetInt in_ "times" 0 true) as [[times e1]| |];
    [|left; reflexivity | right; left; reflexivity].
  cbn [mbind Outcome_bind].
  destruct (times <? 0); [right; right; eexists; reflexivity|].
  rewrite (propGetNode_audio_no_error_output _ _ _ _ Hf). left; reflexivity.
Qed.

(** C10 (the code does not do what the claim says).  With the clip of
    [TestAudio(length=3072)] stored under "clip", [AudioTrim] without
    first, last and length, [AudioTrim] with a length equal to the whole
    clip, and [AudioLoop] with times = 1 all abort in
    [propGetNode(in, "clip", 0, nullptr)] before they reach the branch that
    passes the input node through. *)
Theorem audioTrim_audioLoop_passthrough_aborts :
  exists args argsLen argsTimes,
    propSetNode createMap "clip" (Some node0) paReplace = Ret (0, args) /\
    propGetType args "clip" = ptAudioNode /\
    audioTrimCreate args createMap testAudioCore = Fatal /\
    propSetInt args "length" 3072 paReplace = Ret (0, argsLen) /\
    audioTrimCreate argsLen createMap testAudioCore = Fatal /\
    propSetInt args "times" 1 paReplace = Ret (0, argsTimes) /\
    audioLoopCreate argsTimes createMap testAudioCore = Fatal.
Proof. do 3 eexists. repeat split. Qed.

End AudioFilters.

(* ==================================================================== *)
(** * AVI: the paragraphs of [ReadMedia] *)

Section AviParagraphs.
Import Avi AviSpec.

Lemma len_nonneg l : 0 <= len l.
Proof. unfold len. lia. Qed.

Lemma len_app l k : len (l ++ k) = len l + len k.
Proof. unfold len. rewrite length_app. lia. Qed.

Lemma len_zeros n : len (zeros n) = Z.max 0 n.
Proof. unfold len, zeros. rewrite length_replicate. lia. Qed.

Lemma len_slice off n l :
  0 <= off -> 0 <= n -> len (slice off n l) = Z.min n (Z.max 0 (len l - off)).
Proof.
  intros Hoff Hn. unfold len, slice. rewrite length_take, length_drop. lia.
Qed.

Lemma slice_app off n l k :
  0 <= off -> 0 <= n ->
  slice off n (l ++ k)
  = slice off n l ++ slice (Z.max 0 (off - len l)) (n - len (slice off n l)) k.
Proof.
  intros Hoff Hn. rewrite len_slice by assumption. unfold slice, len.
  rewrite drop_app, take_app, length_drop. f_equal. f_equal; [lia|]. f_equal. lia.
Qed.

Lemma slice_all l : slice 0 (len l) l = l.
Proof. unfold slice, len. cbn [Z.to_nat drop]. apply take_ge. lia. Qed.

Lemma slice_ge off n l : len l <= off -> slice off n l = [].
Proof.
  intros H. unfold slice. rewrite drop_ge; [apply take_nil|]. unfold len in H. lia.
Qed.

Lemma slice_0 off l : slice off 0 l = [].
Proof. reflexivity. Qed.

Lemma served_nil st : 0 <= offset st -> served [] st = st.
Proof.
  intros H. destruct st as [b r o s]. unfold served, slice. cbn in *.
  rewrite drop_nil, take_nil, app_nil_r. unfold len. cbn. f_equal; lia.
Qed.

Lemma served_app R1 R2 st :
  0 <= offset st -> 0 <= remainingSize st ->
  served R2 (served R1 st) = served (R1 ++ R2) st.
Proof.
  intros Ho Hr. destruct st as [b r o s]. unfold served. cbn in *.
  rewrite (slice_app o r R1 R2) by assumption.
  pose proof (len_slice o r R1 Ho Hr) as H1. pose proof (len_nonneg R1).
  pose proof (len_nonneg R2).
  rewrite !len_app, app_assoc. f_equal; lia.
Qed.

Lemma served_inv R st : readInv st -> readInv (served R st).
Proof.
  intros (Ho & Hr & Hz & Hs). unfold readInv, served. cbn.
  rewrite len_slice by assumption. pose proof (len_nonneg R).
  repeat split; first [assumption | lia].
Qed.

(** A read that is over passes every run unchanged. *)
Lemma served_done R st : readInv st -> remainingSize st = 0 -> served R st = st.
Proof.
  intros (Ho & Hr & Hz & Hs) H0. destruct st as [b r o s]. cbn in *. subst r.
  specialize (Hz eq_refl). subst o. unfold served. cbn.
  rewrite slice_0, app_nil_r. pose proof (len_nonneg R). change (len []) with 0. f_equal; lia.
Qed.

Lemma copyBlob_served blob size st :
  size = len blob -> 0 <= offset st -> 0 <= remainingSize st ->
  copyBlob blob size st = served blob st.
Proof.
  intros -> Ho Hr. destruct st as [b r o s]. unfold copyBlob, served. cbn in *.
  destruct (Z.geb_spec o (len blob)) as [Hge|Hlt].
  - rewrite slice_ge by lia. rewrite app_nil_r. change (len []) with 0. f_equal; lia.
  - destruct (Z.eqb_spec r 0) as [->|Hne]; cbn.
    + rewrite slice_0, app_nil_r. change (len []) with 0. f_equal; lia.
    + rewrite len_slice by lia.
      destruct (Z.gtb_spec (len blob - o) r).
      * f_equal; lia.
      * f_equal; try lia. f_equal. unfold slice. rewrite !take_ge; [reflexivity|..];
          rewrite length_drop; unfold len in *; lia.
Qed.

End AviParagraphs.

Section AviParagraphs2.
Import Avi AviSpec.

Lemma slice_zeros off n m :
  0 <= off -> 0 <= n -> slice off n (zeros m) = zeros (Z.min n (m - off)).
Proof.
  intros Ho Hn. unfold slice, zeros. rewrite drop_replicate, take_replicate.
  f_equal. lia.
Qed.

Lemma slice_clip off n l :
  0 <= off -> len l - off <= n -> slice off n l = slice off (len l - off) l.
Proof.
  intros Ho Hn. unfold slice, len in *. rewrite !take_ge; [reflexivity|..];
    rewrite length_drop; lia.
Qed.

Lemma slice_split off n1 n2 l :
  0 <= off -> 0 <= n1 -> 0 <= n2 ->
  slice off (n1 + n2) l = slice off n1 l ++ slice (off + n1) n2 l.
Proof.
  intros Ho H1 H2. unfold slice.
  rewrite <- (take_drop (Z.to_nat n1) (take (Z.to_nat (n1 + n2)) (drop (Z.to_nat off) l))).
  rewrite take_take, skipn_firstn_comm, drop_drop. f_equal; f_equal; try lia. f_equal. lia.
Qed.

Lemma slice_mid A S C e m :
  0 <= e -> 0 <= m -> e + m <= len S ->
  slice (len A + e) m (A ++ S ++ C) = slice e m S.
Proof.
  intros He Hm Hle. pose proof (len_nonneg A).
  rewrite slice_app by lia. rewrite (slice_ge _ _ A) by lia. cbn [app].
  change (len []) with 0. replace (Z.max 0 (len A + e - len A)) with e by lia.
  rewrite Z.sub_0_r, slice_app by lia.
  rewrite len_slice by lia. replace (m - Z.min m (Z.max 0 (len S - e))) with 0 by lia.
  rewrite slice_0, app_nil_r. reflexivity.
Qed.

Lemma fit_exact n l : len l = n -> fit n l = l.
Proof.
  intros <-. unfold fit, len. rewrite Nat2Z.id. apply take_app_length.
Qed.

Lemma fit_short n l : 0 <= n <= len l -> fit n l = slice 0 n l.
Proof.
  intros H. unfold fit, slice, len in *. cbn [Z.to_nat drop].
  rewrite take_app. replace (Z.to_nat n - length l)%nat with 0%nat by lia.
  rewrite take_0, app_nil_r. reflexivity.
Qed.

Lemma slice_drop e n l : slice 0 n (drop (Z.to_nat e) l) = slice e n l.
Proof. reflexivity. Qed.

Lemma fit_slice off n l :
  0 <= off -> 0 <= n -> off + n <= len l -> fit n (slice off n l) = slice off n l.
Proof.
  intros. apply fit_exact. rewrite len_slice by lia. lia.
Qed.

Lemma copyPad_served alignSize st :
  readInv st -> 0 <= alignSize ->
  (alignSize <= offset st \/ remainingSize st <= alignSize - offset st) ->
  copyPad alignSize st = served (zeros alignSize) st.
Proof.
  intros (Ho & Hr & Hz & Hs) Ha Hpre. destruct st as [b r o s]. unfold copyPad, served.
  cbn in *. rewrite slice_zeros, !len_zeros by lia.
  destruct (Z.geb_spec o alignSize).
  - replace (Z.min r (alignSize - o)) with (alignSize - o) by lia.
    unfold zeros at 1. rewrite Z2Nat.nonpos by lia. cbn [replicate].
    rewrite app_nil_r. f_equal; lia.
  - destruct (Z.eqb_spec r 0) as [->|Hne]; cbn.
    + replace (Z.min 0 (alignSize - o)) with 0 by lia. unfold zeros at 1. cbn.
      rewrite app_nil_r. f_equal; lia.
    + replace (Z.min r (alignSize - o)) with r by lia. f_equal; lia.
Qed.

Section Sources.
Variable f : AvfsAvi2File.
Variables sample frame : Z -> list Z.
Hypothesis Hsrc : SourcesOk f sample frame.

Lemma copyVideo_served n st :
  readInv st ->
  copyVideo f n st = served (frame n) st.
Proof.
  intros (Ho & Hr & Hz & Hs). destruct st as [b r o s]. unfold copyVideo, served.
  cbn in *. subst s. pose proof (frame_size _ _ _ Hsrc n) as HF.
  destruct (Z.geb_spec o (frameVidDataSize f)).
  - rewrite slice_ge by lia. rewrite app_nil_r. change (len []) with 0. f_equal; lia.
  - destruct (Z.eqb_spec r 0) as [->|Hne]; cbn.
    + rewrite slice_0, app_nil_r. change (len []) with 0. f_equal; lia.
    + rewrite (video_ok _ _ _ Hsrc).
      destruct (Z.gtb_spec (frameVidDataSize f - o) r).
      * rewrite fit_slice by lia. rewrite len_slice by lia. f_equal; lia.
      * rewrite fit_slice by lia. rewrite (slice_clip o r) by lia. rewrite HF.
        rewrite len_slice by lia. f_equal; lia.
Qed.

End Sources.

Lemma len_le32 x : len (le32 x) = 4.
Proof. reflexivity. Qed.

Lemma len_RiffTag fcc cb : len (RiffTag_bytes fcc cb) = 8.
Proof. reflexivity. Qed.

Lemma copyIndexPad_served padSize st :
  readInv st -> 8 < padSize ->
  copyIndexPad padSize st = served (bytes (junkRegion padSize)) st.
Proof.
  intros Hinv Hp. pose proof Hinv as (Ho & Hr & Hz & Hs).
  unfold copyIndexPad, junkRegion. cbn [bytes].
  rewrite <- served_app by assumption.
  destruct (Z.geb_spec (offset st) padSize) as [Hge|Hlt].
  - destruct st as [b r o s]. unfold served.
    cbn [buffer remainingSize offset success] in *.
    rewrite len_RiffTag, len_zeros. rewrite !slice_ge by (rewrite ?len_RiffTag, ?len_zeros; lia).
    rewrite !app_nil_r. change (len []) with 0. f_equal; lia.
  - rewrite copyBlob_served by (try reflexivity; assumption).
    pose proof (served_inv (RiffTag_bytes riffJunkFcc (padSize - 8)) st Hinv) as Hinv1.
    assert (Ho1 : offset (served (RiffTag_bytes riffJunkFcc (padSize - 8)) st) < padSize - 8).
    { unfold served. cbn [offset]. rewrite len_RiffTag. lia. }
    change sizeof_RiffTag with 8.
    set (st1 := served (RiffTag_bytes riffJunkFcc (padSize - 8)) st) in *.
    destruct Hinv1 as (Ho' & Hr' & Hz' & Hs'). destruct st1 as [b r o s].
    unfold served. cbn [buffer remainingSize offset success] in *.
    rewrite slice_zeros, !len_zeros by lia.
    destruct (Z.eqb_spec r 0) as [->|Hne]; cbn.
    + replace (Z.min 0 (padSize - 8 - o)) with 0 by lia. unfold zeros. cbn.
      rewrite app_nil_r. f_equal; lia.
    + destruct (Z.gtb_spec (padSize - 8 - o) r); f_equal; try lia; f_equal; f_equal; lia.
Qed.

End AviParagraphs2.

Section AviAudio.
Import Avi AviSpec.

Lemma wrap32_small z : 0 <= z < 2 ^ 32 -> wrap32 z = z.
Proof. intros H. unfold wrap32. apply Z.mod_small. lia. Qed.

Lemma wrap64_small z : 0 <= z < 2 ^ 64 -> wrap64 z = z.
Proof. intros H. unfold wrap64. apply Z.mod_small. lia. Qed.

Lemma sint32_small z : 0 <= z < 2 ^ 31 -> sint32 z = z.
Proof.
  intros H. unfold sint32. rewrite wrap32_small by lia.
  destruct (Z.ltb_spec z (2 ^ 31)); lia.
Qed.

Section Samples.
Variable sample : Z -> list Z.
Variable ss : Z.
Hypothesis Hsample : forall i, len (sample i) = ss.

Lemma len_samples start count :
  0 <= count -> len (flat_map sample (seqZ start count)) = count * ss.
Proof.
  intros Hc. revert start. pattern count. apply natlike_ind; [|clear count Hc|assumption].
  - intros start. reflexivity.
  - intros count Hc IH start. rewrite seqZ_cons by lia. cbn [flat_map].
    rewrite len_app, Hsample. replace (Z.pred (Z.succ count)) with count by lia.
    rewrite IH. lia.
Qed.

Lemma samples_split start a count :
  0 <= a <= count ->
  flat_map sample (seqZ start count)
  = flat_map sample (seqZ start a) ++ flat_map sample (seqZ (start + a) (count - a)).
Proof.
  intros H. replace count with (a + (count - a)) at 1 by lia.
  rewrite seqZ_app by lia. apply flat_map_app.
Qed.

Lemma samples_aligned start count a m :
  0 <= a -> 0 <= m -> a + m <= count ->
  slice (a * ss) (m * ss) (flat_map sample (seqZ start count))
  = flat_map sample (seqZ (start + a) m).
Proof.
  intros Ha Hm Hle.
  rewrite (samples_split start a count) by lia.
  rewrite (samples_split (start + a) m (count - a)) by lia.
  replace (a * ss) with (len (flat_map sample (seqZ start a)) + 0)
    by (rewrite len_samples; lia).
  replace (m * ss) with (len (flat_map sample (seqZ (start + a) m)))
    by (rewrite len_samples; lia).
  rewrite slice_mid
    by (pose proof (len_nonneg (flat_map sample (seqZ (start + a) m))); lia).
  apply slice_all.
Qed.

Lemma samples_partial start count a e m :
  0 <= a < count -> 0 <= e -> 0 <= m -> e + m <= ss ->
  slice (a * ss + e) m (flat_map sample (seqZ start count))
  = slice e m (sample (start + a)).
Proof.
  intros Ha He Hm Hle.
  rewrite (samples_split start a count) by lia.
  rewrite (seqZ_cons (start + a)) by lia. cbn [flat_map].
  rewrite <- (len_samples start a) by lia.
  apply slice_mid; rewrite ?Hsample; lia.
Qed.

End Samples.

Section Sources.
Variable f : AvfsAvi2File.
Variables sample frame : Z -> list Z.
Hypothesis Hsrc : SourcesOk f sample frame.
Let ss := sampleSize f.

Lemma GetAudio_one start :
  GetAudio (avs f) start 1 = (true, sample start).
Proof.
  rewrite (audio_ok _ _ _ Hsrc). f_equal. change (seqZ start 1) with [0 + start].
  cbn [flat_map]. rewrite app_nil_r. f_equal.
Qed.

(** The bulk and the tail step from a sample boundary. *)
Lemma audio_aligned start count a b r :
  0 < ss -> 0 <= count < 2 ^ 31 -> 0 <= a <= count -> 0 <= r ->
  let R := flat_map sample (seqZ start count) in
  let st' := audioTail f start (count * ss)
               (audioBulk f start (count * ss) (mkRead b r (a * ss) true)) in
  mkRead (buffer st') (remainingSize st') 0 (success st')
  = mkRead (b ++ slice (a * ss) r R) (r - len (slice (a * ss) r R)) 0 true.
Proof.
  intros Hss Hc Ha Hr R st'. subst st'.
  pose proof (sample_size _ _ _ Hsrc) as Hsz. fold ss in Hsz.
  assert (HR : len R = count * ss) by (apply len_samples; [assumption|lia]).
  unfold audioBulk. cbn [offset remainingSize buffer success]. fold ss.
  rewrite Z.div_mul by lia.
  destruct (Z.ltb_spec (a * ss) (count * ss)) as [Hlt|Hge]; cbn [andb].
  2:{ unfold audioTail. cbn [offset remainingSize buffer success].
      destruct (Z.ltb_spec (a * ss) (count * ss)); [lia|]. cbn [andb].
      cbn [offset remainingSize buffer success].
      rewrite slice_ge by lia. rewrite app_nil_r. change (len []) with 0. f_equal. lia. }
  assert (Hac : a < count) by nia.
  destruct (Z.geb_spec r ss) as [Hrs|Hrs].
  - (* bulk *)
    set (partSize := if count * ss - a * ss >? r then r - r mod ss else count * ss - a * ss).
    assert (Hp : exists m, partSize = m * ss /\ 0 <= m /\ a + m <= count /\ partSize <= r
                           /\ (partSize = count * ss - a * ss
                               \/ (count * ss - a * ss > r /\ r - partSize = r mod ss))).
    { subst partSize. destruct (Z.gtb_spec (count * ss - a * ss) r).
      - exists (r / ss). pose proof (Z.div_mod r ss ltac:(lia)).
        pose proof (Z.mod_pos_bound r ss Hss).
        assert (0 <= r / ss) by (apply Z.div_pos; lia).
        repeat split; try lia; try nia.
      - exists (count - a). repeat split; try lia. }
    destruct Hp as (m & Hpm & Hm0 & Hm & Hpr & Hcase). rewrite Hpm.
    rewrite Z.div_mul by lia. rewrite sint32_small by lia.
    rewrite (audio_ok _ _ _ Hsrc). cbn [andCall].
    rewrite fit_exact by (apply len_samples; [assumption|lia]).
    rewrite <- (samples_aligned sample ss Hsz start count a m) by lia. fold R.
    unfold audioTail. cbn [offset remainingSize buffer success]. fold ss.
    replace (a * ss + m * ss) with ((a + m) * ss) by lia.
    rewrite Z.div_mul by lia.
    destruct (Z.ltb_spec ((a + m) * ss) (count * ss)) as [Hlt2|Hge2]; cbn [andb].
    + destruct (Z.eqb_spec (r - m * ss) 0) as [H0|Hn0]; cbn [negb].
      * cbn [offset remainingSize buffer success]. replace r with (m * ss) by lia.
        rewrite len_slice by lia. f_equal. lia.
      * rewrite GetAudio_one. cbn [andCall offset remainingSize buffer success].
        destruct Hcase as [Hcase|[Hgt Hrem]]; [lia|].
        pose proof (Z.mod_pos_bound r ss Hss).
        assert (Hr' : 0 <= r - m * ss <= ss) by lia.
        replace (fit (r - m * ss) (sample (start + (a + m))))
          with (slice 0 (r - m * ss) (sample (start + (a + m)))).
        2:{ symmetry. apply fit_short. rewrite Hsz. lia. }
        rewrite <- (samples_partial sample ss Hsz start count (a + m) 0 (r - m * ss)) by nia.
        fold R. rewrite Z.add_0_r, <- app_assoc.
        replace ((a + m) * ss) with (a * ss + m * ss) by lia.
        rewrite <- slice_split by lia. replace (m * ss + (r - m * ss)) with r by lia.
        rewrite len_slice by lia. f_equal. lia.
    + cbn [offset remainingSize buffer success].
      assert (m = count - a) by nia. subst m.
      rewrite (slice_clip (a * ss) r R) by lia. rewrite HR.
      replace (count * ss - a * ss) with ((count - a) * ss) by lia.
      rewrite len_slice by lia. f_equal. lia.
  - (* no bulk *)
    unfold audioTail. cbn [offset remainingSize buffer success]. fold ss.
    rewrite Z.div_mul by lia.
    destruct (Z.ltb_spec (a * ss) (count * ss)); [|lia]. cbn [andb].
    destruct (Z.eqb_spec r 0) as [->|Hn0]; cbn [negb].
    + cbn [offset remainingSize buffer success]. rewrite slice_0, app_nil_r.
      change (len []) with 0. reflexivity.
    + rewrite GetAudio_one. cbn [andCall offset remainingSize buffer success].
      replace (fit r (sample (start + a))) with (slice 0 r (sample (start + a))).
      2:{ symmetry. apply fit_short. rewrite Hsz. lia. }
      rewrite <- (samples_partial sample ss Hsz start count a 0 r) by lia.
      fold R. rewrite Z.add_0_r. rewrite len_slice by lia. f_equal. nia.
Qed.

Lemma copyAudio_served start count st :
  readInv st -> 0 < ss < 2 ^ 32 -> 0 <= count < 2 ^ 31 ->
  (count * ss <= offset st \/ remainingSize st = 0 \/ offset st mod ss = 0 \/ start = 0) ->
  copyAudio f start (count * ss) st = served (flat_map sample (seqZ start count)) st.
Proof.
  intros (Ho & Hr & Hz & Hs) Hss Hc Hpre. destruct st as [b r o s].
  cbn [offset remainingSize buffer success] in *. subst s.
  pose proof (sample_size _ _ _ Hsrc) as Hsz. fold ss in Hsz.
  set (R := flat_map sample (seqZ start count)).
  assert (HR : len R = count * ss) by (apply len_samples; [assumption|lia]).
  unfold copyAudio, served. cbn [offset remainingSize buffer success].
  destruct (Z.geb_spec o (count * ss)) as [Hge|Hlt].
  { rewrite slice_ge by lia. rewrite app_nil_r. change (len []) with 0. f_equal; lia. }
  replace (Z.max 0 (o - len R)) with 0 by lia.
  pose proof (Z.div_mod o ss ltac:(lia)) as Hdm.
  pose proof (Z.mod_pos_bound o ss ltac:(lia)) as Hmod.
  assert (Ha0 : 0 <= o / ss) by (apply Z.div_pos; lia).
  assert (Hac : o / ss < count) by nia.
  unfold audioFront. cbn [offset remainingSize buffer success]. fold ss.
  rewrite (wrap32_small (o mod ss)) by lia.
  destruct (Z.eqb_spec r 0) as [->|Hr0]; cbn [negb andb].
  { unfold audioBulk, audioTail. cbn [offset remainingSize buffer success]. fold ss.
    destruct (Z.geb_spec 0 ss); [lia|]. rewrite andb_false_r.
    cbn [offset remainingSize buffer success]. rewrite andb_false_r.
    cbn [offset remainingSize buffer success].
    rewrite slice_0, app_nil_r. reflexivity. }
  destruct (Z.eqb_spec (o mod ss) 0) as [He|He]; cbn [negb].
  { replace o with (o / ss * ss) by lia.
    apply (audio_aligned start count (o / ss) b r); lia. }
  assert (start = 0) as -> by lia.
  rewrite GetAudio_one. cbn [andCall].
  set (partSize := if ss - o mod ss >? r then r else ss - o mod ss).
  assert (Hp : 0 < partSize <= r /\ partSize <= ss - o mod ss
               /\ (partSize = r \/ partSize = ss - o mod ss)).
  { subst partSize. destruct (Z.gtb_spec (ss - o mod ss) r); lia. }
  destruct Hp as (Hp0 & Hple & Hpc).
  assert (Hfront : fit partSize (drop (Z.to_nat (o mod ss)) (sample (o / ss)))
                   = slice o partSize R).
  { rewrite fit_short by (unfold len in *; rewrite length_drop; specialize (Hsz (o / ss)); lia).
    rewrite slice_drop.
    replace (sample (o / ss)) with (sample (0 + o / ss)) by (f_equal; lia).
    rewrite <- (samples_partial sample ss Hsz 0 count (o / ss) (o mod ss) partSize) by lia.
    fold R. f_equal. lia. }
  rewrite Hfront.
  destruct Hpc as [Hpr|Hpe].
  - rewrite Hpr. replace (r - r) with 0 by lia.
    unfold audioBulk, audioTail. cbn [offset remainingSize buffer success]. fold ss.
    destruct (Z.geb_spec 0 ss); [lia|]. rewrite andb_false_r.
    cbn [offset remainingSize buffer success]. rewrite andb_false_r.
    cbn [offset remainingSize buffer success].
    rewrite len_slice by lia. f_equal. nia.
  - replace (o + partSize) with ((o / ss + 1) * ss) by lia.
    rewrite (audio_aligned 0 count (o / ss + 1) _ (r - partSize)) by lia.
    fold R. rewrite <- app_assoc.
    replace ((o / ss + 1) * ss) with (o + partSize) by lia.
    rewrite <- slice_split by lia. replace (partSize + (r - partSize)) with r by lia.
    assert (partSize <= count * ss - o) by nia.
    f_equal. rewrite !len_slice by lia. lia.
Qed.

End Sources.
End AviAudio.

Section AviFrames.
Import Avi AviSpec.

Lemma land_fffffffe x : 0 <= x < 2 ^ 32 -> Z.land x 4294967294 = x - x mod 2.
Proof.
  intros H. change 4294967294 with (Z.land (Z.ones 32) (Z.lnot (Z.ones 1))).
  rewrite Z.land_assoc, Z.land_ones, <- Z.ldiff_land, Z.ldiff_ones_r by lia.
  rewrite Z.mod_small by lia.
  rewrite Z.shiftr_div_pow2, Z.shiftl_mul_pow2 by lia.
  change (2 ^ 1) with 2. pose proof (Z.div_mod x 2 ltac:(lia)). lia.
Qed.

Lemma RiffAlignUp_exact s : 0 <= s <= 2 ^ 32 - 2 -> RiffAlignUp s = s + s mod 2.
Proof.
  intros H. unfold RiffAlignUp. change (wrap32 (Z.lnot (2 - 1))) with 4294967294.
  rewrite wrap32_small by lia. rewrite land_fffffffe by lia.
  replace (s + (2 - 1)) with (s + 1) by lia.
  pose proof (Z.mod_pos_bound s 2 ltac:(lia)).
  pose proof (Z.mod_pos_bound (s + 1) 2 ltac:(lia)).
  pose proof (Z.div_mod s 2 ltac:(lia)). pose proof (Z.div_mod (s + 1) 2 ltac:(lia)).
  lia.
Qed.

Lemma alignSize_exact s :
  0 <= s <= 2 ^ 32 - 2 -> wrap32 (RiffAlignUp s - s) = s mod 2.
Proof.
  intros H. rewrite RiffAlignUp_exact by assumption.
  pose proof (Z.mod_pos_bound s 2 ltac:(lia)).
  replace (s + s mod 2 - s) with (s mod 2) by lia. apply wrap32_small. lia.
Qed.

Lemma image_cons r rs : image (r :: rs) = bytes r ++ image rs.
Proof. reflexivity. Qed.

Lemma image_app rs1 rs2 : image (rs1 ++ rs2) = image rs1 ++ image rs2.
Proof. apply flat_map_app. Qed.

Lemma served_cons r rs st :
  readInv st -> served (image (r :: rs)) st = served (image rs) (served (bytes r) st).
Proof.
  intros (Ho & Hr & _). rewrite image_cons. symmetry. apply served_app; assumption.
Qed.

(** [readOk] follows the states [served] goes through. *)
Lemma readOk_cons ss r rs st :
  readInv st ->
  readOk ss (r :: rs) (offset st) (remainingSize st)
  = regionOk ss r (offset st) (remainingSize st)
    && readOk ss rs (offset (served (bytes r) st)) (remainingSize (served (bytes r) st)).
Proof.
  intros (Ho & Hr & _). cbn [readOk]. unfold served. cbn [offset remainingSize].
  rewrite len_slice by assumption. reflexivity.
Qed.

Lemma readOk_app ss rs1 rs2 st :
  readInv st ->
  readOk ss (rs1 ++ rs2) (offset st) (remainingSize st)
  = readOk ss rs1 (offset st) (remainingSize st)
    && readOk ss rs2 (offset (served (image rs1) st))
                     (remainingSize (served (image rs1) st)).
Proof.
  revert st. induction rs1 as [|r rs1 IH]; intros st Hinv.
  - cbn [app readOk andb]. change (image []) with (@nil Z).
    rewrite served_nil by apply Hinv. reflexivity.
  - rewrite <- app_comm_cons, !readOk_cons by assumption.
    rewrite IH by (apply served_inv; assumption).
    rewrite served_cons by assumption. rewrite andb_assoc. reflexivity.
Qed.

(** A read that is over passes every sequence of regions. *)
Lemma readOk_done ss rs : readOk ss rs 0 0 = true.
Proof.
  induction rs as [|r rs IH]; [reflexivity|]. cbn [readOk].
  pose proof (len_nonneg (bytes r)).
  replace (Z.max 0 (0 - len (bytes r))) with 0 by lia.
  replace (0 - Z.min 0 (Z.max 0 (len (bytes r) - 0))) with 0 by lia.
  rewrite IH, andb_true_r. unfold regionOk.
  destruct (kind r); [reflexivity|..].
  - change (0 =? 0) with true. rewrite orb_true_r. reflexivity.
  - apply orb_true_iff. right. apply Z.leb_le. lia.
Qed.

(** A read passes the regions that lie before its start. *)
Lemma readOk_before ss rs off rem :
  len (image rs) <= off ->
  readOk ss rs off rem = true.
Proof.
  revert off rem. induction rs as [|r rs IH]; intros off rem H; [reflexivity|].
  rewrite image_cons, len_app in H. pose proof (len_nonneg (bytes r)).
  pose proof (len_nonneg (image rs)).
  cbn [readOk]. rewrite IH by lia. rewrite andb_true_r. unfold regionOk.
  destruct (kind r); [reflexivity|..].
  - destruct (Z.leb_spec (len (bytes r)) off); [reflexivity|lia].
  - destruct (Z.leb_spec (len (bytes r)) off); [reflexivity|lia].
Qed.

End AviFrames.

Section AviFrameCopy.
Import Avi AviSpec.
Variable f : AvfsAvi2File.
Variables sample frame : Z -> list Z.
Hypothesis Hsrc : SourcesOk f sample frame.

Lemma audioRegions_image seg k :
  0 <= snd (audLocate f seg k) ->
  audioRegions f seg k
  = [mkRegion Static
       (RiffTag_bytes avfsAvi2AudFcc (snd (audLocate f seg k) * sampleSize f));
     mkRegion (AudioData (fst (audLocate f seg k)))
       (flat_map sample (seqZ (fst (audLocate f seg k)) (snd (audLocate f seg k))));
     mkRegion Pad (zeros ((snd (audLocate f seg k) * sampleSize f) mod 2))].
Proof.
  intros H. unfold audioRegions. destruct (audLocate f seg k) as [start count].
  cbn [fst snd]. rewrite (audio_ok _ _ _ Hsrc). reflexivity.
Qed.

Lemma videoRegions_image seg k :
  videoRegions f seg k
  = [mkRegion Static (RiffTag_bytes (frameVidFcc f) (frameVidDataSize f));
     mkRegion Static (frame (wrap32 (startFrame seg + k)));
     mkRegion Pad (zeros (frameVidDataSize f mod 2))].
Proof.
  unfold videoRegions. rewrite (video_ok _ _ _ Hsrc). cbn [snd].
  rewrite <- (frame_size _ _ _ Hsrc (wrap32 (startFrame seg + k))), slice_all.
  reflexivity.
Qed.

Lemma regionOk_pad ss n st :
  0 <= n -> readInv st ->
  regionOk ss (mkRegion Pad (zeros n)) (offset st) (remainingSize st) = true ->
  n <= offset st \/ remainingSize st <= n - offset st.
Proof.
  intros Hn Hinv H. unfold regionOk in H. cbn [kind bytes] in H.
  rewrite len_zeros in H. apply orb_true_iff in H. destruct H as [H|H].
  - apply Z.leb_le in H. lia.
  - apply Z.leb_le in H. lia.
Qed.

Lemma copyFrame_served seg k st :
  readInv st ->
  (k < seg_audFrameCount seg -> AudioChunkOk f seg k) ->
  0 <= frameVidDataSize f ->
  frameVidAlignSize f = frameVidDataSize f mod 2 ->
  readOk (sampleSize f) (frameRegions f seg k) (offset st) (remainingSize st) = true ->
  copyFrame f seg k st = served (image (frameRegions f seg k)) st.
Proof.
  intros Hinv Haud HF Halign Hok. unfold copyFrame, frameRegions in *.
  rewrite readOk_app in Hok by assumption. apply andb_true_iff in Hok.
  destruct Hok as [Hok1 Hok2]. rewrite image_app, <- served_app by apply Hinv.
  set (st1 := served (image (if k <? seg_audFrameCount seg then audioRegions f seg k else []))
                     st) in *.
  assert (Hinv1 : readInv st1) by (apply served_inv; assumption).
  assert (Haudio : copyAudioChunk f seg k st = st1).
  { subst st1. clear Hok2. unfold copyAudioChunk.
    destruct (Z.ltb_spec k (seg_audFrameCount seg)) as [Hk|Hk].
    2:{ change (image []) with (@nil Z). symmetry. apply served_nil, Hinv. }
    destruct (Haud Hk) as (Hss & Hcount & Hsize). unfold audChunkSize in Hsize.
    rewrite audioRegions_image in * by apply Hcount.
    fold (audLocate f seg k). destruct (audLocate f seg k) as [start count].
    cbn [fst snd] in *. cbv zeta.
    assert (0 <= count * sampleSize f) by nia.
    rewrite (wrap32_small (count * sampleSize f)) by lia.
    rewrite alignSize_exact by lia.
    rewrite !readOk_cons in Hok1 by (repeat apply served_inv; assumption).
    apply andb_true_iff in Hok1. destruct Hok1 as [_ Hok1].
    apply andb_true_iff in Hok1. destruct Hok1 as [Ha Hok1].
    apply andb_true_iff in Hok1. destruct Hok1 as [Hp _].
    cbn [bytes] in *.
    rewrite copyBlob_served by (try reflexivity; apply Hinv).
    set (sta := served (RiffTag_bytes avfsAvi2AudFcc (count * sampleSize f)) st) in *.
    assert (Hinva : readInv sta) by (apply served_inv; assumption).
    rewrite (copyAudio_served f sample frame Hsrc start count sta); try assumption.
    2:{ unfold regionOk in Ha. cbn [kind bytes] in Ha.
        rewrite (len_samples sample (sampleSize f)) in Ha
          by (try apply (sample_size _ _ _ Hsrc); lia).
        repeat (apply orb_true_iff in Ha; destruct Ha as [Ha|Ha]).
        - left. apply Z.leb_le in Ha. exact Ha.
        - right. left. apply Z.eqb_eq in Ha. exact Ha.
        - right. right. left. apply Z.eqb_eq in Ha. exact Ha.
        - right. right. right. apply Z.eqb_eq in Ha. exact Ha. }
    set (stb := served (flat_map sample (seqZ start count)) sta) in *.
    assert (Hinvb : readInv stb) by (apply served_inv; assumption).
    pose proof (Z.mod_pos_bound (count * sampleSize f) 2 ltac:(lia)).
    rewrite copyPad_served; try assumption; try lia.
    2:{ apply (regionOk_pad (sampleSize f)); try assumption. lia. }
    rewrite !served_cons by (repeat apply served_inv; assumption).
    change (image []) with (@nil Z). rewrite served_nil; [reflexivity|].
    apply served_inv. assumption. }
  rewrite Haudio. clear Haudio. unfold copyVideoChunk.
  destruct (Z.ltb_spec k (seg_vidFrameCount seg)) as [Hk|Hk].
  2:{ change (image []) with (@nil Z). symmetry. apply served_nil, Hinv1. }
  rewrite videoRegions_image in *.
  rewrite !readOk_cons in Hok2 by (repeat apply served_inv; assumption).
  apply andb_true_iff in Hok2. destruct Hok2 as [_ Hok2].
  apply andb_true_iff in Hok2. destruct Hok2 as [_ Hok2].
  apply andb_true_iff in Hok2. destruct Hok2 as [Hp _].
  cbn [bytes] in *.
  rewrite copyBlob_served by (try reflexivity; apply Hinv1).
  set (sta := served (RiffTag_bytes (frameVidFcc f) (frameVidDataSize f)) st1) in *.
  assert (Hinva : readInv sta) by (apply served_inv; assumption).
  rewrite (copyVideo_served f sample frame Hsrc) by assumption.
  set (stb := served (frame (wrap32 (startFrame seg + k))) sta) in *.
  assert (Hinvb : readInv stb) by (apply served_inv; assumption).
  pose proof (Z.mod_pos_bound (frameVidDataSize f) 2 ltac:(lia)).
  rewrite Halign.
  rewrite copyPad_served; try assumption; try lia.
  2:{ apply (regionOk_pad (sampleSize f)); try assumption. lia. }
  rewrite !served_cons by (repeat apply served_inv; assumption).
  change (image []) with (@nil Z). rewrite served_nil; [reflexivity|].
  apply served_inv. assumption.
Qed.

End AviFrameCopy.

Section AviSearch.
Import Avi AviSpec.

Lemma land_pow2_multiple i k :
  0 <= k -> i mod 2 ^ (k + 1) = 0 -> Z.land i (2 ^ k) = 0.
Proof.
  intros Hk Hi. apply Z.bits_inj'. intros n Hn.
  rewrite Z.land_spec, Z.bits_0, Z.pow2_bits_eqb by assumption.
  destruct (Z.eqb_spec k n) as [<-|Hne]; [|apply andb_false_r].
  rewrite andb_true_r.
  assert (2 ^ (k + 1) > 0) by (apply Z.lt_gt, Z.pow_pos_nonneg; lia).
  rewrite (Z_div_mod_eq_full i (2 ^ (k + 1))), Hi, Z.add_0_r, Z.mul_comm.
  apply Z.mul_pow2_bits_low. lia.
Qed.

Lemma lor_pow2 i k :
  0 <= k -> i mod 2 ^ (k + 1) = 0 -> Z.lor i (2 ^ k) = i + 2 ^ k.
Proof.
  intros Hk Hi. pose proof (Z.add_lor_land i (2 ^ k)) as H.
  rewrite land_pow2_multiple in H by assumption. lia.
Qed.

Lemma clear_pow2 i k :
  0 <= k -> i mod 2 ^ (k + 1) = 0 -> 0 <= i -> i + 2 ^ k < 2 ^ 32 ->
  Z.land (i + 2 ^ k) (wrap32 (Z.lnot (2 ^ k))) = i.
Proof.
  intros Hk Hi H0 Hlt. unfold wrap32.
  assert (0 < 2 ^ k) by (apply Z.pow_pos_nonneg; lia).
  rewrite <- Z.land_ones by lia.
  rewrite (Z.land_comm (Z.lnot _)), Z.land_assoc, Z.land_ones by lia.
  rewrite Z.mod_small by lia.
  rewrite <- lor_pow2 by assumption.
  pose proof (land_pow2_multiple i k Hk Hi) as Hland.
  apply Z.bits_inj'. intros n Hn.
  rewrite Z.land_spec, Z.lor_spec, Z.lnot_spec by assumption.
  assert (Hb : Z.testbit i n && Z.testbit (2 ^ k) n = false).
  { rewrite <- Z.land_spec, Hland. apply Z.bits_0. }
  destruct (Z.testbit i n), (Z.testbit (2 ^ k) n); cbn in *; congruence.
Qed.

Lemma growBit_pow2 n fuel j :
  1 <= n <= 2 ^ 31 -> 0 <= j <= 31 -> 31 - j < Z.of_nat fuel ->
  exists k, j <= k <= 31 /\ growBit fuel (2 ^ j) n = Some (2 ^ k) /\ n <= 2 ^ k.
Proof.
  intros Hn. revert j. induction fuel as [|fuel IH]; intros j Hj Hfuel; [lia|].
  cbn [growBit]. destruct (Z.ltb_spec (2 ^ j) n) as [Hlt|Hge].
  - assert (j < 31).
    { destruct (Z.eq_dec j 31) as [->|]; lia. }
    rewrite Z.shiftl_mul_pow2 by lia. change (2 ^ 1) with 2.
    replace (2 ^ j * 2) with (2 ^ (j + 1)) by (rewrite Z.pow_add_r by lia; lia).
    assert (2 ^ (j + 1) <= 2 ^ 31) by (apply Z.pow_le_mono_r; lia).
    assert (0 < 2 ^ (j + 1)) by (apply Z.pow_pos_nonneg; lia).
    rewrite wrap32_small by lia.
    destruct (IH (j + 1)) as (k & Hk & Hg & Hle); [lia|lia|].
    exists k. repeat split; try lia; assumption.
  - exists j. repeat split; try lia.
Qed.

Section Search.
Variables (n : Z) (key : Z -> Z) (x : Z).

Lemma searchBits_floor fuel k i :
  0 <= k <= 31 -> k < Z.of_nat fuel ->
  i mod 2 ^ k = 0 -> i + 2 ^ k <= 2 ^ 31 ->
  below n key x i -> ~ below n key x (i + 2 ^ k) ->
  let r := searchBits fuel (2 ^ k) i n key x in below n key x r /\ ~ below n key x (r + 1).
Proof.
  revert k i. induction fuel as [|fuel IH]; intros k i Hk Hfuel Hmod Hle Hi Hni; [lia|].
  cbn [searchBits]. rewrite Z.shiftr_div_pow2 by lia. change (2 ^ 1) with 2.
  destruct (Z.eq_dec k 0) as [->|Hk0].
  { change (2 ^ 0 / 2) with 0. cbn. change (2 ^ 0) with 1 in Hni. split; assumption. }
  replace (2 ^ k) with (2 ^ (k - 1) * 2) in *
    by (rewrite Z.mul_comm, <- Z.pow_succ_r by lia; f_equal; lia).
  rewrite Z.div_mul by lia.
  assert (Hpos : 0 < 2 ^ (k - 1)) by (apply Z.pow_pos_nonneg; lia).
  destruct (Z.eqb_spec (2 ^ (k - 1)) 0); [lia|].
  assert (Hmod' : i mod 2 ^ (k - 1 + 1) = 0).
  { replace (2 ^ (k - 1 + 1)) with (2 ^ (k - 1) * 2); [assumption|].
    rewrite Z.pow_add_r by lia. reflexivity. }
  rewrite lor_pow2 by (try assumption; lia).
  destruct Hi as [Hi0 Hix].
  destruct ((i + 2 ^ (k - 1) >=? n) || (key (i + 2 ^ (k - 1)) >? x)) eqn:Htest.
  - rewrite clear_pow2 by (try assumption; lia).
    apply IH; try lia; try assumption.
    + rewrite Z.rem_mul_r in Hmod by lia.
      pose proof (Z.mod_pos_bound i (2 ^ (k - 1)) Hpos).
      pose proof (Z.mod_pos_bound (i / 2 ^ (k - 1)) 2 ltac:(lia)). nia.
    + split; assumption.
    + intros [Hb1 Hb2]. apply orb_true_iff in Htest. destruct Htest as [Ht|Ht].
      * apply Z.geb_le in Ht. lia.
      * apply Z.gtb_lt in Ht. lia.
  - apply orb_false_iff in Htest. destruct Htest as [Ht1 Ht2].
    apply IH; try lia.
    + rewrite Z.rem_mul_r in Hmod by lia.
      pose proof (Z.mod_pos_bound i (2 ^ (k - 1)) Hpos).
      pose proof (Z.mod_pos_bound (i / 2 ^ (k - 1)) 2 ltac:(lia)).
      assert (Him : i mod 2 ^ (k - 1) = 0) by nia.
      rewrite <- Z.add_mod_idemp_l, Him by lia. cbn [Z.add].
      apply Z.mod_same. lia.
    + split.
      * destruct (Z.geb_spec (i + 2 ^ (k - 1)) n); [discriminate|]. lia.
      * destruct (Z.gtb_spec (key (i + 2 ^ (k - 1))) x); [discriminate|]. lia.
    + replace (i + 2 ^ (k - 1) + 2 ^ (k - 1)) with (i + 2 ^ (k - 1) * 2) by lia.
      assumption.
Qed.

Lemma binarySearch_floor :
  1 <= n <= 2 ^ 31 -> key 0 <= x ->
  exists i, binarySearch n key x = Some i /\ below n key x i /\ ~ below n key x (i + 1).
Proof.
  intros Hn Hx. unfold binarySearch.
  destruct (growBit_pow2 n 34 0 Hn) as (k & Hk & Hg & Hle); [lia|lia|].
  change (2 ^ 0) with 1 in Hg. rewrite Hg. cbn [mbind option_bind].
  eexists. split; [reflexivity|].
  apply searchBits_floor; try lia.
  - apply Z.mod_0_l. assert (0 < 2 ^ k) by (apply Z.pow_pos_nonneg; lia). lia.
  - cbn [Z.add]. apply Z.pow_le_mono_r; lia.
  - split; [lia|assumption].
  - intros [Hb _]. lia.
Qed.

End Search.
End AviSearch.

Section AviSegment.
Import Avi AviSpec.
Variable f : AvfsAvi2File.
Variables sample frame : Z -> list Z.
Hypothesis Hsrc : SourcesOk f sample frame.

Hypothesis HF : 0 <= frameVidDataSize f.
Hypothesis Halign : frameVidAlignSize f = frameVidDataSize f mod 2.

Lemma served_skip R st :
  len R <= offset st ->
  served R st = mkRead (buffer st) (remainingSize st) (offset st - len R) (success st).
Proof.
  intros H. unfold served. rewrite slice_ge by assumption. rewrite app_nil_r.
  change (len []) with 0. f_equal; lia.
Qed.

Lemma readInv_skip st n :
  readInv st -> 0 <= n <= offset st ->
  readInv (mkRead (buffer st) (remainingSize st) (offset st - n) (success st)).
Proof.
  intros (Ho & Hr & Hz & Hs) Hn. unfold readInv. cbn [offset remainingSize success].
  split; [lia|]. split; [lia|]. split; [|assumption]. intros H0. specialize (Hz H0). lia.
Qed.

Lemma len_frameRegions seg k :
  (k < seg_audFrameCount seg -> AudioChunkOk f seg k) ->
  len (image (frameRegions f seg k)) = frameSize f seg k.
Proof.
  intros Haud. unfold frameRegions, frameSize, audPart, vidPart, audChunkSize in *.
  rewrite image_app, len_app. f_equal.
  - destruct (Z.ltb_spec k (seg_audFrameCount seg)) as [Hk|Hk]; [|reflexivity].
    destruct (Haud Hk) as (Hss & Hc & Hsz). unfold audChunkSize in Hsz.
    rewrite (audioRegions_image f sample frame Hsrc) by apply Hc.
    rewrite !image_cons. cbn [bytes]. change (image []) with (@nil Z).
    rewrite !len_app, len_RiffTag, len_zeros.
    rewrite (len_samples sample (sampleSize f)) by (try apply (sample_size _ _ _ Hsrc); lia).
    change (len []) with 0. cbv zeta.
    pose proof (Z.mod_pos_bound (snd (audLocate f seg k) * sampleSize f) 2 ltac:(lia)). lia.
  - destruct (Z.ltb_spec k (seg_vidFrameCount seg)) as [Hk|Hk]; [|reflexivity].
    rewrite (videoRegions_image f sample frame Hsrc).
    rewrite !image_cons. cbn [bytes]. change (image []) with (@nil Z).
    rewrite !len_app, len_RiffTag, len_zeros, (frame_size _ _ _ Hsrc).
    change (len []) with 0.
    pose proof (Z.mod_pos_bound (frameVidDataSize f) 2 ltac:(lia)). lia.
Qed.

Lemma len_frames seg k n :
  0 <= k -> 0 <= n -> k + n <= frameCount seg -> SegOk f seg ->
  len (image (flat_map (frameRegions f seg) (seqZ k n)))
  = sumZ (frameSize f seg <$> seqZ k n).
Proof.
  intros Hk Hn Hle Hseg. revert k Hk Hle. pattern n.
  apply natlike_ind; [|clear n Hn|assumption].
  - intros. reflexivity.
  - intros n Hn IH k Hk Hle. rewrite seqZ_cons by lia. cbn [flat_map fmap list_fmap].
    rewrite image_app, len_app. replace (Z.pred (Z.succ n)) with n by lia.
    unfold sumZ. cbn [fold_right]. fold (sumZ (frameSize f seg <$> seqZ (Z.succ k) n)).
    rewrite IH by lia. rewrite len_frameRegions; [reflexivity|].
    intros Hka. apply (seg_audio _ _ Hseg). lia.
Qed.

Lemma frameWalk_served seg n k st :
  SegOk f seg -> readInv st -> 0 <= k -> n = Z.to_nat (frameCount seg - k) ->
  readOk (sampleSize f) (flat_map (frameRegions f seg) (seqZ k (frameCount seg - k)))
         (offset st) (remainingSize st) = true ->
  frameWalk n f seg k st
  = served (image (flat_map (frameRegions f seg) (seqZ k (frameCount seg - k)))) st.
Proof.
  intros Hseg. revert k st. induction n as [|n IH]; intros k st Hinv Hk Hn Hok.
  - cbn [frameWalk]. unfold seqZ. rewrite <- Hn. cbn [seq fmap list_fmap flat_map].
    change (image []) with (@nil Z). symmetry. apply served_nil, Hinv.
  - cbn [frameWalk]. destruct (Z.eqb_spec (remainingSize st) 0) as [H0|H0]; cbn [negb andb].
    { symmetry. apply served_done; assumption. }
    destruct (Z.ltb_spec k (frameCount seg)); [|lia].
    rewrite seqZ_cons in * by lia. cbn [flat_map] in *.
    replace (Z.pred (frameCount seg - k)) with (frameCount seg - (k + 1)) in * by lia.
    replace (Z.succ k) with (k + 1) in * by lia.
    rewrite readOk_app in Hok by assumption. apply andb_true_iff in Hok.
    destruct Hok as [Hok1 Hok2].
    rewrite image_app, <- served_app by apply Hinv.
    rewrite (copyFrame_served f sample frame Hsrc); try assumption.
    + apply IH; try assumption; try lia. apply served_inv. assumption.
    + intros Hka. apply (seg_audio _ _ Hseg). lia.
Qed.

Lemma readSeg_served seg st :
  SegOk f seg -> readInv st ->
  readOk (sampleSize f) (segRegions f seg) (offset st) (remainingSize st) = true ->
  readSeg f seg st = Ret (served (segImage f seg) st).
Proof.
  intros Hseg Hinv Hok. unfold readSeg, segImage, segRegions in *.
  rewrite readOk_app in Hok by assumption. apply andb_true_iff in Hok.
  destruct Hok as [_ Hok].
  rewrite image_app, <- served_app by apply Hinv.
  change (image [mkRegion Static (hdr_buf seg)]) with (hdr_buf seg ++ []) in *.
  rewrite app_nil_r in *.
  rewrite copyBlob_served by (try apply (seg_hdr _ _ Hseg); apply Hinv).
  set (st1 := served (hdr_buf seg) st) in *.
  assert (Hinv1 : readInv st1) by (apply served_inv; assumption).
  rewrite readOk_app in Hok by assumption. apply andb_true_iff in Hok.
  destruct Hok as [Hok _].
  rewrite image_app, <- served_app by apply Hinv1.
  set (FR := flat_map (frameRegions f seg) (seqZ 0 (frameCount seg))) in *.
  pose proof (seg_frames _ _ Hseg) as Hfc.
  assert (HlenFR : len (image FR) = dataSize seg).
  { rewrite (seg_data _ _ Hseg). apply len_frames; try assumption; lia. }
  assert (Hmid :
    (if offset st1 >=? dataSize seg
     then Ret (UINT_MAX,
               mkRead (buffer st1) (remainingSize st1) (offset st1 - dataSize seg)
                      (success st1))
     else
       match binarySearch (frameCount seg) (frameIndxAt seg) (offset st1) with
       | Some segFrame =>
           Ret (segFrame,
                mkRead (buffer st1) (remainingSize st1)
                       (offset st1 - frameIndxAt seg segFrame) (success st1))
       | None => Undefined
       end)
    = Ret (UINT_MAX, served (image FR) st1)
    \/ exists i, 0 <= i < frameCount seg /\ frameIndxAt seg i <= offset st1
       /\ (if offset st1 >=? dataSize seg
           then Ret (UINT_MAX,
                     mkRead (buffer st1) (remainingSize st1) (offset st1 - dataSize seg)
                            (success st1))
           else
             match binarySearch (frameCount seg) (frameIndxAt seg) (offset st1) with
             | Some segFrame =>
                 Ret (segFrame,
                      mkRead (buffer st1) (remainingSize st1)
                             (offset st1 - frameIndxAt seg segFrame) (success st1))
             | None => Undefined
             end)
          = Ret (i, mkRead (buffer st1) (remainingSize st1)
                           (offset st1 - frameIndxAt seg i) (success st1))).
  { destruct (Z.geb_spec (offset st1) (dataSize seg)) as [Hge|Hlt].
    - left. rewrite served_skip by lia. rewrite HlenFR. reflexivity.
    - right. assert (Hfc1 : 1 <= frameCount seg).
      { destruct (Z.eq_dec (frameCount seg) 0) as [H0|H0]; [|lia].
        exfalso. subst FR. rewrite H0 in HlenFR. change (len (image (flat_map _ (seqZ 0 0)))) with 0 in HlenFR.
        destruct Hinv1. lia. }
      destruct (binarySearch_floor (frameCount seg) (frameIndxAt seg) (offset st1))
        as (i & Hb & (Hi & Hkey) & _); [lia| |].
      { rewrite (seg_indx _ _ Hseg) by lia. change (moviOffset _ _ _) with 0. apply Hinv1. }
      exists i. rewrite Hb. repeat split; try lia. }
  assert (Hframes :
    (found ←
      (if offset st1 >=? dataSize seg
       then Ret (UINT_MAX,
                 mkRead (buffer st1) (remainingSize st1) (offset st1 - dataSize seg)
                        (success st1))
       else
         match binarySearch (frameCount seg) (frameIndxAt seg) (offset st1) with
         | Some segFrame =>
             Ret (segFrame,
                  mkRead (buffer st1) (remainingSize st1)
                         (offset st1 - frameIndxAt seg segFrame) (success st1))
         | None => Undefined
         end);
      Ret (let '(segFrame, st) := found in
           frameWalk (Z.to_nat (frameCount seg - segFrame)) f seg segFrame st))
    = Ret (served (image FR) st1)).
  { destruct Hmid as [Hmid|(i & Hi & Hkey & Hmid)]; rewrite Hmid; cbn [mbind Outcome_bind].
    - replace (Z.to_nat (frameCount seg - UINT_MAX)) with 0%nat
        by (unfold UINT_MAX; lia). reflexivity.
    - f_equal. subst FR.
      assert (Hsplit : seqZ 0 (frameCount seg) = seqZ 0 i ++ seqZ i (frameCount seg - i)).
      { replace (frameCount seg) with (i + (frameCount seg - i)) at 1 by lia.
        rewrite seqZ_app by lia. reflexivity. }
      rewrite Hsplit, flat_map_app in *.
      set (FR1 := flat_map (frameRegions f seg) (seqZ 0 i)) in *.
      assert (Hlen1 : len (image FR1) = frameIndxAt seg i).
      { rewrite (seg_indx _ _ Hseg) by lia. apply len_frames; try assumption; lia. }
      rewrite image_app, <- served_app by apply Hinv1.
      rewrite (served_skip (image FR1)) by lia. rewrite Hlen1.
      apply frameWalk_served; try assumption; try lia.
      + apply readInv_skip; [assumption|]. pose proof (len_nonneg (image FR1)). lia.
      + cbn [offset remainingSize].
        rewrite readOk_app in Hok by assumption. apply andb_true_iff in Hok.
        destruct Hok as [_ Hok]. fold FR1 in Hok.
        rewrite (served_skip (image FR1)) in Hok by lia. rewrite Hlen1 in Hok.
        exact Hok. }
  revert Hframes.
  destruct (if offset st1 >=? dataSize seg then _ else _) as [[segFrame st2]| |];
    cbn [mbind Outcome_bind]; intros Hframes; try discriminate.
  injection Hframes as Hframes. rewrite Hframes.
  set (st3 := served (image FR) st1) in *.
  assert (Hinv3 : readInv st3) by (apply served_inv; assumption).
  f_equal.
  rewrite (copyIndexPad_served indxPrePadSize st3)
    by (try assumption; unfold indxPrePadSize; lia).
  set (st4 := served (bytes (junkRegion indxPrePadSize)) st3).
  assert (Hinv4 : readInv st4) by (apply served_inv; assumption).
  rewrite (copyBlob_served (vidIndx_bytes seg) _ st4)
    by (try apply (seg_vidIndx _ _ Hseg); apply Hinv4).
  set (st5 := served (vidIndx_bytes seg) st4).
  assert (Hinv5 : readInv st5) by (apply served_inv; assumption).
  rewrite (copyBlob_served (audIndx_bytes seg) _ st5)
    by (try apply (seg_audIndx _ _ Hseg); apply Hinv5).
  set (st6 := served (audIndx_bytes seg) st5).
  assert (Hinv6 : readInv st6) by (apply served_inv; assumption).
  rewrite (copyBlob_served (oldIndx_bytes seg) _ st6)
    by (try apply (seg_oldIndx _ _ Hseg); apply Hinv6).
  set (st7 := served (oldIndx_bytes seg) st6).
  assert (Hinv7 : readInv st7) by (apply served_inv; assumption).
  rewrite (copyIndexPad_served indxPostPadSize st7)
    by (try assumption; unfold indxPostPadSize; lia).
  subst st7 st6 st5 st4.
  rewrite !served_cons by (repeat apply served_inv; assumption).
  cbn [bytes]. change (image []) with (@nil Z).
  rewrite served_nil; [reflexivity|].
  repeat apply served_inv. assumption.
Qed.

End AviSegment.

Section AviFile.
Import Avi AviSpec.
Variable f : AvfsAvi2File.
Variables sample frame : Z -> list Z.
Hypothesis Hsrc : SourcesOk f sample frame.

Hypothesis Hfile : FileOk f.

Lemma len_junkRegion n : 8 <= n -> len (bytes (junkRegion n)) = n.
Proof.
  intros H. unfold junkRegion. cbn [bytes]. rewrite len_app, len_RiffTag, len_zeros. lia.
Qed.

Lemma len_segImage seg :
  len (segImage f seg)
  = len (hdr_buf seg)
    + len (image (flat_map (frameRegions f seg) (seqZ 0 (frameCount seg))))
    + indxPrePadSize + len (vidIndx_bytes seg) + len (audIndx_bytes seg)
    + len (oldIndx_bytes seg) + indxPostPadSize.
Proof.
  unfold segImage, segRegions. rewrite !image_app, !len_app, !image_cons.
  change (image []) with (@nil Z). rewrite !len_app. cbn [bytes].
  rewrite !len_junkRegion by (unfold indxPrePadSize, indxPostPadSize; lia).
  change (len []) with 0. lia.
Qed.

Lemma len_segImage_pos seg : 0 < len (segImage f seg).
Proof.
  rewrite len_segImage.
  pose proof (len_nonneg (hdr_buf seg)).
  pose proof (len_nonneg (image (flat_map (frameRegions f seg) (seqZ 0 (frameCount seg))))).
  pose proof (len_nonneg (vidIndx_bytes seg)). pose proof (len_nonneg (audIndx_bytes seg)).
  pose proof (len_nonneg (oldIndx_bytes seg)).
  unfold indxPrePadSize, indxPostPadSize. lia.
Qed.

Lemma readSegs_served ss st :
  Forall (SegOk f) ss -> readInv st ->
  match ss with seg :: _ => offset st < len (segImage f seg) | [] => True end ->
  offset st + remainingSize st <= len (image (flat_map (segRegions f) ss)) ->
  readOk (sampleSize f) (flat_map (segRegions f) ss) (offset st) (remainingSize st) = true ->
  readSegs ss f st = Ret (served (image (flat_map (segRegions f) ss)) st).
Proof.
  intros Hss. revert st. induction Hss as [|seg ss Hseg Hss IH]; intros st Hinv Hoff Hlen Hok.
  - cbn [readSegs flat_map] in *. change (len (image [])) with 0 in Hlen.
    destruct Hinv as (Ho & Hr & Hz & Hs).
    destruct (Z.eqb_spec (remainingSize st) 0); [|lia]. rewrite andb_false_r.
    change (image []) with (@nil Z). rewrite served_nil by assumption. reflexivity.
  - cbn [readSegs flat_map] in *.
    destruct (Z.eqb_spec (remainingSize st) 0) as [H0|H0].
    { rewrite andb_false_r. rewrite served_done by assumption. reflexivity. }
    destruct Hinv as (Ho & Hr & Hz & Hs). rewrite Hs. cbn [negb andb].
    assert (Hinv : readInv st) by (repeat split; assumption).
    rewrite readOk_app in Hok by assumption. apply andb_true_iff in Hok.
    destruct Hok as [Hok1 Hok2].
    rewrite (readSeg_served f sample frame Hsrc (file_vid _ Hfile) (file_align _ Hfile))
      by assumption.
    cbn [mbind Outcome_bind]. rewrite image_app, <- served_app by assumption.
    fold (segImage f seg) in *.
    set (st1 := served (segImage f seg) st) in *.
    assert (Hinv1 : readInv st1) by (apply served_inv; assumption).
    assert (Ho1 : offset st1 = 0) by (subst st1; unfold served; cbn [offset]; lia).
    assert (Hst1 : mkRead (buffer st1) (remainingSize st1) 0 (success st1) = st1).
    { rewrite <- Ho1. destruct st1; reflexivity. }
    rewrite Hst1. apply IH; try assumption.
    + rewrite Ho1. destruct ss; [exact I|]. apply len_segImage_pos.
    + rewrite Ho1. subst st1. unfold served. cbn [remainingSize].
      rewrite len_slice by lia. rewrite image_app, len_app in Hlen.
      fold (segImage f seg) in Hlen.
      pose proof (len_nonneg (image (flat_map (segRegions f) ss))). lia.
Qed.

Lemma image_take_drop i :
  fileImage f
  = image (flat_map (segRegions f) (take i (segs f)))
    ++ image (flat_map (segRegions f) (drop i (segs f))).
Proof.
  unfold fileImage, fileRegions. rewrite <- image_app, <- flat_map_app, take_drop.
  reflexivity.
Qed.

Lemma startOffsetAt_prefix i :
  0 <= i < fileSegCount f ->
  startOffsetAt f i
  = len (image (flat_map (segRegions f) (take (Z.to_nat i) (segs f)))).
Proof.
  intros Hi. unfold startOffsetAt.
  destruct (lookup_lt_is_Some_2 (segs f) (Z.to_nat i)) as [seg Hseg].
  { rewrite (file_count _ Hfile) in Hi. lia. }
  rewrite Hseg. cbn. apply (file_start _ Hfile). assumption.
Qed.

(** [ReadMedia] serves the bytes of the reference image. *)
Lemma ReadMedia_image off size :
  0 <= off -> 0 < size -> off + size <= len (fileImage f) ->
  readOk (sampleSize f) (fileRegions f) off size = true ->
  ReadMedia f off size = Ret (true, slice off size (fileImage f)).
Proof.
  intros Hoff Hsize Hle Hok. unfold ReadMedia.
  pose proof (file_count_bounds _ Hfile) as Hcnt.
  destruct (binarySearch_floor (fileSegCount f) (startOffsetAt f) off)
    as (i & Hb & (Hi & Hkey) & Hnext); [lia| |].
  { rewrite startOffsetAt_prefix by lia. cbn [Z.to_nat take flat_map].
    change (len (image [])) with 0. assumption. }
  rewrite Hb. rewrite startOffsetAt_prefix in * by lia.
  destruct (lookup_lt_is_Some_2 (segs f) (Z.to_nat i)) as [seg Hseg].
  { rewrite (file_count _ Hfile) in Hi. lia. }
  pose proof (drop_S _ _ _ Hseg) as Hdrop.
  set (before := image (flat_map (segRegions f) (take (Z.to_nat i) (segs f)))) in *.
  assert (Hin : seg ∈ segs f) by (eapply list_elem_of_lookup_2; eassumption).
  pose proof (file_seg_size _ Hfile seg Hin) as Hsmall.
  assert (Hlt : off - len before < len (segImage f seg)).
  { destruct (Z.eq_dec (i + 1) (fileSegCount f)) as [Hlast|Hnot].
    - rewrite (image_take_drop (Z.to_nat i)) in Hle. fold before in Hle.
      rewrite Hdrop in Hle. rewrite drop_ge in Hle
        by (rewrite (file_count _ Hfile) in Hlast; lia).
      cbn [flat_map] in Hle. rewrite app_nil_r in Hle. fold (segImage f seg) in Hle.
      rewrite len_app in Hle. lia.
    - assert (Hn : ~ (0 <= i + 1 < fileSegCount f /\ startOffsetAt f (i + 1) <= off))
        by exact Hnext.
      rewrite startOffsetAt_prefix in Hn by lia.
      replace (Z.to_nat (i + 1)) with (S (Z.to_nat i)) in Hn by lia.
      rewrite (take_S_r _ _ _ Hseg), flat_map_app, image_app, len_app in Hn.
      fold before in Hn. cbn [flat_map] in Hn. rewrite app_nil_r in Hn.
      fold (segImage f seg) in Hn. lia. }
  rewrite wrap32_small by lia.
  set (st0 := mkRead [] size off true).
  assert (Hinv0 : readInv st0) by (repeat split; cbn; lia).
  assert (Hskip : mkRead [] size (off - len before) true = served before st0).
  { rewrite served_skip by (cbn; lia). reflexivity. }
  rewrite Hskip.
  unfold fileRegions in Hok. rewrite <- (take_drop (Z.to_nat i) (segs f)) in Hok.
  rewrite flat_map_app in Hok.
  change off with (offset st0) in Hok at 1. change size with (remainingSize st0) in Hok at 1.
  rewrite readOk_app in Hok by assumption. apply andb_true_iff in Hok.
  destruct Hok as [_ Hok]. fold before in Hok.
  rewrite readSegs_served.
  - cbn [mbind Outcome_bind]. rewrite served_app by (cbn; lia).
    unfold before. rewrite <- image_take_drop. unfold served, st0.
    cbn [buffer success offset remainingSize app]. reflexivity.
  - apply Forall_drop, (file_segs _ Hfile).
  - apply served_inv. assumption.
  - rewrite Hdrop. rewrite <- Hskip. cbn [offset]. assumption.
  - rewrite <- Hskip. cbn [offset remainingSize].
    rewrite (image_take_drop (Z.to_nat i)) in Hle. fold before in Hle.
    rewrite len_app in Hle. lia.
  - assumption.
Qed.

End AviFile.

Section AviInitFrames.
Import Avi AviSpec.
Variable f : AvfsAvi2File.
Hypothesis Hss : 0 <= sampleSize f.
Hypothesis HF : 0 <= frameVidDataSize f.
Hypothesis Halign : frameVidAlignSize f = frameVidDataSize f mod 2.

Lemma wrap32_range z : 0 <= wrap32 z < 2 ^ 32.
Proof. unfold wrap32. apply Z.mod_pos_bound. lia. Qed.

Lemma LocateFrameSamples_count frame count :
  0 <= snd (LocateFrameSamples f frame count) < 2 ^ 32.
Proof. unfold LocateFrameSamples. cbn [snd]. apply wrap32_range. Qed.

Lemma audChunkSize_nonneg seg k : 0 <= audChunkSize f seg k.
Proof.
  unfold audChunkSize, audLocate.
  pose proof (LocateFrameSamples_count (wrap32 (startFrame seg + k))
    (if k + 1 =? seg_audFrameCount seg then wrap32 (lastAudFramePackCount seg + 1) else 1)).
  nia.
Qed.

Lemma audPart_nonneg seg k : 0 <= audPart f seg k.
Proof.
  unfold audPart. pose proof (audChunkSize_nonneg seg k).
  pose proof (Z.mod_pos_bound (audChunkSize f seg k) 2 ltac:(lia)).
  destruct (k <? seg_audFrameCount seg); lia.
Qed.

Lemma vidPart_nonneg seg k : 0 <= vidPart f seg k.
Proof.
  unfold vidPart. pose proof (Z.mod_pos_bound (frameVidDataSize f) 2 ltac:(lia)).
  destruct (k <? seg_vidFrameCount seg); lia.
Qed.

Lemma frameSize_nonneg seg k : 0 <= frameSize f seg k.
Proof.
  unfold frameSize. pose proof (audPart_nonneg seg k). pose proof (vidPart_nonneg seg k). lia.
Qed.

Lemma sumZ_app l k : sumZ (l ++ k) = sumZ l + sumZ k.
Proof. induction l as [|x l IH]; cbn; [reflexivity|]. unfold sumZ in *. lia. Qed.

Lemma sumZ_cons x l : sumZ (x :: l) = x + sumZ l.
Proof. reflexivity. Qed.

Lemma sumZ_frames_nonneg seg k n : 0 <= sumZ (frameSize f seg <$> seqZ k n).
Proof.
  unfold seqZ. rewrite <- list_fmap_compose.
  induction (seq 0 (Z.to_nat n)) as [|x l IH]; cbn; [lia|].
  change (fold_right Z.add 0 ?l) with (sumZ l).
  pose proof (frameSize_nonneg seg (Z.of_nat x + k)). cbn in *. lia.
Qed.

Lemma sumZ_frames_split seg k a n :
  0 <= a <= n ->
  sumZ (frameSize f seg <$> seqZ k n)
  = sumZ (frameSize f seg <$> seqZ k a) + sumZ (frameSize f seg <$> seqZ (k + a) (n - a)).
Proof.
  intros H. replace n with (a + (n - a)) at 1 by lia.
  rewrite seqZ_app, fmap_app, sumZ_app by lia. reflexivity.
Qed.

Lemma sumZ_frames_succ seg k n :
  0 <= n ->
  sumZ (frameSize f seg <$> seqZ k (n + 1))
  = sumZ (frameSize f seg <$> seqZ k n) + frameSize f seg (k + n).
Proof.
  intros H. rewrite (sumZ_frames_split seg k n (n + 1)) by lia.
  replace (n + 1 - n) with 1 by lia. change (seqZ (k + n) 1) with [0 + (k + n)].
  cbn [fmap list_fmap]. rewrite sumZ_cons. change (sumZ []) with 0.
  rewrite Z.add_0_l, Z.add_0_r. reflexivity.
Qed.

Lemma moviOffset_succ seg k :
  0 <= k -> moviOffset f seg (k + 1) = moviOffset f seg k + frameSize f seg k.
Proof. intros H. unfold moviOffset. rewrite sumZ_frames_succ by lia. reflexivity. Qed.

Lemma moviOffset_mono seg k n :
  0 <= k <= n -> moviOffset f seg k <= moviOffset f seg n.
Proof.
  intros H. unfold moviOffset. rewrite (sumZ_frames_split seg 0 k n) by lia.
  pose proof (sumZ_frames_nonneg seg (0 + k) (n - k)). lia.
Qed.

(** What the frame loop leaves for the frames [k .. k+n-1] when it enters
    frame [k] with [segDataSize = moviOffset k]: every value in exact
    arithmetic, provided the layout stays below 4 GB. *)
Lemma frameLoop_exact seg old hs n k :
  0 <= k -> 0 <= hs ->
  hs + moviOffset f seg (k + Z.of_nat n) + 8 < 2 ^ 32 ->
  frameLoop n f old (startFrame seg) (seg_audFrameCount seg) (lastAudFramePackCount seg)
            (seg_vidFrameCount seg) hs k (moviOffset f seg k)
  = (moviOffset f seg <$> seqZ k (Z.of_nat n),
     flat_map (audEntry f seg hs) (seqZ k (Z.of_nat n)),
     flat_map (vidEntry f seg hs) (seqZ k (Z.of_nat n)),
     flat_map (oldEntry f seg old hs) (seqZ k (Z.of_nat n)),
     moviOffset f seg (k + Z.of_nat n)).
Proof.
  revert k. induction n as [|n IH]; intros k Hk Hhs Hbound.
  { cbn [frameLoop]. rewrite Z.add_0_r. reflexivity. }
  cbn [frameLoop].
  replace (k + Z.of_nat (S n)) with (k + 1 + Z.of_nat n) in * by lia.
  pose proof (moviOffset_mono seg (k + 1) (k + 1 + Z.of_nat n) ltac:(lia)) as Hmono.
  pose proof (moviOffset_succ seg k Hk) as Hsucc.
  pose proof (sumZ_frames_nonneg seg 0 k) as Hnn. fold (moviOffset f seg k) in Hnn.
  pose proof (audPart_nonneg seg k) as Hap. pose proof (vidPart_nonneg seg k) as Hvp.
  unfold frameSize in Hsucc.
  assert (Haud :
    (if k <? seg_audFrameCount seg
     then
       ([mkIndxEntry (wrap32 (hs + moviOffset f seg k + sizeof_RiffTag))
           (frameAudDataSize f (startFrame seg) (seg_audFrameCount seg)
              (lastAudFramePackCount seg) k)],
        (if old
         then [mkOldIndxEntry avfsAvi2AudFcc AVIIF_KEYFRAME
                 (wrap32 (hs + moviOffset f seg k))
                 (frameAudDataSize f (startFrame seg) (seg_audFrameCount seg)
                    (lastAudFramePackCount seg) k)]
         else []),
        wrap32 (moviOffset f seg k
                + (sizeof_RiffTag
                   + RiffAlignUp (frameAudDataSize f (startFrame seg)
                                    (seg_audFrameCount seg)
                                    (lastAudFramePackCount seg) k))))
     else ([], [], moviOffset f seg k))
    = (audEntry f seg hs k,
       (if (k <? seg_audFrameCount seg) && old
        then [mkOldIndxEntry avfsAvi2AudFcc AVIIF_KEYFRAME (hs + moviOffset f seg k)
                (audChunkSize f seg k)]
        else []),
       moviOffset f seg k + audPart f seg k)).
  { unfold audEntry. unfold audPart in Hap, Hsucc |- *.
    destruct (k <? seg_audFrameCount seg); cbn [andb].
    2:{ rewrite Z.add_0_r. reflexivity. }
    pose proof (audChunkSize_nonneg seg k) as Hcs.
    pose proof (Z.mod_pos_bound (audChunkSize f seg k) 2 ltac:(lia)).
    unfold frameAudDataSize. fold (audLocate f seg k). fold (audChunkSize f seg k).
    change sizeof_RiffTag with 8.
    rewrite (wrap32_small (audChunkSize f seg k)) by lia.
    rewrite RiffAlignUp_exact by lia.
    rewrite !wrap32_small by lia.
    destruct old; f_equal; lia. }
  rewrite Haud. clear Haud.
  assert (Hvid :
    (if k <? seg_vidFrameCount seg
     then
       ([mkIndxEntry (wrap32 (hs + (moviOffset f seg k + audPart f seg k) + sizeof_RiffTag))
           (frameVidDataSize f)],
        (if old
         then [mkOldIndxEntry (frameVidFcc f) AVIIF_KEYFRAME
                 (wrap32 (hs + (moviOffset f seg k + audPart f seg k)))
                 (frameVidDataSize f)]
         else []),
        wrap32 (moviOffset f seg k + audPart f seg k
                + (sizeof_RiffTag + frameVidDataSize f + frameVidAlignSize f)))
     else ([], [], moviOffset f seg k + audPart f seg k))
    = (vidEntry f seg hs k,
       (if (k <? seg_vidFrameCount seg) && old
        then [mkOldIndxEntry (frameVidFcc f) AVIIF_KEYFRAME
                (hs + moviOffset f seg k + audPart f seg k) (frameVidDataSize f)]
        else []),
       moviOffset f seg (k + 1))).
  { unfold vidEntry. unfold vidPart in Hvp, Hsucc.
    destruct (k <? seg_vidFrameCount seg); cbn [andb].
    2:{ f_equal. lia. }
    pose proof (Z.mod_pos_bound (frameVidDataSize f) 2 ltac:(lia)).
    change sizeof_RiffTag with 8. rewrite Halign.
    rewrite !wrap32_small by lia.
    rewrite !Z.add_assoc. destruct old; f_equal; first [reflexivity | lia]. }
  rewrite Hvid. clear Hvid.
  rewrite IH by lia.
  rewrite (seqZ_cons k) by lia. cbn [fmap list_fmap flat_map].
  replace (Z.pred (Z.of_nat (S n))) with (Z.of_nat n) by lia.
  replace (Z.succ k) with (k + 1) by lia.
  unfold oldEntry at 2. rewrite <- !app_assoc. reflexivity.
Qed.

End AviInitFrames.

Section AviInitSeg.
Import Avi AviSpec.

Lemma flat_map_below {A} (g : Z -> A) v n :
  0 <= v ->
  flat_map (fun j => if j <? v then [g j] else []) (seqZ 0 (Z.of_nat n))
  = g <$> seqZ 0 (Z.min v (Z.of_nat n)).
Proof.
  intros Hv. induction n as [|n IH].
  { replace (Z.min v (Z.of_nat 0)) with 0 by lia. reflexivity. }
  rewrite seqZ_S, flat_map_app, IH. cbn [flat_map]. rewrite app_nil_r, Z.add_0_l.
  destruct (Z.ltb_spec (Z.of_nat n) v).
  - replace (Z.min v (Z.of_nat (S n))) with (Z.of_nat (S n)) by lia.
    replace (Z.min v (Z.of_nat n)) with (Z.of_nat n) by lia.
    rewrite seqZ_S, fmap_app, Z.add_0_l. reflexivity.
  - rewrite app_nil_r. f_equal. f_equal. lia.
Qed.

Lemma len_flat_map_below2 {A} (g h : Z -> A) (old : bool) a v n :
  0 <= a -> 0 <= v ->
  len_nat
    (flat_map (fun j => (if (j <? a) && old then [g j] else [])
                        ++ (if (j <? v) && old then [h j] else []))
              (seqZ 0 (Z.of_nat n)))
  = if old then Z.min a (Z.of_nat n) + Z.min v (Z.of_nat n) else 0.
Proof.
  intros Ha Hv. unfold len_nat. induction n as [|n IH].
  { destruct old; [|reflexivity]. change (seqZ 0 (Z.of_nat 0)) with (@nil Z).
    cbn [flat_map length]. lia. }
  rewrite seqZ_S, flat_map_app, length_app, Nat2Z.inj_add, IH. cbn [flat_map].
  rewrite app_nil_r, Z.add_0_l, length_app.
  destruct old; [|rewrite !andb_false_r; reflexivity]. rewrite !andb_true_r.
  destruct (Z.ltb_spec (Z.of_nat n) a), (Z.ltb_spec (Z.of_nat n) v); cbn [length]; lia.
Qed.

Lemma len_le16 x : len (le16 x) = 2.
Proof. reflexivity. Qed.

Lemma len_concat_map {A} (g : A -> list Z) c (l : list A) :
  (forall x, len (g x) = c) -> len (concat (map g l)) = c * len_nat l.
Proof.
  intros H. unfold len_nat. induction l as [|x l IH]; cbn [map concat length]; [change (len []) with 0; lia|].
  rewrite len_app, H, IH. lia.
Qed.

Lemma len_Avi2IndxHdr h : len (Avi2IndxHdr_bytes h) = 32.
Proof. reflexivity. Qed.

Lemma len_AvfsAvi2Indx x : len (AvfsAvi2Indx_bytes x) = 32 + 8 * len_nat (ents x).
Proof.
  unfold AvfsAvi2Indx_bytes. rewrite len_app, len_Avi2IndxHdr.
  rewrite (len_concat_map Avi2IndxEntry_bytes 8) by reflexivity. reflexivity.
Qed.

End AviInitSeg.

Section AviInitBuild.
Import Avi AviSpec.
Variable f : AvfsAvi2File.
Variables (noInterleave : bool) (maxSegFrameCount segi fs start : Z).

(** The segment [buildSeg] makes and the frame loop it runs, named by
    the segment's own fields. *)
Let built := buildSeg f noInterleave maxSegFrameCount segi fs start.
Let S := fst built.
Let loop :=
  frameLoop (Z.to_nat (frameCount S)) f (segi =? 0) (startFrame S) (seg_audFrameCount S)
            (lastAudFramePackCount S) (seg_vidFrameCount S) (hdrSize S) 0 0.

Lemma wrap32_idem z : wrap32 (wrap32 z) = wrap32 z.
Proof. unfold wrap32. apply Z.mod_mod. lia. Qed.

Lemma buildSeg_fields :
  startOffset S = fs /\ startFrame S = start /\ hdr_buf S = []
  /\ hdrSize S = (if segi =? 0 then offsetof_Seg0_dataLst_data else offsetof_SegN_dataLst_data)
  /\ frameIndx S = loop.1.1.1.1
  /\ dataSize S = loop.2
  /\ vidIndx S
     = mkIndx (mkIndxHdr avfsAvi2VidIndxFcc (wrap32 (vidIndxSize S - sizeof_RiffTag))
                         (sizeof_Avi2IndxEntry / 4) 0 AVI_INDEX_OF_CHUNKS
                         (seg_vidFrameCount S) (frameVidFcc f)
                         (wrap32 fs) (wrap32 (Z.shiftr fs 32)))
              loop.1.1.2
  /\ audIndx S
     = (if negb (fileSampleCount f =? 0)
        then Some (mkIndx (mkIndxHdr avfsAvi2AudIndxFcc
                                     (wrap32 (audIndxSize S - sizeof_RiffTag))
                                     (sizeof_Avi2IndxEntry / 4) 0 AVI_INDEX_OF_CHUNKS
                                     (seg_audFrameCount S) avfsAvi2AudFcc
                                     (wrap32 fs) (wrap32 (Z.shiftr fs 32)))
                          loop.1.1.1.2)
        else None)
  /\ oldIndx S
     = (if negb (oldIndxSize S =? 0)
        then Some (avi2OldIndxFcc, wrap32 (oldIndxSize S - sizeof_RiffTag), loop.1.2)
        else None)
  /\ vidIndxSize S = wrap32 (32 + seg_vidFrameCount S * 8)
  /\ audIndxSize S
     = (if negb (fileSampleCount f =? 0) then wrap32 (32 + seg_audFrameCount S * 8) else 0)
  /\ oldIndxSize S
     = wrap32 ((if segi =? 0 then 1 else 0)
               * (8 + wrap32 (seg_vidFrameCount S + seg_audFrameCount S) * 16))
  /\ segSize S
     = wrap32 (wrap32 (wrap32 (wrap32 (wrap32 (wrap32 (hdrSize S + dataSize S)
                                               + indxPrePadSize)
                                       + vidIndxSize S)
                               + audIndxSize S)
                       + oldIndxSize S)
               + indxPostPadSize)
  /\ riffCb (snd built) = wrap32 (segSize S - sizeof_RiffTag).
Proof.
  subst loop S built. unfold buildSeg.
  set (segFrameCount := if wrap32 (fileFrameCount f - start) >? maxSegFrameCount
                        then maxSegFrameCount else wrap32 (fileFrameCount f - start)).
  set (segVid0 := if start <? vidFrameCount f then wrap32 (vidFrameCount f - start) else 0).
  set (segVid := if segVid0 >? segFrameCount then segFrameCount else segVid0).
  set (segAud0 := if start <? audFrameCount f then wrap32 (audFrameCount f - start) else 0).
  set (segAud1 := if segAud0 >? segFrameCount then segFrameCount else segAud0).
  destruct (noInterleave && negb (segAud1 =? 0)).
  - cbv zeta.
    destruct (frameLoop _ _ _ _ _ _ _ _ _ _) as [[[[fi ae] ve] oe] ds] eqn:Hloop.
    destruct (fileSampleCount f =? 0) eqn:Hfsc; cbn [negb];
    destruct (negb (wrap32 _ =? 0)) eqn:Hold in |- *;
    cbn [fst snd startOffset startFrame hdr_buf hdrSize frameIndx dataSize vidIndx audIndx
         oldIndx vidIndxSize audIndxSize oldIndxSize segSize riffCb frameCount
         seg_audFrameCount seg_vidFrameCount lastAudFramePackCount];
    rewrite ?Hloop, ?Hold; cbn [fst snd]; rewrite ?Z.add_0_r;
    repeat split; try reflexivity;
    try (apply negb_false_iff, Z.eqb_eq in Hold; rewrite Hold);
    rewrite ?Z.add_0_r, ?wrap32_idem; reflexivity.
  - cbv zeta.
    destruct (frameLoop _ _ _ _ _ _ _ _ _ _) as [[[[fi ae] ve] oe] ds] eqn:Hloop.
    destruct (fileSampleCount f =? 0) eqn:Hfsc; cbn [negb];
    destruct (negb (wrap32 _ =? 0)) eqn:Hold in |- *;
    cbn [fst snd startOffset startFrame hdr_buf hdrSize frameIndx dataSize vidIndx audIndx
         oldIndx vidIndxSize audIndxSize oldIndxSize segSize riffCb frameCount
         seg_audFrameCount seg_vidFrameCount lastAudFramePackCount];
    rewrite ?Hloop, ?Hold; cbn [fst snd]; rewrite ?Z.add_0_r;
    repeat split; try reflexivity;
    try (apply negb_false_iff, Z.eqb_eq in Hold; rewrite Hold);
    rewrite ?Z.add_0_r, ?wrap32_idem; reflexivity.
Qed.

End AviInitBuild.

Section AviInitCore.
Import Avi AviSpec.
Variable f : AvfsAvi2File.

Lemma SegOk_withHdr S h :
  SegCore f S -> hdrSize S = len h -> SegOk f (withHdr S h).
Proof.
  intros H Hh. destruct H. constructor; try assumption.
  change (frameCount (withHdr S h)) with (frameCount S). lia.
Qed.

Variables (noInterleave : bool) (maxSegFrameCount segi fs start : Z).

Lemma buildSeg_counts :
  let S := fst (buildSeg f noInterleave maxSegFrameCount segi fs start) in
  0 <= maxSegFrameCount -> 0 <= start ->
  frameCount S = Z.min (wrap32 (fileFrameCount f - start)) maxSegFrameCount
  /\ 0 <= seg_vidFrameCount S <= frameCount S
  /\ 0 <= seg_audFrameCount S <= frameCount S
  /\ (seg_audFrameCount S <> 0 -> audFrameCount f <> 0).
Proof.
  intros S Hmax Hstart. subst S. unfold buildSeg.
  pose proof (wrap32_range (fileFrameCount f - start)).
  pose proof (wrap32_range (vidFrameCount f - start)).
  pose proof (wrap32_range (audFrameCount f - start)).
  set (segFrameCount := if wrap32 (fileFrameCount f - start) >? maxSegFrameCount
                        then maxSegFrameCount else wrap32 (fileFrameCount f - start)).
  set (segVid0 := if start <? vidFrameCount f then wrap32 (vidFrameCount f - start) else 0).
  set (segVid := if segVid0 >? segFrameCount then segFrameCount else segVid0).
  set (segAud0 := if start <? audFrameCount f then wrap32 (audFrameCount f - start) else 0).
  set (segAud1 := if segAud0 >? segFrameCount then segFrameCount else segAud0).
  assert (Hfc : segFrameCount = Z.min (wrap32 (fileFrameCount f - start)) maxSegFrameCount).
  { subst segFrameCount. destruct (Z.gtb_spec (wrap32 (fileFrameCount f - start))
                                              maxSegFrameCount); lia. }
  assert (Hv : 0 <= segVid <= segFrameCount).
  { subst segVid segVid0. destruct (start <? vidFrameCount f).
    - destruct (Z.gtb_spec (wrap32 (vidFrameCount f - start)) segFrameCount); lia.
    - destruct (Z.gtb_spec 0 segFrameCount); lia. }
  assert (Ha : 0 <= segAud1 <= segFrameCount /\ (segAud1 <> 0 -> audFrameCount f <> 0)).
  { subst segAud1 segAud0. destruct (Z.ltb_spec start (audFrameCount f)).
    - destruct (Z.gtb_spec (wrap32 (audFrameCount f - start)) segFrameCount); lia.
    - destruct (Z.gtb_spec 0 segFrameCount); lia. }
  destruct (Z.eqb_spec segAud1 0) as [Hz|Hz]; cbn [negb]; rewrite ?andb_false_r, ?andb_true_r;
    destruct noInterleave; cbv zeta;
    destruct (frameLoop _ _ _ _ _ _ _ _ _ _) as [[[[fi ae] ve] oe] ds];
    destruct (negb (fileSampleCount f =? 0)); destruct (negb (wrap32 _ =? 0));
    cbn [fst frameCount seg_audFrameCount seg_vidFrameCount]; lia.
Qed.

End AviInitCore.

Section AviInitCore2.
Import Avi AviSpec.
Variable f : AvfsAvi2File.
Hypothesis Hss : 0 <= sampleSize f < 2 ^ 32.
Hypothesis Hss' : audFrameCount f <> 0 -> sampleSize f <> 0.
Hypothesis HF : 0 <= frameVidDataSize f.
Hypothesis Halign : frameVidAlignSize f = frameVidDataSize f mod 2.
Variables (noInterleave : bool) (maxSegFrameCount segi fs start : Z).
Hypothesis Hmax : 0 <= maxSegFrameCount <= 2 ^ 30.
Hypothesis Hstart : 0 <= start.
Hypothesis Hfs : 0 <= fs < 2 ^ 64.

Lemma split64 : wrap32 fs + 2 ^ 32 * wrap32 (Z.shiftr fs 32) = fs.
Proof.
  rewrite Z.shiftr_div_pow2 by lia. unfold wrap32.
  assert (0 <= fs / 2 ^ 32 < 2 ^ 32).
  { split; [apply Z.div_pos; lia|]. apply Z.div_lt_upper_bound; lia. }
  rewrite (Z.mod_small (fs / 2 ^ 32)) by lia.
  pose proof (Z.div_mod fs (2 ^ 32) ltac:(lia)). lia.
Qed.

Lemma lookup_fmap_seqZ {A} (g : Z -> A) n k :
  0 <= k < n -> (g <$> seqZ 0 n) !! Z.to_nat k = Some (g k).
Proof.
  intros H. rewrite list_lookup_fmap.
  assert (Hl : seqZ 0 n !! Z.to_nat k = Some k) by (apply lookup_seqZ; lia).
  rewrite Hl. reflexivity.
Qed.

(** Removes the innermost [wrap32] whose argument [lia] bounds. *)
Ltac unwrap_inner :=
  match goal with
  | |- context [wrap32 ?x] =>
      lazymatch x with
      | context [wrap32 _] => fail
      | _ => rewrite (wrap32_small x) by lia
      end
  end.

Lemma buildSeg_core :
  let S := fst (buildSeg f noInterleave maxSegFrameCount segi fs start) in
  segFits f S = true -> SegCore f S.
Proof.
  intros S Hfit.
  pose proof (buildSeg_fields f noInterleave maxSegFrameCount segi fs start)
    as (HstartOff & HstartFrame & Hbuf & Hhdr & Hfi & Hds & Hvi & Hai & Hoi & Hvs & Has
        & Hos & Hsz & Hcb).
  pose proof (buildSeg_counts f noInterleave maxSegFrameCount segi fs start
                ltac:(lia) Hstart) as (Hfc & Hvc & Hac & Haf).
  fold S in HstartOff, HstartFrame, Hbuf, Hhdr, Hfi, Hds, Hvi, Hai, Hoi, Hvs, Has, Hos,
            Hsz, Hfc, Hvc, Hac, Haf.
  unfold segFits in Hfit. apply andb_true_iff in Hfit. destruct Hfit as [Hlay Hcnt].
  apply Z.leb_le in Hlay. unfold avi2Max4GbSegSize in Hlay.
  assert (Hhs : 0 <= hdrSize S).
  { rewrite Hhdr. destruct (segi =? 0); cbv; discriminate. }
  pose proof (len_nonneg (vidIndx_bytes S)) as Hlv.
  pose proof (len_nonneg (audIndx_bytes S)) as Hla.
  pose proof (len_nonneg (oldIndx_bytes S)) as Hlo.
  pose proof (sumZ_frames_nonneg f (proj1 Hss) HF S 0 (frameCount S)) as Hmv.
  fold (moviOffset f S (frameCount S)) in Hmv.
  assert (Hlay' : hdrSize S + moviOffset f S (frameCount S) + indxPrePadSize
                  + len (vidIndx_bytes S) + len (audIndx_bytes S) + len (oldIndx_bytes S)
                  + indxPostPadSize <= 4294967294) by exact Hlay.
  unfold indxPrePadSize, indxPostPadSize in Hlay'.
  assert (Hloop :
    frameLoop (Z.to_nat (frameCount S)) f (segi =? 0) (startFrame S) (seg_audFrameCount S)
              (lastAudFramePackCount S) (seg_vidFrameCount S) (hdrSize S) 0 0
    = (moviOffset f S <$> seqZ 0 (frameCount S),
       flat_map (audEntry f S (hdrSize S)) (seqZ 0 (frameCount S)),
       flat_map (vidEntry f S (hdrSize S)) (seqZ 0 (frameCount S)),
       flat_map (oldEntry f S (segi =? 0) (hdrSize S)) (seqZ 0 (frameCount S)),
       moviOffset f S (frameCount S))).
  { pose proof (frameLoop_exact f (proj1 Hss) HF Halign S (segi =? 0) (hdrSize S)
                  (Z.to_nat (frameCount S)) 0 ltac:(lia) Hhs) as Hx.
    rewrite Z.add_0_l, Z2Nat.id in Hx by lia. apply Hx. lia. }
  rewrite Hloop in Hfi, Hds, Hvi, Hai, Hoi. cbn [fst snd] in Hfi, Hds, Hvi, Hai, Hoi.
  assert (Hve : flat_map (vidEntry f S (hdrSize S)) (seqZ 0 (frameCount S))
                = (fun j => mkIndxEntry (hdrSize S + moviOffset f S j + audPart f S j + 8)
                                        (frameVidDataSize f))
                  <$> seqZ 0 (seg_vidFrameCount S)).
  { unfold vidEntry. rewrite <- (Z2Nat.id (frameCount S)) at 1 by lia.
    rewrite flat_map_below by lia. rewrite Z2Nat.id by lia. f_equal. f_equal. lia. }
  assert (Hae : flat_map (audEntry f S (hdrSize S)) (seqZ 0 (frameCount S))
                = (fun j => mkIndxEntry (hdrSize S + moviOffset f S j + 8)
                                        (audChunkSize f S j))
                  <$> seqZ 0 (seg_audFrameCount S)).
  { unfold audEntry. rewrite <- (Z2Nat.id (frameCount S)) at 1 by lia.
    rewrite flat_map_below by lia. rewrite Z2Nat.id by lia. f_equal. f_equal. lia. }
  assert (Hoe : len_nat (flat_map (oldEntry f S (segi =? 0) (hdrSize S))
                                  (seqZ 0 (frameCount S)))
                = if segi =? 0 then seg_audFrameCount S + seg_vidFrameCount S else 0).
  { unfold oldEntry. rewrite <- (Z2Nat.id (frameCount S)) at 1 by lia.
    rewrite len_flat_map_below2 by lia. rewrite Z2Nat.id by lia.
    destruct (segi =? 0); lia. }
  rewrite Hve in Hvi. rewrite Hae in Hai.
  assert (Hlenv : len (vidIndx_bytes S) = 32 + 8 * seg_vidFrameCount S).
  { unfold vidIndx_bytes. rewrite len_AvfsAvi2Indx, Hvi. cbn [ents]. unfold len_nat.
    rewrite length_fmap, length_seqZ. lia. }
  assert (Hlena : len (audIndx_bytes S)
                  = if negb (fileSampleCount f =? 0) then 32 + 8 * seg_audFrameCount S else 0).
  { unfold audIndx_bytes. rewrite Hai. destruct (negb (fileSampleCount f =? 0)); [|reflexivity].
    rewrite len_AvfsAvi2Indx. cbn [ents]. unfold len_nat.
    rewrite length_fmap, length_seqZ. lia. }
  assert (Hleno : oldIndxSize S = len (oldIndx_bytes S)).
  { unfold oldIndx_bytes in *. rewrite Hoi in *.
    destruct (Z.eqb_spec (oldIndxSize S) 0) as [H0|H0]; cbn [negb] in *; [exact H0|].
    rewrite len_app, len_RiffTag in *.
    rewrite (len_concat_map Avi2OldIndxEntry_bytes 16) in * by reflexivity.
    rewrite Hoe in *. rewrite Hos in *.
    destruct (segi =? 0).
    - rewrite (wrap32_small (seg_vidFrameCount S + seg_audFrameCount S)) by lia.
      rewrite wrap32_small by lia. lia.
    - exfalso. apply H0. reflexivity. }
  assert (Hvs' : vidIndxSize S = len (vidIndx_bytes S)).
  { rewrite Hvs, Hlenv. rewrite wrap32_small by lia. lia. }
  assert (Has' : audIndxSize S = len (audIndx_bytes S)).
  { rewrite Has, Hlena. destruct (negb (fileSampleCount f =? 0)); [|reflexivity].
    rewrite Hlena in Hlay'. rewrite wrap32_small by lia. lia. }
  constructor; try assumption.
  - lia.
  - (* audio chunks *)
    intros k Hk. unfold AudioChunkOk.
    assert (Hs0 : sampleSize f <> 0) by (apply Hss', Haf; lia).
    split; [lia|].
    pose proof (LocateFrameSamples_count f (wrap32 (startFrame S + k))
      (if k + 1 =? seg_audFrameCount S then wrap32 (lastAudFramePackCount S + 1) else 1))
      as Hc.
    fold (audLocate f S k) in Hc. split.
    + split; [lia|]. rewrite forallb_forall in Hcnt. apply Z.ltb_lt.
      apply Hcnt. apply list_elem_of_In, elem_of_seqZ. lia.
    + pose proof (moviOffset_succ f S k ltac:(lia)) as Hsucc.
      pose proof (moviOffset_mono f (proj1 Hss) HF S (k + 1) (frameCount S) ltac:(lia)).
      pose proof (sumZ_frames_nonneg f (proj1 Hss) HF S 0 k) as Hk0.
      fold (moviOffset f S k) in Hk0.
      pose proof (vidPart_nonneg f HF S k).
      unfold frameSize, audPart in Hsucc.
      destruct (Z.ltb_spec k (seg_audFrameCount S)); [|lia].
      pose proof (Z.mod_pos_bound (audChunkSize f S k) 2 ltac:(lia)). lia.
  - (* frame index *)
    intros k Hk. unfold frameIndxAt. rewrite Hfi, lookup_fmap_seqZ by lia. reflexivity.
  - (* segment size *)
    rewrite Hsz, Hds, Hvs', Has', Hleno. unfold segLayoutSize, moviSize.
    unfold indxPrePadSize, indxPostPadSize.
    repeat unwrap_inner. lia.
  - (* base offset *)
    rewrite Hvi. cbn [hdr qwBaseOffsetLow qwBaseOffsetHigh]. rewrite HstartOff.
    apply split64.
  - (* video entries *)
    intros k Hk. rewrite Hvi. cbn [ents].
    rewrite (lookup_fmap_seqZ _ _ k) by assumption. reflexivity.
Qed.

End AviInitCore2.

Section AviInitSegs.
Import Avi AviSpec.
Variable f : AvfsAvi2File.
Hypothesis Hss : 0 <= sampleSize f < 2 ^ 32.
Hypothesis Hss' : audFrameCount f <> 0 -> sampleSize f <> 0.
Hypothesis HF : 0 <= frameVidDataSize f.
Hypothesis Halign : frameVidAlignSize f = frameVidDataSize f mod 2.
Variables (noInterleave : bool) (maxSegFrameCount : Z).
Hypothesis Hmax : 0 <= maxSegFrameCount <= 2 ^ 30.

Lemma segLayoutSize_pos S : 0 <= hdrSize S -> 262144 <= segLayoutSize f S.
Proof.
  intros HS.
  pose proof (sumZ_frames_nonneg f (proj1 Hss) HF S 0 (frameCount S)) as Hm.
  fold (moviOffset f S (frameCount S)) in Hm. fold (moviSize f S) in Hm.
  pose proof (len_nonneg (vidIndx_bytes S)). pose proof (len_nonneg (audIndx_bytes S)).
  pose proof (len_nonneg (oldIndx_bytes S)).
  unfold segLayoutSize, indxPrePadSize, indxPostPadSize. lia.
Qed.

Lemma layoutSum_cons x built :
  layoutSum f (x :: built) = segLayoutSize f (fst x) + layoutSum f built.
Proof. reflexivity. Qed.

Lemma layoutSum_nonneg built :
  Forall (fun x => 0 <= hdrSize (fst x)) built -> 0 <= layoutSum f built.
Proof.
  induction 1 as [|x l Hx Hl IH]; [unfold layoutSum; cbn; lia|].
  rewrite layoutSum_cons. pose proof (segLayoutSize_pos (fst x) Hx). lia.
Qed.

Lemma buildSeg_hdrSize segi fs start :
  0 <= hdrSize (fst (buildSeg f noInterleave maxSegFrameCount segi fs start)).
Proof.
  pose proof (buildSeg_fields f noInterleave maxSegFrameCount segi fs start)
    as (_ & _ & _ & Hhdr & _).
  rewrite Hhdr. destruct (segi =? 0); cbv; discriminate.
Qed.

Lemma segLoop_hdrSize n : forall segi fs start built fs',
  segLoop n f noInterleave maxSegFrameCount segi fs start = (built, fs') ->
  Forall (fun x => 0 <= hdrSize (fst x)) built.
Proof.
  induction n as [|n IH]; intros segi fs start built fs' Hloop; cbn [segLoop] in Hloop.
  { injection Hloop as <- <-. constructor. }
  pose proof (buildSeg_hdrSize segi fs start) as Hh.
  destruct (buildSeg f noInterleave maxSegFrameCount segi fs start) as [seg extra].
  destruct (segLoop n f noInterleave maxSegFrameCount (segi + 1)
                    (wrap64 (fs + segSize seg)) (wrap32 (start + frameCount seg)))
    as [rest fs1] eqn:Hrest.
  injection Hloop as <- <-. constructor; [exact Hh|]. eapply IH. exact Hrest.
Qed.

(** What the segment loop establishes when every segment it lays out
    fits. *)
Lemma segLoop_core n : forall segi fs start built fs',
  segLoop n f noInterleave maxSegFrameCount segi fs start = (built, fs') ->
  0 <= segi -> 0 <= fs -> 0 <= start ->
  Forall (fun x => segFits f (fst x) = true) built ->
  fs + layoutSum f built < 2 ^ 64 ->
  length built = n
  /\ Forall (fun x => SegCore f (fst x)) built
  /\ fs' = fs + layoutSum f built
  /\ forall i x, built !! i = Some x ->
       startOffset (fst x) = fs + layoutSum f (take i built)
       /\ hdrSize (fst x)
          = (if segi + Z.of_nat i =? 0
             then offsetof_Seg0_dataLst_data else offsetof_SegN_dataLst_data)
       /\ riffCb (snd x) = segSize (fst x) - 8.
Proof.
  induction n as [|n IH]; intros segi fs start built fs' Hloop Hsegi Hfs Hstart Hfit Hsum.
  { cbn [segLoop] in Hloop. injection Hloop as <- <-.
    split; [reflexivity|]. split; [constructor|]. split; [unfold layoutSum; cbn; lia|].
    intros i x Hx. discriminate. }
  pose proof (segLoop_hdrSize _ _ _ _ _ _ Hloop) as Hhdrs.
  cbn [segLoop] in Hloop.
  pose proof (buildSeg_fields f noInterleave maxSegFrameCount segi fs start)
    as (HstartOff & _ & _ & Hhdr & _ & _ & _ & _ & _ & _ & _ & _ & _ & Hcb).
  pose proof (buildSeg_core f Hss Hss' HF Halign noInterleave maxSegFrameCount segi fs start
                Hmax Hstart) as Hcore.
  destruct (buildSeg f noInterleave maxSegFrameCount segi fs start) as [seg extra].
  cbn [fst snd] in *.
  destruct (segLoop n f noInterleave maxSegFrameCount (segi + 1)
                    (wrap64 (fs + segSize seg)) (wrap32 (start + frameCount seg)))
    as [rest fs1] eqn:Hrest.
  injection Hloop as <- <-.
  apply Forall_cons in Hfit. destruct Hfit as [Hfit1 Hfit].
  apply Forall_cons in Hhdrs. destruct Hhdrs as [Hhdr1 Hhdrs].
  cbn [fst] in Hfit1, Hhdr1.
  rewrite layoutSum_cons in Hsum. cbn [fst] in Hsum.
  pose proof (layoutSum_nonneg rest Hhdrs) as Hrest0.
  pose proof (segLayoutSize_pos seg Hhdr1) as Hpos.
  specialize (Hcore ltac:(lia) Hfit1).
  pose proof (core_size _ _ Hcore) as Hsize.
  assert (Hlay : segLayoutSize f seg <= 4294967294).
  { unfold segFits in Hfit1. apply andb_true_iff in Hfit1. destruct Hfit1 as [H1 _].
    apply Z.leb_le in H1. exact H1. }
  rewrite Hsize in Hrest. rewrite wrap64_small in Hrest by lia.
  pose proof (wrap32_range (start + frameCount seg)) as Hst.
  destruct (IH _ _ _ _ _ Hrest ltac:(lia) ltac:(lia) ltac:(lia) Hfit ltac:(lia))
    as (Hlen & Hcores & Hfs' & Hat).
  split; [cbn [length]; lia|].
  split; [constructor; assumption|].
  split; [rewrite layoutSum_cons; cbn [fst]; lia|].
  intros i x Hx. destruct i as [|i].
  - cbn in Hx. injection Hx as <-. cbn [fst snd take].
    split; [unfold layoutSum; cbn; lia|].
    split; [rewrite Z.add_0_r; exact Hhdr|].
    rewrite Hcb, Hsize. change sizeof_RiffTag with 8. apply wrap32_small. lia.
  - cbn [lookup list_lookup] in Hx. destruct (Hat i x Hx) as (Ho & Hh & Hr).
    cbn [take]. rewrite layoutSum_cons. cbn [fst].
    split; [lia|]. split; [|exact Hr].
    rewrite Hh. replace (segi + 1 + Z.of_nat i) with (segi + Z.of_nat (S i)) by lia.
    reflexivity.
Qed.

End AviInitSegs.

Section AviHeaders.
Import Avi AviSpec.

Lemma len_RiffLst a b c : len (RiffLst_bytes a b c) = 12.
Proof. reflexivity. Qed.

Lemma len_Avi2StrHdr a b c d e g h i j k :
  len (Avi2StrHdr_bytes a b c d e g h i j k) = 64.
Proof. reflexivity. Qed.

Lemma len_SuperIndx chunkId n entries :
  len_nat entries <= avfsAvi2MaxSuperIndxEntryCount ->
  len (AvfsAvi2SuperIndx_bytes chunkId n entries) = sizeof_AvfsAvi2SuperIndx.
Proof.
  intros H. unfold AvfsAvi2SuperIndx_bytes. rewrite !len_app, len_Avi2IndxHdr.
  rewrite (len_concat_map Avi2SuperIndxEntry_bytes 16) by reflexivity.
  rewrite len_zeros. unfold len_nat in *.
  unfold avfsAvi2MaxSuperIndxEntryCount, sizeof_Avi2SuperIndxEntry, sizeof_AvfsAvi2SuperIndx,
    sizeof_Avi2IndxHdr in *.
  unfold avfsAvi2MaxSuperIndxEntryCount, sizeof_Avi2SuperIndxEntry. lia.
Qed.

Lemma len_wfx (w : list Z) :
  len (take (Z.to_nat sizeof_WaveFormatExtensible) (w ++ zeros sizeof_WaveFormatExtensible))
  = sizeof_WaveFormatExtensible.
Proof.
  unfold len. rewrite length_take, length_app. unfold zeros.
  rewrite length_replicate. unfold sizeof_WaveFormatExtensible. lia.
Qed.

Lemma len_Seg0_hdr f a b c d e g h i j k vs us :
  len_nat vs <= avfsAvi2MaxSuperIndxEntryCount ->
  len_nat us <= avfsAvi2MaxSuperIndxEntryCount ->
  len (Seg0_hdr_bytes f a b c d e g h i j k vs us) = offsetof_Seg0_dataLst_data.
Proof.
  intros Hv Hu. unfold Seg0_hdr_bytes. cbv zeta.
  rewrite !len_app, !len_RiffLst, !len_RiffTag, !len_le32, !len_le16, !len_Avi2StrHdr,
    !len_zeros, len_wfx, !len_SuperIndx by assumption.
  reflexivity.
Qed.

Lemma len_SegN_hdr a b : len (SegN_hdr_bytes a b) = offsetof_SegN_dataLst_data.
Proof. reflexivity. Qed.

Lemma maxSegFrames_bound a b c d e :
  0 <= c < 2 ^ 32 -> 0 <= d < 2 ^ 32 -> 0 <= e < 2 ^ 32 ->
  0 <= maxSegFrames a b c d e <= 2 ^ 30.
Proof.
  intros Hc Hd He. unfold maxSegFrames.
  set (num := wrap32 (a - wrap32 (b * c) - indxPrePadSize - indxPostPadSize)).
  pose proof (wrap32_range (a - wrap32 (b * c) - indxPrePadSize - indxPostPadSize)) as Hn.
  fold num in Hn.
  change (sizeof_RiffTag + c + sizeof_RiffTag + d + e + sizeof_Avi2IndxEntry * 2
          + sizeof_Avi2OldIndxEntry * 2) with (8 + c + 8 + d + e + 8 * 2 + 16 * 2).
  rewrite wrap64_small by lia.
  assert (0 <= num / (8 + c + 8 + d + e + 8 * 2 + 16 * 2) < 2 ^ 30).
  { split; [apply Z.div_pos; lia|]. apply Z.div_lt_upper_bound; lia. }
  rewrite wrap32_small by lia. lia.
Qed.

End AviHeaders.

Section AviInitAttrs.
Import Avi AviSpec.

Lemma RiffAlignUp_range s : 0 <= RiffAlignUp s < 2 ^ 32.
Proof.
  unfold RiffAlignUp. change (wrap32 (Z.lnot (2 - 1))) with 4294967294.
  pose proof (wrap32_range (s + (2 - 1))) as H.
  rewrite land_fffffffe by assumption.
  pose proof (Z.mod_pos_bound (wrap32 (s + (2 - 1))) 2 ltac:(lia)).
  pose proof (Z.div_mod (wrap32 (s + (2 - 1))) 2 ltac:(lia)).
  assert (0 <= wrap32 (s + (2 - 1)) / 2) by (apply Z.div_pos; lia). lia.
Qed.

Lemma alignSize_all s : 0 <= s < 2 ^ 32 -> wrap32 (RiffAlignUp s - s) = s mod 2.
Proof.
  intros H. destruct (Z.eq_dec s (2 ^ 32 - 1)) as [->|Hne]; [reflexivity|].
  apply alignSize_exact. lia.
Qed.

Lemma initAttrs_facts vi a :
  initAttrs vi = Ret a ->
  let f1 := a_file a in
  avs f1 = vi /\ segs f1 = []
  /\ 0 <= sampleSize f1 < 2 ^ 32
  /\ (audFrameCount f1 <> 0 -> sampleSize f1 <> 0)
  /\ 0 <= frameVidDataSize f1 < 2 ^ 32
  /\ frameVidAlignSize f1 = frameVidDataSize f1 mod 2
  /\ 0 <= a_maxFrameAudDataSize a < 2 ^ 32
  /\ (vidFrameCount f1 <> 0 -> frameVidDataSize f1 <> 0).
Proof.
  intros H f1. subst f1. unfold initAttrs in H. cbv zeta in H.
  destruct (if HasVideo vi then _ else _) as [[vs vt] vc].
  set (novideo := (vt =? 0) || (wrap32 (num_frames vi) =? 0) || (wrap32 (BMPSize vi) =? 0)
                  || negb vs) in H.
  destruct (if novideo then (0, vc) else _) as [vt' vc'].
  set (noaudio := ((if HasAudio vi then if AudioIsFloat vi then 2 else 1 else 0) =? 0)
                  || (wrap32 (Z.quot (BitsPerChannelSample vi + 7) 8 * AudioChannels vi) =? 0)
                  || (wrap32 (num_audio_samples vi) =? 0)) in H.
  destruct (if noaudio || _ then Ret 0 else _) as [pack| |];
    cbn [mbind Outcome_bind] in H; try discriminate.
  injection H as <-.
  cbn [a_file a_maxFrameAudDataSize avs segs sampleSize audFrameCount frameVidDataSize
       frameVidAlignSize vidFrameCount].
  pose proof (wrap32_range (Z.quot (BitsPerChannelSample vi + 7) 8 * AudioChannels vi)).
  pose proof (wrap32_range (BMPSize vi)).
  split; [reflexivity|]. split; [reflexivity|].
  split; [destruct noaudio; lia|].
  split.
  { destruct noaudio eqn:Hna; cbn [orb]; [intros Hc; exfalso; apply Hc; reflexivity|].
    intros _ Hz. subst noaudio. rewrite Hz in Hna. cbn in Hna.
    rewrite orb_true_r in Hna. discriminate. }
  split; [destruct novideo; lia|].
  split.
  { destruct novideo; [reflexivity|]. apply alignSize_all. assumption. }
  split; [destruct noaudio; [lia|]; apply RiffAlignUp_range|].
  destruct novideo eqn:Hnv; [intros Hc; exfalso; apply Hc; reflexivity|].
  intros _ Hz. subst novideo. rewrite Hz in Hnv. cbn in Hnv.
  rewrite orb_true_r in Hnv. discriminate.
Qed.

End AviInitAttrs.

Section AviInitFile.
Import Avi AviSpec.

Lemma segFits_agree f c s l S h :
  segFits (withLayout f c s l) (withHdr S h) = segFits f S.
Proof. reflexivity. Qed.

Lemma segLayoutSize_agree f c s l S h :
  segLayoutSize (withLayout f c s l) (withHdr S h) = segLayoutSize f S.
Proof. reflexivity. Qed.

Lemma SegCore_agree f c s l S h :
  SegCore f S -> SegCore (withLayout f c s l) (withHdr S h).
Proof. intros []. constructor; assumption. Qed.

Section Lengths.
Variable f : AvfsAvi2File.
Variables sample frame : Z -> list Z.
Hypothesis Hsrc : SourcesOk f sample frame.

Lemma len_segImage_layout seg :
  SegOk f seg -> len (segImage f seg) = segLayoutSize f seg.
Proof.
  intros Hseg. rewrite len_segImage. unfold segLayoutSize, moviSize, moviOffset.
  pose proof (seg_frames _ _ Hseg).
  rewrite (len_frames f sample frame Hsrc) by (try assumption; lia).
  rewrite (seg_hdr _ _ Hseg). reflexivity.
Qed.

Lemma len_image_segs l :
  Forall (SegOk f) l ->
  len (image (flat_map (segRegions f) l)) = sumZ (segLayoutSize f <$> l).
Proof.
  induction 1 as [|seg l Hseg Hl IH]; [reflexivity|].
  cbn [flat_map fmap list_fmap]. rewrite image_app, len_app, sumZ_cons, IH.
  fold (segImage f seg). rewrite len_segImage_layout by assumption. reflexivity.
Qed.

End Lengths.

Lemma length_omap_le {A B} (g : A -> option B) (l : list A) :
  (length (omap g l) <= length l)%nat.
Proof.
  induction l as [|x l IH]; cbn; [lia|]. destruct (g x); cbn; lia.
Qed.

Lemma take_RiffLst a b c l : take 12 (RiffLst_bytes a b c ++ l) = RiffLst_bytes a b c.
Proof. reflexivity. Qed.

Lemma bind_Ret_inv {A B} (m : Outcome A) (k : A -> Outcome B) v :
  m ≫= k = Ret v -> exists x, m = Ret x /\ k x = Ret v.
Proof.
  destruct m as [x| |]; cbn; intros H; try discriminate. exists x. split; [reflexivity|exact H].
Qed.

Lemma initSegments_ok a m c f sample frame :
  let f1 := a_file a in
  0 <= sampleSize f1 < 2 ^ 32 ->
  (audFrameCount f1 <> 0 -> sampleSize f1 <> 0) ->
  0 <= frameVidDataSize f1 < 2 ^ 32 ->
  frameVidAlignSize f1 = frameVidDataSize f1 mod 2 ->
  0 <= m <= 2 ^ 30 ->
  initSegments a m c = Ret (true, f) ->
  fits f = true -> SourcesOk f sample frame -> segs f <> [] ->
  FileOk f /\ Forall (SegCore f) (segs f) /\ fileSize f = len (fileImage f)
  /\ exists seg0 rest,
       segs f = seg0 :: rest /\ startOffset seg0 = 0
       /\ take 12 (hdr_buf seg0) = RiffLst_bytes riffFcc (segSize seg0 - 8) avi2FileFcc.
Proof.
  intros f1 Hss Hss' HF Halign Hm Hinit Hfits Hsrc Hne.
  unfold initSegments in Hinit. fold f1 in Hinit. cbv zeta in Hinit.
  set (count := if c >? avfsAvi2MaxSuperIndxEntryCount
                then avfsAvi2MaxSuperIndxEntryCount else c) in Hinit.
  set (f2 := withLayout f1 count 0 []) in Hinit.
  destruct (segLoop (Z.to_nat count) f2 (a_noInterleave a) m 0 0 0) as [built fs'] eqn:Hloop.
  destruct built as [|[seg0 extra0] rest].
  { injection Hinit as <-. exfalso. apply Hne. reflexivity. }
  apply bind_Ret_inv in Hinit. destruct Hinit as (usec & _ & Hinit).
  apply bind_Ret_inv in Hinit. destruct Hinit as (dur & _ & Hinit).
  injection Hinit as Hf.
  set (hdr0 := Seg0_hdr_bytes _ _ _ _ _ _ _ _ _ _ _ _ _) in Hf.
  set (hdrN := fun x : Seg * SegExtra =>
                 withHdr (fst x) (SegN_hdr_bytes (riffCb (snd x)) (moviCb (snd x)))) in Hf.
  set (ss := withHdr seg0 hdr0 :: map hdrN rest) in Hf.
  set (F := withLayout f2 count fs' ss) in Hf. subst f.
  (* what [fits] says of the entries of the segment loop *)
  unfold fits in Hfits. apply andb_true_iff in Hfits. destruct Hfits as [Hfit Hsum].
  apply Z.ltb_lt in Hsum.
  change (segs F) with ss in Hfit, Hsum.
  assert (Hfit' : Forall (fun x => segFits f2 (fst x) = true) ((seg0, extra0) :: rest)).
  { rewrite forallb_forall in Hfit. constructor.
    - apply (Hfit (withHdr seg0 hdr0)). left. reflexivity.
    - apply Forall_forall. intros x Hx. apply (Hfit (hdrN x)). right.
      apply in_map. apply list_elem_of_In. exact Hx. }
  assert (Hsum' : sumZ (segLayoutSize F <$> ss) = layoutSum f2 ((seg0, extra0) :: rest)).
  { unfold ss, layoutSum. cbn [fmap list_fmap]. rewrite !sumZ_cons. f_equal.
    rewrite <- list_fmap_compose. reflexivity. }
  rewrite Hsum' in Hsum.
  destruct (segLoop_core f2 Hss Hss' (proj1 HF) Halign (a_noInterleave a) m Hm _ _ _ _ _ _
              Hloop ltac:(lia) ltac:(lia) ltac:(lia) Hfit' ltac:(lia))
    as (Hlen & Hcores & Hfs' & Hat).
  rewrite Z.add_0_l in Hfs'.
  assert (Hcount : 1 <= count <= 5000).
  { cbn [length] in Hlen. subst count. unfold avfsAvi2MaxSuperIndxEntryCount in *.
    destruct (Z.gtb_spec c 5000); lia. }
  (* the segments of the file and the entries they come from *)
  assert (Hfrom : Forall2 fromBuilt ((seg0, extra0) :: rest) ss).
  { constructor.
    - exists hdr0. split; [reflexivity|]. destruct (Hat 0%nat _ eq_refl) as (_ & Hh & _).
      cbn [fst] in *. rewrite Hh. change (0 + Z.of_nat 0 =? 0) with true. cbv iota.
      symmetry. apply len_Seg0_hdr.
      + unfold len_nat. cbn [length] in *. rewrite length_map.
        unfold avfsAvi2MaxSuperIndxEntryCount. lia.
      + unfold len_nat. etransitivity.
        * apply Nat2Z.inj_le.
          apply (length_omap_le (fun x : Seg * SegExtra => audSuper (snd x))
                                ((seg0, extra0) :: rest)).
        * unfold avfsAvi2MaxSuperIndxEntryCount. cbn [length] in *. lia.
    - apply Forall2_fmap_r, Forall_Forall2_diag, Forall_lookup. intros i x Hx.
      exists (SegN_hdr_bytes (riffCb (snd x)) (moviCb (snd x))). split; [reflexivity|].
      destruct (Hat (Datatypes.S i) x Hx) as (_ & Hh & _). rewrite Hh.
      destruct (Z.eqb_spec (0 + Z.of_nat (Datatypes.S i)) 0); [lia|].
      symmetry. apply len_SegN_hdr. }
  assert (HcoreF : Forall (SegCore F) ss).
  { apply (Forall2_Forall_r _ _ _ _ Hfrom). eapply Forall_impl; [exact Hcores|].
    intros x Hx s (h & -> & _). apply SegCore_agree. exact Hx. }
  assert (HokF : Forall (SegOk F) ss).
  { apply (Forall2_Forall_r _ _ _ _ Hfrom). eapply Forall_impl; [exact Hcores|].
    intros x Hx s (h & -> & Hh).
    apply (SegOk_withHdr F (fst x) h); [|exact Hh].
    destruct Hx. constructor; assumption. }
  assert (HlenF : len (fileImage F) = fs').
  { unfold fileImage, fileRegions. change (segs F) with ss.
    rewrite (len_image_segs F sample frame Hsrc) by assumption.
    rewrite Hsum'. symmetry. exact Hfs'. }
  split.
  { constructor.
    - apply HF.
    - exact Halign.
    - exact HokF.
    - change (fileSegCount F) with count. change (segs F) with ss.
      unfold ss. cbn [length] in *. rewrite length_map. lia.
    - change (fileSegCount F) with count. lia.
    - intros i s Hs. change (segs F) with ss in *.
      rewrite (len_image_segs F sample frame Hsrc) by (apply Forall_take; assumption).
      destruct (Forall2_lookup_r _ _ _ _ _ Hfrom Hs) as (x & Hx & h & -> & _).
      destruct (Hat i x Hx) as (Ho & _). change (startOffset (withHdr (fst x) h))
        with (startOffset (fst x)). rewrite Ho, Z.add_0_l.
      unfold layoutSum.
      pose proof (Forall2_take _ _ _ i Hfrom) as Htake.
      clear -Htake. revert Htake. generalize (take i ss). generalize (take i ((seg0, extra0) :: rest)).
      induction 1 as [|x s l k (h & -> & _) Hl IH]; [reflexivity|].
      cbn [fmap list_fmap]. rewrite !sumZ_cons. f_equal. exact IH.
    - intros s Hs. change (segs F) with ss in Hs.
      rewrite (len_segImage_layout F sample frame Hsrc)
        by (rewrite Forall_forall in HokF; apply HokF; assumption).
      rewrite forallb_forall in Hfit. specialize (Hfit s ltac:(apply list_elem_of_In; assumption)).
      unfold segFits in Hfit. apply andb_true_iff in Hfit. destruct Hfit as [Hfit _].
      apply Z.leb_le in Hfit. unfold avi2Max4GbSegSize in Hfit. lia. }
  split; [exact HcoreF|].
  split; [symmetry; exact HlenF|].
  exists (withHdr seg0 hdr0), (map hdrN rest). split; [reflexivity|].
  destruct (Hat 0%nat _ eq_refl) as (Ho & _ & Hr). cbn [fst snd take] in Ho, Hr.
  split; [exact Ho|].
  change (hdr_buf (withHdr seg0 hdr0)) with hdr0.
  change (segSize (withHdr seg0 hdr0)) with (segSize seg0). rewrite <- Hr.
  apply take_RiffLst.
Qed.

(** [Init] succeeds through [initSegments], on attributes in range. *)
Lemma Init_inv vi f :
  Init vi = Ret (true, f) ->
  exists a m c,
    let f1 := a_file a in
    0 <= sampleSize f1 < 2 ^ 32
    /\ (audFrameCount f1 <> 0 -> sampleSize f1 <> 0)
    /\ 0 < frameVidDataSize f1 < 2 ^ 32
    /\ frameVidAlignSize f1 = frameVidDataSize f1 mod 2
    /\ 0 <= m <= 2 ^ 30
    /\ initSegments a m c = Ret (true, f).
Proof.
  intros Hinit. unfold Init in Hinit.
  destruct (initAttrs vi) as [a| |] eqn:Hattrs; cbn [mbind Outcome_bind] in Hinit;
    try discriminate.
  destruct (initAttrs_facts vi a Hattrs) as (_ & _ & Hss & Hss' & HF & Halign & Hmaxaud & Hv).
  unfold initLayout in Hinit. cbv zeta in Hinit.
  destruct (Z.eqb_spec (vidFrameCount (a_file a)) 0) as [|Hvid]; [discriminate|].
  specialize (Hv Hvid).
  pose proof (Z.mod_pos_bound (frameVidDataSize (a_file a)) 2 ltac:(lia)) as Hal.
  pose proof (maxSegFrames_bound avfsAvi2Max4GbDataLstSize
                (firstAudFramePackCount (a_file a)) (a_maxFrameAudDataSize a)
                (frameVidDataSize (a_file a)) (frameVidAlignSize (a_file a))
                Hmaxaud HF ltac:(lia)) as Hm1.
  pose proof (maxSegFrames_bound avfsAvi2MaxDataLstSize
                (firstAudFramePackCount (a_file a)) (a_maxFrameAudDataSize a)
                (frameVidDataSize (a_file a)) (frameVidAlignSize (a_file a))
                Hmaxaud HF ltac:(lia)) as Hm2.
  set (m1 := maxSegFrames avfsAvi2Max4GbDataLstSize _ _ _ _) in *.
  set (m2 := maxSegFrames avfsAvi2MaxDataLstSize _ _ _ _) in *.
  apply bind_Ret_inv in Hinit. destruct Hinit as (c0 & _ & Hinit).
  apply bind_Ret_inv in Hinit. destruct Hinit as ([m c] & Hsel & Hinit).
  exists a, m, c. cbv zeta. repeat (split; [first [assumption | lia]|]).
  split; [|exact Hinit].
  destruct (AVFS_AVI_SmallSegments (avs (a_file a))).
  - apply bind_Ret_inv in Hsel. destruct Hsel as (c' & _ & Hsel).
    injection Hsel as <- _. exact Hm2.
  - injection Hsel as <- _. exact Hm1.
Qed.

Lemma initSegments_fields a m c b f :
  initSegments a m c = Ret (b, f) ->
  frameVidDataSize f = frameVidDataSize (a_file a)
  /\ frameVidFcc f = frameVidFcc (a_file a)
  /\ (segs f = [] -> fileSize f = 0).
Proof.
  intros Hinit. unfold initSegments in Hinit. cbv zeta in Hinit.
  set (count := if c >? avfsAvi2MaxSuperIndxEntryCount
                then avfsAvi2MaxSuperIndxEntryCount else c) in Hinit.
  set (f2 := withLayout (a_file a) count 0 []) in Hinit.
  destruct (Z.to_nat count) as [|n].
  - cbn [segLoop] in Hinit. injection Hinit as _ <-. repeat split; reflexivity.
  - cbn [segLoop] in Hinit.
    destruct (buildSeg f2 (a_noInterleave a) m 0 0 0) as [seg extra].
    destruct (segLoop n _ _ _ _ _ _) as [rest fs1].
    apply bind_Ret_inv in Hinit. destruct Hinit as (usec & _ & Hinit).
    apply bind_Ret_inv in Hinit. destruct Hinit as (dur & _ & Hinit).
    injection Hinit as _ <-. repeat split; try reflexivity. intros H. discriminate.
Qed.

(** What [Init] establishes of a file whose layout fits. *)
Lemma Init_ok vi f sample frame :
  Init vi = Ret (true, f) ->
  fits f = true -> SourcesOk f sample frame -> segs f <> [] ->
  FileOk f /\ Forall (SegCore f) (segs f) /\ fileSize f = len (fileImage f)
  /\ 0 < frameVidDataSize f
  /\ exists seg0 rest,
       segs f = seg0 :: rest /\ startOffset seg0 = 0
       /\ take 12 (hdr_buf seg0) = RiffLst_bytes riffFcc (segSize seg0 - 8) avi2FileFcc.
Proof.
  intros Hinit Hfits Hsrc Hne.
  destruct (Init_inv vi f Hinit) as (a & m & c & Hss & Hss' & HF & Halign & Hm & Hseg).
  destruct (initSegments_fields a m c true f Hseg) as (HFeq & _).
  destruct (initSegments_ok a m c f sample frame Hss Hss' ltac:(lia) Halign Hm Hseg Hfits
              Hsrc Hne) as (Hok & Hcore & Hsize & Hhdr).
  repeat (split; [first [assumption | lia]|]). exact Hhdr.
Qed.

(** A file without segments has no bytes. *)
Lemma Init_empty vi f : Init vi = Ret (true, f) -> segs f = [] -> fileSize f = 0.
Proof.
  intros Hinit Hnil.
  destruct (Init_inv vi f Hinit) as (a & m & c & _ & _ & _ & _ & _ & Hseg).
  destruct (initSegments_fields a m c true f Hseg) as (_ & _ & H). apply H. exact Hnil.
Qed.

End AviInitFile.

Section AviReads.
Import Avi AviSpec.

Lemma readOk_static ss RA r RC e size :
  kind r = Static -> 0 <= e -> 0 < size -> e + size <= len (bytes r) ->
  readOk ss (RA ++ r :: RC) (len (image RA) + e) size = true.
Proof.
  intros Hk He Hsize Hle. pose proof (len_nonneg (image RA)) as HA.
  set (st := mkRead [] size (len (image RA) + e) true).
  assert (Hinv : readInv st) by (repeat split; cbn; lia).
  change (readOk ss (RA ++ r :: RC) (offset st) (remainingSize st) = true).
  rewrite readOk_app by assumption. rewrite readOk_before by (cbn; lia). cbn [andb].
  rewrite served_skip by (cbn; lia). subst st. cbn [offset remainingSize readOk].
  unfold regionOk. rewrite Hk. cbn [andb].
  replace (len (image RA) + e - len (image RA)) with e by lia.
  replace (Z.max 0 (e - len (bytes r))) with 0 by lia.
  replace (size - Z.min size (Z.max 0 (len (bytes r) - e))) with 0 by lia.
  apply readOk_done.
Qed.

Lemma slice_region RA r RC e size :
  0 <= e -> 0 <= size -> e + size <= len (bytes r) ->
  slice (len (image RA) + e) size (image (RA ++ r :: RC)) = slice e size (bytes r).
Proof.
  intros He Hsize Hle. rewrite image_app, image_cons. apply slice_mid; assumption.
Qed.

Section File.
Variable f : AvfsAvi2File.
Variables sample frame : Z -> list Z.
Hypothesis Hsrc : SourcesOk f sample frame.
Hypothesis Hfile : FileOk f.

(** A read inside a static region is served with the region's bytes. *)
Lemma ReadMedia_static RA r RC e size :
  fileRegions f = RA ++ r :: RC -> kind r = Static ->
  0 <= e -> 0 < size -> e + size <= len (bytes r) ->
  ReadMedia f (len (image RA) + e) size = Ret (true, slice e size (bytes r)).
Proof.
  intros Hsplit Hk He Hsize Hle. pose proof (len_nonneg (image RA)) as HA.
  rewrite (ReadMedia_image f sample frame Hsrc Hfile); try lia.
  - unfold fileImage. rewrite Hsplit, slice_region by lia. reflexivity.
  - unfold fileImage. rewrite Hsplit, image_app, image_cons, !len_app.
    pose proof (len_nonneg (image RC)). lia.
  - rewrite Hsplit. apply readOk_static; assumption.
Qed.

Lemma len_audioPart seg k :
  (k < seg_audFrameCount seg -> AudioChunkOk f seg k) ->
  len (image (if k <? seg_audFrameCount seg then audioRegions f seg k else []))
  = audPart f seg k.
Proof.
  intros Haud. unfold audPart, audChunkSize.
  destruct (Z.ltb_spec k (seg_audFrameCount seg)) as [Hk|Hk]; [|reflexivity].
  destruct (Haud Hk) as (Hss & Hc & Hsz). unfold audChunkSize in Hsz.
  rewrite (audioRegions_image f sample frame Hsrc) by apply Hc.
  rewrite !image_cons. cbn [bytes]. change (image []) with (@nil Z).
  rewrite !len_app, len_RiffTag, len_zeros.
  rewrite (len_samples sample (sampleSize f)) by (try apply (sample_size _ _ _ Hsrc); lia).
  change (len []) with 0.
  pose proof (Z.mod_pos_bound (snd (audLocate f seg k) * sampleSize f) 2 ltac:(lia)). lia.
Qed.

(** Where the video chunk of segment frame [k] lies among the regions of
    the file. *)
Lemma fileRegions_video i seg k :
  segs f !! i = Some seg -> 0 <= k < seg_vidFrameCount seg ->
  seg_vidFrameCount seg <= frameCount seg ->
  exists RA RC,
    fileRegions f
    = RA ++ mkRegion Static (RiffTag_bytes (frameVidFcc f) (frameVidDataSize f))
         :: mkRegion Static (frame (wrap32 (startFrame seg + k))) :: RC
    /\ len (image RA) + 8 = videoPayloadOffset f seg k.
Proof.
  intros Hi Hk Hvc.
  assert (Hseg : SegOk f seg).
  { pose proof (file_segs _ Hfile) as Hall. rewrite Forall_forall in Hall.
    apply Hall. eapply list_elem_of_lookup_2. exact Hi. }
  pose proof (seg_frames _ _ Hseg) as Hfc.
  exists (flat_map (segRegions f) (take i (segs f))
          ++ [mkRegion Static (hdr_buf seg)]
          ++ flat_map (frameRegions f seg) (seqZ 0 k)
          ++ (if k <? seg_audFrameCount seg then audioRegions f seg k else [])),
         (mkRegion Pad (zeros (frameVidDataSize f mod 2))
          :: flat_map (frameRegions f seg) (seqZ (k + 1) (frameCount seg - (k + 1)))
          ++ [junkRegion indxPrePadSize;
              mkRegion Static (vidIndx_bytes seg);
              mkRegion Static (audIndx_bytes seg);
              mkRegion Static (oldIndx_bytes seg);
              junkRegion indxPostPadSize]
          ++ flat_map (segRegions f) (drop (Datatypes.S i) (segs f))).
  split.
  - unfold fileRegions. rewrite <- (take_drop_middle _ _ _ Hi) at 1.
    rewrite flat_map_app. cbn [flat_map]. rewrite <- !app_assoc. f_equal.
    unfold segRegions at 1. rewrite <- !app_assoc. cbn [app]. f_equal.
    assert (Hsplit : seqZ 0 (frameCount seg)
                     = seqZ 0 k ++ k :: seqZ (k + 1) (frameCount seg - (k + 1))).
    { replace (frameCount seg) with (k + (frameCount seg - k)) at 1 by lia.
      rewrite seqZ_app by lia. rewrite Z.add_0_l. f_equal.
      rewrite seqZ_cons by lia. f_equal. f_equal; lia. }
    rewrite Hsplit, flat_map_app. cbn [flat_map]. rewrite <- !app_assoc. f_equal.
    unfold frameRegions at 1. destruct (Z.ltb_spec k (seg_vidFrameCount seg)); [|lia].
    rewrite (videoRegions_image f sample frame Hsrc). rewrite <- !app_assoc. reflexivity.
  - rewrite !image_app, !len_app.
    rewrite <- (file_start _ Hfile i seg Hi).
    change (image [mkRegion Static (hdr_buf seg)]) with (hdr_buf seg ++ []).
    rewrite app_nil_r, <- (seg_hdr _ _ Hseg).
    rewrite (len_frames f sample frame Hsrc) by (try assumption; lia).
    rewrite len_audioPart by (intros Hka; apply (seg_audio _ _ Hseg); lia).
    unfold videoPayloadOffset, moviOffset. lia.
Qed.

End File.
End AviReads.

Section AviTheorems.
Import Avi AviSpec.

(** [ReadMedia] returns the bytes of the reference image for every read
    inside the file that [readOk] admits: one that neither enters an
    audio chunk beyond sample 0 off a sample boundary nor runs past a
    padding byte. *)
Theorem ReadMedia_serves_image vi f sample frame off size :
  Init vi = Ret (true, f) -> fits f = true -> SourcesOk f sample frame ->
  0 <= off -> 0 < size -> off + size <= fileSize f ->
  readOk (sampleSize f) (fileRegions f) off size = true ->
  ReadMedia f off size = Ret (true, slice off size (fileImage f)).
Proof.
  intros Hinit Hfits Hsrc Hoff Hsize Hle Hok.
  destruct (segs f) as [|seg0 rest] eqn:Hsegs.
  { pose proof (Init_empty vi f Hinit Hsegs). lia. }
  destruct (Init_ok vi f sample frame Hinit Hfits Hsrc) as (Hfile & _ & Hlen & _).
  { rewrite Hsegs. discriminate. }
  apply (ReadMedia_image f sample frame Hsrc Hfile); try assumption. lia.
Qed.

(** The first twelve bytes [ReadMedia] serves are "RIFF", the size of
    segment 0 less 8, and "AVI "; the size is the file's when the file
    has one segment. *)
Theorem ReadMedia_riff_header vi f sample frame seg0 rest :
  Init vi = Ret (true, f) -> fits f = true -> SourcesOk f sample frame ->
  segs f = seg0 :: rest ->
  ReadMedia f 0 12 = Ret (true, RiffLst_bytes riffFcc (segSize seg0 - 8) avi2FileFcc)
  /\ (rest = [] -> segSize seg0 = fileSize f).
Proof.
  intros Hinit Hfits Hsrc Hsegs.
  destruct (Init_ok vi f sample frame Hinit Hfits Hsrc) as
    (Hfile & Hcore & Hlen & _ & seg0' & rest' & Hsegs' & Hstart & Hhdr).
  { rewrite Hsegs. discriminate. }
  rewrite Hsegs in Hsegs'. injection Hsegs' as <- <-.
  assert (Hl : 12 <= len (hdr_buf seg0)).
  { assert (H12 : length (take 12 (hdr_buf seg0)) = 12%nat) by (rewrite Hhdr; reflexivity).
    rewrite length_take in H12. unfold len. lia. }
  split.
  - pose proof (ReadMedia_static f sample frame Hsrc Hfile []
                  (mkRegion Static (hdr_buf seg0))
                  (flat_map (frameRegions f seg0) (seqZ 0 (frameCount seg0))
                   ++ [junkRegion indxPrePadSize;
                       mkRegion Static (vidIndx_bytes seg0);
                       mkRegion Static (audIndx_bytes seg0);
                       mkRegion Static (oldIndx_bytes seg0);
                       junkRegion indxPostPadSize]
                   ++ flat_map (segRegions f) rest) 0 12) as H.
    cbn [bytes kind] in H. change (len (image []) + 0) with 0 in H.
    rewrite H; try lia; try reflexivity.
    + change (slice 0 12 (hdr_buf seg0)) with (take 12 (hdr_buf seg0)).
      rewrite Hhdr. reflexivity.
    + unfold fileRegions. rewrite Hsegs. cbn [flat_map]. unfold segRegions at 1.
      rewrite <- !app_assoc. reflexivity.
  - intros ->. rewrite Hlen. unfold fileImage, fileRegions. rewrite Hsegs.
    cbn [flat_map]. rewrite app_nil_r. fold (segImage f seg0).
    rewrite Hsegs in Hcore. apply Forall_cons in Hcore. destruct Hcore as [Hc _].
    pose proof (file_segs _ Hfile) as Hok. rewrite Hsegs in Hok.
    apply Forall_cons in Hok. destruct Hok as [Hok _].
    rewrite (len_segImage_layout f sample frame Hsrc) by assumption.
    apply (core_size _ _ Hc).
Qed.

(** C3. For every segment of a file [Init] has laid out and every frame
    [k] of the segment's video range, the [ix00] entry of [k] holds an
    offset that, added to the 64-bit base offset of the [ix00] header
    (the segment's start offset), is the file offset of the payload of
    the video chunk of [k]: [ReadMedia] serves the chunk's tag from the 8
    bytes before it and the frame's data from it on. *)
Theorem ix00_entry_locates_video_payload vi f sample frame i seg k :
  Init vi = Ret (true, f) -> fits f = true -> SourcesOk f sample frame ->
  segs f !! i = Some seg -> 0 <= k < seg_vidFrameCount seg ->
  exists e,
    ents (vidIndx seg) !! Z.to_nat k = Some e
    /\ let base := qwBaseOffsetLow (hdr (vidIndx seg))
                   + 2 ^ 32 * qwBaseOffsetHigh (hdr (vidIndx seg)) in
       base = startOffset seg
       /\ base + dwOffset e = videoPayloadOffset f seg k
       /\ ReadMedia f (base + dwOffset e - 8) 8
          = Ret (true, RiffTag_bytes (frameVidFcc f) (frameVidDataSize f))
       /\ ReadMedia f (base + dwOffset e) (frameVidDataSize f)
          = Ret (true, snd (GetFrameData (avs f) (wrap32 (startFrame seg + k)) 0
                              (frameVidDataSize f))).
Proof.
  intros Hinit Hfits Hsrc Hi Hk.
  destruct (Init_ok vi f sample frame Hinit Hfits Hsrc) as (Hfile & Hcore & Hlen & HF & _).
  { intros Hnil. rewrite Hnil in Hi. discriminate. }
  assert (Hc : SegCore f seg).
  { rewrite Forall_forall in Hcore. apply Hcore. eapply list_elem_of_lookup_2. exact Hi. }
  exists (mkIndxEntry (hdrSize seg + moviOffset f seg k + audPart f seg k + 8)
                      (frameVidDataSize f)).
  split; [apply (core_ents _ _ Hc); assumption|].
  cbv zeta. rewrite (core_base _ _ Hc). cbn [dwOffset].
  split; [reflexivity|].
  assert (Hp : startOffset seg + (hdrSize seg + moviOffset f seg k + audPart f seg k + 8)
               = videoPayloadOffset f seg k) by (unfold videoPayloadOffset; lia).
  split; [exact Hp|]. rewrite Hp.
  destruct (fileRegions_video f sample frame Hsrc Hfile i seg k Hi Hk
              (proj2 (core_vid _ _ Hc))) as (RA & RC & Hsplit & Hpos).
  rewrite <- Hpos. split.
  - replace (len (image RA) + 8 - 8) with (len (image RA) + 0) by lia.
    rewrite (ReadMedia_static f sample frame Hsrc Hfile RA _ _ 0 8 Hsplit);
      cbn [kind bytes]; try reflexivity; lia.
  - assert (Hsplit' :
      fileRegions f
      = (RA ++ [mkRegion Static (RiffTag_bytes (frameVidFcc f) (frameVidDataSize f))])
        ++ mkRegion Static (frame (wrap32 (startFrame seg + k))) :: RC).
    { rewrite Hsplit, <- app_assoc. reflexivity. }
    pose proof (frame_size _ _ _ Hsrc (wrap32 (startFrame seg + k))) as Hfs.
    replace (len (image RA) + 8)
      with (len (image (RA ++ [mkRegion Static (RiffTag_bytes (frameVidFcc f)
                                                   (frameVidDataSize f))])) + 0).
    2:{ rewrite image_app, len_app. change (len (image [_])) with 8. lia. }
    rewrite (ReadMedia_static f sample frame Hsrc Hfile _ _ _ 0 (frameVidDataSize f) Hsplit');
      cbn [kind bytes]; try reflexivity; try lia.
    rewrite (video_ok _ _ _ Hsrc). reflexivity.
Qed.

End AviTheorems.

Section AviClips.
Import Avi AviSpec AviScenarios.

Lemma smallFile_SourcesOk : SourcesOk smallFile sampleOf (frameOf 24).
Proof. constructor; intros; reflexivity. Qed.

(** C2. A read that starts inside a sample of an audio chunk which does
    not begin at sample 0 returns bytes of another sample.  In the file
    of the three-frame clip the samples of the audio chunk of frame 1
    (samples 4 to 7) start at offset 171016; the two bytes at 171017 are
    bytes 1 and 2 of sample 4, that is 17 and 18, and [ReadMedia] returns
    bytes 1 and 2 of sample 0. *)
Theorem ReadMedia_ragged_front_wrong_sample :
  succeeded (Init (clip 3 24)) = true
  /\ fits smallFile = true
  /\ 171017 + 2 <= fileSize smallFile
  /\ slice 171017 2 (fileImage smallFile) = [17; 18]
  /\ ReadMedia smallFile 171017 2 = Ret (true, [1; 2]).
Proof.
  split; [reflexivity|]. split; [reflexivity|].
  split; [vm_compute; discriminate|]. split; reflexivity.
Qed.

(** A read that runs past the padding byte of a chunk returns zeros from
    the padding byte on.  In the file of three 25-byte frames byte 171008
    is the last byte of the video data of frame 0, 171009 its padding and
    171010 the first byte of the tag "01wb" of frame 1. *)
Lemma ReadMedia_pad_zeroes_rest :
  succeeded (Init (clip 3 25)) = true
  /\ fits oddFile = true
  /\ 171008 + 4 <= fileSize oddFile
  /\ slice 171008 4 (fileImage oddFile) = [10; 0; 48; 49]
  /\ ReadMedia oddFile 171008 4 = Ret (true, [10; 0; 0; 0]).
Proof.
  split; [reflexivity|]. split; [reflexivity|].
  split; [vm_compute; discriminate|]. split; reflexivity.
Qed.

(** In a file of two segments the size in the first twelve bytes is that
    of segment 0, and the file's size less 8 does not fit its 32 bits. *)
Lemma ReadMedia_riff_header_two_segments :
  succeeded (Init (clip 2 (2 ^ 31))) = true
  /\ fits bigFile = true
  /\ fileSegCount bigFile = 2
  /\ fileSize bigFile = 4295662824
  /\ (segSize <$> segs bigFile) = [2147916896; 2147745928]
  /\ ReadMedia bigFile 0 12
     = Ret (true, RiffLst_bytes riffFcc (2147916896 - 8) avi2FileFcc)
  /\ RiffLst_bytes riffFcc (2147916896 - 8) avi2FileFcc
     <> RiffLst_bytes riffFcc (wrap32 (fileSize bigFile - 8)) avi2FileFcc.
Proof.
  split; [reflexivity|]. split; [reflexivity|]. split; [reflexivity|].
  split; [reflexivity|]. split; [reflexivity|]. split; [reflexivity|].
  vm_compute. discriminate.
Qed.

Lemma ReadMedia_serves_image_witness :
  ReadMedia smallFile 171016 6 = Ret (true, slice 171016 6 (fileImage smallFile)).
Proof.
  apply (ReadMedia_serves_image (clip 3 24) smallFile sampleOf (frameOf 24) 171016 6).
  - reflexivity.
  - reflexivity.
  - constructor; intros; reflexivity.
  - lia.
  - lia.
  - vm_compute. discriminate.
  - reflexivity.
Defined.

Lemma ReadMedia_riff_header_witness :
  ReadMedia smallFile 0 12
  = Ret (true, RiffLst_bytes riffFcc (segSize smallSeg - 8) avi2FileFcc)
  /\ (@nil Seg = [] -> segSize smallSeg = fileSize smallFile).
Proof.
  apply (ReadMedia_riff_header (clip 3 24) smallFile sampleOf (frameOf 24) smallSeg []).
  - reflexivity.
  - reflexivity.
  - constructor; intros; reflexivity.
  - reflexivity.
Defined.

Lemma ix00_entry_locates_video_payload_witness :
  exists e,
    ents (vidIndx smallSeg) !! Z.to_nat 1 = Some e
    /\ let base := qwBaseOffsetLow (hdr (vidIndx smallSeg))
                   + 2 ^ 32 * qwBaseOffsetHigh (hdr (vidIndx smallSeg)) in
       base = startOffset smallSeg
       /\ base + dwOffset e = videoPayloadOffset smallFile smallSeg 1
       /\ ReadMedia smallFile (base + dwOffset e - 8) 8
          = Ret (true, RiffTag_bytes (frameVidFcc smallFile) (frameVidDataSize smallFile))
       /\ ReadMedia smallFile (base + dwOffset e) (frameVidDataSize smallFile)
          = Ret (true, snd (GetFrameData (avs smallFile)
                              (wrap32 (startFrame smallSeg + 1)) 0
                              (frameVidDataSize smallFile))).
Proof.
  apply (ix00_entry_locates_video_payload (clip 3 24) smallFile sampleOf (frameOf 24)
           0%nat smallSeg 1).
  - reflexivity.
  - reflexivity.
  - constructor; intros; reflexivity.
  - reflexivity.
  - vm_compute. split; [discriminate|reflexivity].
Defined.

End AviClips.
